(** * Deutsch Leseecke: the authoring workflow of [server.js]

    A shallow embedding of the route handlers of [server.js] that the
    specification talks about: the access policy ([requireAuth],
    [requireAdmin]), the reconstruction of quiz questions from flat form
    fields ([parseStoryQuestions]), the two authoring handlers
    ([POST /stories], [POST /questions]), the login handler and the
    listing queries of the content repository.

    Conventions.
    - A JavaScript string is the list of its UTF-16 code units.
    - A JavaScript number that the code obtains from [Number.parseInt] is
      [None] (NaN) or [Some z] with [z] the value of the double that
      [Number.parseInt] returns: the parsed integer rounded to 53
      significant bits ([toNumber]), and plus or minus [INFINITY] for
      the two infinities.  The keys of the question map are such
      numbers.
    - The ids of stories and questions are INT UNSIGNED AUTO_INCREMENT
      values, as in the schema of the README: every id the engine hands
      out is at most [UINT_MAX], and so below 2^53.
    - [async]/[await] is sequential composition: a handler runs from its
      first line to its response.  A handler that throws outside a
      [try] leaves the response to the error middleware, which answers
      500 with the page [errors/500]. *)

From Stdlib Require Import List Bool Arith ZArith NArith String Ascii Lia.
From Stdlib Require Import Permutation Sorted DecimalString DecimalN.
Import ListNotations.

(* ================================================================== *)
(** ** JavaScript strings *)
(* ================================================================== *)

Module JS.

Definition jsstring := list N.

(** The code units of an ASCII literal. *)
Definition lit (s : string) : jsstring :=
  List.map N_of_ascii (list_ascii_of_string s).

Fixpoint str_eqb (a b : jsstring) : bool :=
  match a, b with
  | [], [] => true
  | x :: a', y :: b' => N.eqb x y && str_eqb a' b'
  | _, _ => false
  end.

(** ECMAScript [WhiteSpace] and [LineTerminator] code points: what
    [String.prototype.trim] strips and what [parseInt] skips. *)
Definition isWhiteSpace (c : N) : bool :=
  ((9 <=? c) && (c <=? 13)            (* TAB, LF, VT, FF, CR *)
   || (c =? 32) || (c =? 160)         (* SP, NBSP *)
   || (c =? 5760)                     (* U+1680 *)
   || ((8192 <=? c) && (c <=? 8202))  (* U+2000 .. U+200A *)
   || (c =? 8232) || (c =? 8233)      (* LS, PS *)
   || (c =? 8239) || (c =? 8287)      (* U+202F, U+205F *)
   || (c =? 12288) || (c =? 65279))%N (* U+3000, U+FEFF *).

Fixpoint trimStart (s : jsstring) : jsstring :=
  match s with
  | [] => []
  | c :: t => if isWhiteSpace c then trimStart t else s
  end.

Definition trimEnd (s : jsstring) : jsstring := rev (trimStart (rev s)).

(** [s.trim()] *)
Definition trim (s : jsstring) : jsstring := trimEnd (trimStart s).

(** [Boolean(s)], [!s] is its negation: a string is truthy when it is
    not empty. *)
Definition truthy (s : jsstring) : bool :=
  match s with [] => false | _ :: _ => true end.

(** [value || ""] where [value] may be [undefined]. *)
Definition orEmpty (v : option jsstring) : jsstring :=
  match v with Some s => s | None => [] end.

Definition isDigit (c : N) : bool := ((48 <=? c) && (c <=? 57))%N.

(** The longest prefix of decimal digits, and what follows it. *)
Fixpoint spanDigits (s : jsstring) : jsstring * jsstring :=
  match s with
  | [] => ([], [])
  | c :: t =>
      if isDigit c then let (d, r) := spanDigits t in (c :: d, r)
      else ([], s)
  end.

(** The number a digit string denotes in radix 10. *)
Definition digitsValue (ds : jsstring) : N :=
  fold_left (fun acc c => (10 * acc + (c - 48))%N) ds 0%N.

(** Positive infinity among the values of a double: 2^1024, the first
    power of two that no finite double reaches.  It is above every
    finite double and equal to itself only, which is all the code asks
    of Infinity apart from [Number.isInteger]. *)
Definition INFINITY : N := 2 ^ 1024.

(** The Number value of a natural number: the nearest double, a tie
    going to the even significand.  A double has 53 significant bits,
    so a number of at most 53 bits is its own value; of a longer one
    the bits beyond the 53rd are rounded away.  From 2^1024 - 2^970 on
    the rounding reaches 2^1024 and the value is Infinity. *)
Definition toNumber (n : N) : N :=
  if (N.size n <=? 53)%N then n
  else
    let excess := (N.size n - 53)%N in
    let significand := N.shiftr n excess in
    let rest := N.land n (N.ones excess) in
    let half := N.shiftl 1 (excess - 1) in
    let roundUp :=
      ((half <? rest) || ((rest =? half) && N.odd significand))%N in
    let v := N.shiftl (if roundUp then significand + 1 else significand)%N
               excess in
    if (INFINITY <=? v)%N then INFINITY else v.

(** [Number.parseInt(s, 10)] on a string: skip leading white space, an
    optional sign, then the longest digit prefix; NaN when that prefix
    is empty.  What follows the digits is ignored.  The result is the
    Number value of the integer read.  Minus zero is zero here: the
    code compares the result and never divides by it. *)
Definition parseInt (s : jsstring) : option Z :=
  let s1 := trimStart s in
  let '(neg, s2) :=
    match s1 with
    | 45%N :: t => (true, t)
    | 43%N :: t => (false, t)
    | _ => (false, s1)
    end in
  match fst (spanDigits s2) with
  | [] => None
  | ds => let v := Z.of_N (toNumber (digitsValue ds)) in
          Some (if neg then (- v)%Z else v)
  end.

(** [Number.isInteger(z)] for a number that is not NaN: the two
    infinities are no integers. *)
Definition isInteger (z : Z) : bool := (Z.abs z <? Z.of_N INFINITY)%Z.

(** [Number.parseInt(v, 10)] where [v] may be [undefined]: the string
    ["undefined"] has no digit prefix. *)
Definition parseIntOpt (v : option jsstring) : option Z :=
  match v with Some s => parseInt s | None => None end.

(** Decimal rendering of a natural, as template literals do for a
    number below 10^21 that a double holds exactly. *)
Definition ofN (n : N) : jsstring :=
  lit (NilZero.string_of_uint (N.to_uint n)).

(** If [p] is a prefix of [s], what follows it. *)
Fixpoint stripPrefix (p s : jsstring) : option jsstring :=
  match p, s with
  | [], _ => Some s
  | x :: p', y :: s' => if N.eqb x y then stripPrefix p' s' else None
  | _ :: _, [] => None
  end.

End JS.

Import JS.

(* ================================================================== *)
(** ** Data model *)
(* ================================================================== *)

(** The identity record kept in the session ([setLoggedInUser]). *)
Record User := {
  user_id : N;
  user_email : jsstring }.

(** [req.session]: the identity, if any, and the remembered path. *)
Record Session := {
  session_user : option User;
  session_returnTo : option jsstring }.

(** An uploaded file as multer describes it. *)
Record File := {
  fieldname : jsstring;
  filename : jsstring;
  filepath : jsstring }.

(** The object [ensureQuestion] creates. [correctIndex] is a JavaScript
    number: [None] is NaN. *)
Record Question := {
  prompt : jsstring;
  answers : list jsstring;
  correctIndex : option Z;
  file : option File }.

(** [values] of the story form. *)
Record StoryValues := {
  v_title : jsstring;
  v_level : jsstring;
  v_summary : jsstring;
  v_body : jsstring;
  v_questions : list Question }.

(** [normalizedValues] of the single-question form; [qv_storyId] is
    [values.storyId || ""], with [None] for the empty string. *)
Record QuestionValues := {
  qv_storyId : option Z;
  qv_prompt : jsstring;
  qv_answers : list jsstring;
  qv_correctIndex : option Z }.

(** Rows of the five tables.  [created] is the [created_at] timestamp in
    seconds. *)
Record UserRow := {
  u_id : N;
  u_email : jsstring;
  u_password_hash : jsstring }.

Record StoryRow := {
  story_id : N;
  story_title : jsstring;
  story_level : jsstring;
  story_summary : jsstring;
  story_body : jsstring;
  story_author : N;
  story_created : N }.

Record QuestionRow := {
  question_id : N;
  question_story : N;
  question_prompt : jsstring;
  answer_a : jsstring;
  answer_b : jsstring;
  answer_c : jsstring;
  answer_d : jsstring;
  correct_index : option Z;
  audio_path : option jsstring;
  question_author : N;
  question_created : N }.

Record VocabularyRow := {
  vocabulary_id : N;
  term : jsstring;
  translation : jsstring;
  example_sentence : option jsstring;
  vocabulary_author : N;
  vocabulary_created : N }.

Record GrammarRow := {
  grammar_id : N;
  grammar_title : jsstring;
  explanation : jsstring;
  grammar_author : N;
  grammar_created : N }.

Record Tables := {
  users : list UserRow;
  stories : list StoryRow;
  questions : list QuestionRow;
  vocabulary_entries : list VocabularyRow;
  grammar_topics : list GrammarRow }.

(** What the handlers ask of the pool and of the database connection,
    in order.  An INSERT that succeeds is recorded with the id of its
    row, one that throws as [OpInsertRejected]; any other call is
    recorded when it is made and followed by [OpFailed] when it
    throws. *)
Inductive DbOp :=
| OpGetConnection
| OpBeginTransaction
| OpInsertStory (id : N)
| OpInsertQuestion (id : N)
| OpInsertRejected
| OpCommit
| OpRollback
| OpRelease
| OpFailed.

(** The database as one request sees it: the rows of the tables, the
    rows as the open transaction of the handler's connection has them
    (if one is open), the AUTO_INCREMENT counters of the two tables the
    authoring handlers write, the engine's clock, and the operations
    performed so far. *)
Record Database := {
  tables : Tables;
  uncommitted : option Tables;
  storyCounter : N;
  questionCounter : N;
  clock : N;
  trace : list DbOp }.

(** The largest value of an INT UNSIGNED column. *)
Definition UINT_MAX : N := 4294967295.

(** The AUTO_INCREMENT value the next story or question gets.  The id
    columns are INT UNSIGNED: a counter that has run out of values
    stays at the largest one. *)
Definition storySeq (d : Database) : N := N.min (storyCounter d) UINT_MAX.

Definition questionSeq (d : Database) : N :=
  N.min (questionCounter d) UINT_MAX.

(** The id after [id]. *)
Definition nextId (id : N) : N := N.min (id + 1) UINT_MAX.

(** What lies outside [server.js] and stays abstract: Unicode case
    mapping, the password comparison of bcryptjs, the collation MySQL
    compares emails with, whether the engine accepts a row (column
    sizes, foreign keys and CHECK constraints can reject an insert),
    and whether the pool hands out a connection and the engine begins,
    commits and rolls back a transaction when asked (any of these
    calls can throw). *)
Record Platform := {
  toUpperCase : jsstring -> jsstring;
  toLowerCase : jsstring -> jsstring;
  bcryptCompare : jsstring -> jsstring -> bool;
  emailEq : jsstring -> jsstring -> bool;
  acceptsStory : Tables -> StoryRow -> bool;
  acceptsQuestion : Tables -> QuestionRow -> bool;
  connects : Database -> bool;
  begins : Database -> bool;
  commits : Database -> bool;
  rollsBack : Database -> bool }.

(** The pages [res.render] is called with, and the two kinds of reply. *)
Inductive Page :=
| StoriesNewPage (error : option jsstring) (values : StoryValues)
| QuestionsNewPage (error success : option jsstring)
    (stories : list (N * jsstring)) (values : QuestionValues)
| LoginPage (error : option jsstring) (email : jsstring)
| Error403Page
| Error500Page.

Inductive Reply :=
| Render (status : N) (page : Page)
| Redirect (location : jsstring).

(** [res.redirect] answers 302. *)
Definition statusOf (r : Reply) : N :=
  match r with
  | Render s _ => s
  | Redirect _ => 302
  end.

(** The end of a request: the reply, the database and the session
    afterwards, and the paths handed to [fs.unlink]. *)
Record Outcome := {
  reply : Reply;
  database : Database;
  session : Session;
  unlinked : list jsstring }.

(* ================================================================== *)
(** ** Access policy *)
(* ================================================================== *)

Definition ADMIN_EMAIL : jsstring := lit "karen12389033@gmail.com".

(** [Boolean(user && user.email === ADMIN_EMAIL)] *)
Definition isAdmin (user : option User) : bool :=
  match user with
  | Some u => str_eqb (user_email u) ADMIN_EMAIL
  | None => false
  end.

(** A middleware either calls [next()] or answers the request itself. *)
Inductive Verdict :=
| Next
| Respond (r : Reply).

Definition rememberUrl (s : Session) (originalUrl : jsstring) : Session :=
  {| session_user := session_user s;
     session_returnTo := Some originalUrl |}.

Definition requireAuth (s : Session) (originalUrl : jsstring)
  : Session * Verdict :=
  match session_user s with
  | None => (rememberUrl s originalUrl, Respond (Redirect (lit "/login")))
  | Some _ => (s, Next)
  end.

Definition requireAdmin (s : Session) (originalUrl : jsstring)
  : Session * Verdict :=
  match session_user s with
  | None => (rememberUrl s originalUrl, Respond (Redirect (lit "/login")))
  | Some _ =>
      if negb (isAdmin (session_user s))
      then (s, Respond (Render 403 Error403Page))
      else (s, Next)
  end.

(* ================================================================== *)
(** ** Sorting *)
(* ================================================================== *)

(** [Array.prototype.sort] is stable, and so is this insertion sort:
    an element goes in front of the first element it is not after. *)
Fixpoint insertSorted {A : Type} (leb : A -> A -> bool) (x : A)
  (l : list A) : list A :=
  match l with
  | [] => [x]
  | y :: r => if leb x y then x :: l else y :: insertSorted leb x r
  end.

Definition sortBy {A : Type} (leb : A -> A -> bool) (l : list A)
  : list A :=
  fold_right (insertSorted leb) [] l.

(* ================================================================== *)
(** ** parseStoryQuestions *)
(* ================================================================== *)

(** [req.body] as [Object.entries] lists it: the name of a form field
    and the text the form parser read for it. *)
Definition Body := list (jsstring * jsstring).

(** [req.body.name], [undefined] when the field is absent. *)
Fixpoint field (name : jsstring) (b : Body) : option jsstring :=
  match b with
  | [] => None
  | (k, v) :: r => if str_eqb k name then Some v else field name r
  end.

(** The [Map] of the function, in insertion order; the keys are the
    numbers [Number.parseInt] makes of the matched digits. *)
Definition QuestionMap := list (N * Question).

Definition newQuestion : Question :=
  {| prompt := [];
     answers := [[]; []; []; []];
     correctIndex := Some 0%Z;
     file := None |}.

Fixpoint has (index : N) (m : QuestionMap) : bool :=
  match m with
  | [] => false
  | (k, _) :: r => N.eqb k index || has index r
  end.

Fixpoint get (index : N) (m : QuestionMap) : option Question :=
  match m with
  | [] => None
  | (k, q) :: r => if N.eqb k index then Some q else get index r
  end.

(** The map after [ensureQuestion(index)]. *)
Definition ensureQuestion (index : N) (m : QuestionMap) : QuestionMap :=
  if has index m then m else m ++ [(index, newQuestion)].

(** Assigning to a property of the object stored under [index]. *)
Fixpoint modify (index : N) (f : Question -> Question) (m : QuestionMap)
  : QuestionMap :=
  match m with
  | [] => []
  | (k, q) :: r =>
      if N.eqb k index then (k, f q) :: r
      else (k, q) :: modify index f r
  end.

Definition setPrompt (v : jsstring) (q : Question) : Question :=
  {| prompt := v; answers := answers q;
     correctIndex := correctIndex q; file := file q |}.

Definition setCorrectIndex (v : option Z) (q : Question) : Question :=
  {| prompt := prompt q; answers := answers q;
     correctIndex := v; file := file q |}.

Fixpoint setNth {A : Type} (n : nat) (x : A) (l : list A) : list A :=
  match l, n with
  | [], _ => []
  | _ :: t, O => x :: t
  | h :: t, S n' => h :: setNth n' x t
  end.

Definition setAnswer (j : N) (v : jsstring) (q : Question) : Question :=
  {| prompt := prompt q; answers := setNth (N.to_nat j) v (answers q);
     correctIndex := correctIndex q; file := file q |}.

Definition setFile (f : File) (q : Question) : Question :=
  {| prompt := prompt q; answers := answers q;
     correctIndex := correctIndex q; file := Some f |}.

(** The common head of the four patterns, [^questions\[(\d+)]: the
    number [Number.parseInt] makes of the digits, and what follows
    them. *)
Definition matchIndex (name : jsstring) : option (N * jsstring) :=
  match stripPrefix (lit "questions[") name with
  | Some r =>
      match spanDigits r with
      | ([], _) => None
      | (ds, rest) => Some (toNumber (digitsValue ds), rest)
      end
  | None => None
  end.

Definition matchIndexed (tail name : jsstring) : option N :=
  match matchIndex name with
  | Some (i, rest) => if str_eqb rest tail then Some i else None
  | None => None
  end.

(** [/^questions\[(\d+)\]\[prompt\]$/] *)
Definition promptMatch : jsstring -> option N :=
  matchIndexed (lit "][prompt]").

(** [/^questions\[(\d+)\]\[correctIndex\]$/] *)
Definition correctMatch : jsstring -> option N :=
  matchIndexed (lit "][correctIndex]").

(** [/^questions\[(\d+)\]\[audio\]$/] *)
Definition audioMatch : jsstring -> option N :=
  matchIndexed (lit "][audio]").

(** [/^questions\[(\d+)\]\[answers\]\[(\d+)\]$/] *)
Definition answerMatch (name : jsstring) : option (N * N) :=
  match matchIndex name with
  | Some (i, rest) =>
      match stripPrefix (lit "][answers][") rest with
      | Some r =>
          match spanDigits r with
          | ([], _) => None
          | (ds, rest') =>
              if str_eqb rest' (lit "]")
              then Some (i, toNumber (digitsValue ds))
              else None
          end
      | None => None
      end
  | None => None
  end.

(** One turn of the loop over [Object.entries(body)]. *)
Definition bodyStep (m : QuestionMap) (entry : jsstring * jsstring)
  : QuestionMap :=
  let (name, value) := entry in
  match promptMatch name with
  | Some i => modify i (setPrompt (trim value)) (ensureQuestion i m)
  | None =>
      match correctMatch name with
      | Some i =>
          modify i (setCorrectIndex (parseInt value)) (ensureQuestion i m)
      | None =>
          match answerMatch name with
          | Some (i, j) =>
              let m' := ensureQuestion i m in
              if (j <? 4)%N then modify i (setAnswer j (trim value)) m'
              else m'
          | None => m
          end
      end
  end.

(** One turn of the loop over [files]. *)
Definition fileStep (m : QuestionMap) (f : File) : QuestionMap :=
  match audioMatch (fieldname f) with
  | None => m
  | Some i => modify i (setFile f) (ensureQuestion i m)
  end.

(** The map when both loops are done. *)
Definition collect (body : Body) (files : list File) : QuestionMap :=
  fold_left fileStep files (fold_left bodyStep body []).

(** [(a, b) => a[0] - b[0]] puts [a] first when the difference is not
    positive.  The keys of a [Map] differ from one another, so the
    difference is never that of Infinity and itself. *)
Definition byIndex (a b : N * Question) : bool := (fst a <=? fst b)%N.

(** [Array.from(questionMap.entries()).sort(...)] *)
Definition candidates (body : Body) (files : list File) : QuestionMap :=
  sortBy byIndex (collect body files).

(** The predicate of the final [filter]. *)
Definition keepQuestion (q : Question) : bool :=
  let hasPrompt := truthy (prompt q) in
  let hasAnyAnswer := existsb truthy (answers q) in
  hasPrompt || hasAnyAnswer.

Definition parseStoryQuestions (body : Body) (files : list File)
  : list Question :=
  filter keepQuestion (List.map snd (candidates body files)).

(* ================================================================== *)
(** ** Content repository *)
(* ================================================================== *)

(** Modelled from the spec: [lib/db.js] (the pool and [db.query]) and
    the engine behind it are not among the sources.  A statement run on
    a connection may throw ([None]) and leaves the database in some
    state either way; an INSERT adds its row to the table and returns
    the AUTO_INCREMENT value; [db.query] returns the rows of its SELECT
    in the order its ORDER BY clause asks for. *)
Definition Tx (X : Type) : Type := Database -> option X * Database.

Definition ret {X : Type} (x : X) : Tx X := fun d => (Some x, d).

Definition bind {X Y : Type} (m : Tx X) (k : X -> Tx Y) : Tx Y :=
  fun d =>
    match m d with
    | (Some x, d') => k x d'
    | (None, d') => (None, d')
    end.

Notation "x <- m ;; k" := (bind m (fun x => k))
  (at level 61, m at next level, right associativity).

Fixpoint forEach {A : Type} (l : list A) (f : A -> Tx unit) : Tx unit :=
  match l with
  | [] => ret tt
  | a :: r => _ <- f a ;; forEach r f
  end.

Definition logOp (op : DbOp) (d : Database) : Database :=
  {| tables := tables d; uncommitted := uncommitted d;
     storyCounter := storyCounter d;
     questionCounter := questionCounter d; clock := clock d;
     trace := trace d ++ [op] |}.

Definition withTables (t : Tables) (d : Database) : Database :=
  {| tables := t; uncommitted := uncommitted d;
     storyCounter := storyCounter d;
     questionCounter := questionCounter d; clock := clock d;
     trace := trace d |}.

Definition withUncommitted (u : option Tables) (d : Database)
  : Database :=
  {| tables := tables d; uncommitted := u;
     storyCounter := storyCounter d;
     questionCounter := questionCounter d; clock := clock d;
     trace := trace d |}.

Definition withStoryCounter (n : N) (d : Database) : Database :=
  {| tables := tables d; uncommitted := uncommitted d;
     storyCounter := n;
     questionCounter := questionCounter d; clock := clock d;
     trace := trace d |}.

Definition withQuestionCounter (n : N) (d : Database) : Database :=
  {| tables := tables d; uncommitted := uncommitted d;
     storyCounter := storyCounter d;
     questionCounter := n; clock := clock d;
     trace := trace d |}.

(** [connection = db.pool]: an INSERT runs on the pool, where it takes
    effect at once, or on the connection of the handler, where it
    belongs to the transaction when one is open. *)
Inductive Executor :=
| Pool
| Connection.

(** The rows a statement on the executor sees, and the database after
    it has changed them to [t]. *)
Definition rowsSeen (e : Executor) (d : Database) : Tables :=
  match e, uncommitted d with
  | Connection, Some t => t
  | _, _ => tables d
  end.

Definition writeRows (e : Executor) (t : Tables) (d : Database)
  : Database :=
  match e, uncommitted d with
  | Connection, Some _ => withUncommitted (Some t) d
  | _, _ => withTables t d
  end.

Definition addStory (r : StoryRow) (t : Tables) : Tables :=
  {| users := users t; stories := stories t ++ [r];
     questions := questions t;
     vocabulary_entries := vocabulary_entries t;
     grammar_topics := grammar_topics t |}.

Definition addQuestion (r : QuestionRow) (t : Tables) : Tables :=
  {| users := users t; stories := stories t;
     questions := questions t ++ [r];
     vocabulary_entries := vocabulary_entries t;
     grammar_topics := grammar_topics t |}.

(** [DATE_FORMAT(created_at, '%Y-%m-%d')]: the calendar day, here the
    day number; the formatted strings compare as the day numbers do. *)
Definition DATE_FORMAT (t : N) : N := (t / 86400)%N.

(** [ORDER BY key DESC, id DESC]: [x] is not after [y]. *)
Definition descDesc {A : Type} (key id : A -> N) (x y : A) : bool :=
  ((key y <? key x) || ((key x =? key y) && (id y <=? id x)))%N.

(** [ORDER BY id ASC] *)
Definition ascending {A : Type} (id : A -> N) (x y : A) : bool :=
  (id x <=? id y)%N.

(** The rows of the listing queries in the order the engine returns
    them.  In [getAllStories], [getVocabularyEntries] and
    [getGrammarTopics] the select list renames the formatted date to
    [created_at], and MySQL resolves a name in ORDER BY against the
    select list first: these three sort on the formatted date.
    [getStorySummaries] selects no such alias and sorts on the column. *)
Definition orderedStories (d : Database) : list StoryRow :=
  sortBy (descDesc (fun r => DATE_FORMAT (story_created r)) story_id)
    (stories (tables d)).

Definition orderedSummaries (d : Database) : list StoryRow :=
  sortBy (descDesc story_created story_id) (stories (tables d)).

Definition orderedVocabulary (d : Database) : list VocabularyRow :=
  sortBy
    (descDesc (fun r => DATE_FORMAT (vocabulary_created r)) vocabulary_id)
    (vocabulary_entries (tables d)).

Definition orderedGrammar (d : Database) : list GrammarRow :=
  sortBy (descDesc (fun r => DATE_FORMAT (grammar_created r)) grammar_id)
    (grammar_topics (tables d)).

Definition orderedQuestions (d : Database) (storyId : N)
  : list QuestionRow :=
  sortBy (ascending question_id)
    (filter (fun r => N.eqb (question_story r) storyId)
       (questions (tables d))).

(** The objects the queries return. *)
Record StoryListing := {
  l_id : N;
  l_title : jsstring;
  l_level : jsstring;
  l_summary : jsstring;
  l_created_at : N }.

Record QuestionView := {
  view_id : N;
  view_prompt : jsstring;
  view_answers : list jsstring;
  view_correctIndex : option Z;
  view_audioPath : option jsstring }.

Record VocabularyListing := {
  vl_id : N;
  vl_term : jsstring;
  vl_translation : jsstring;
  vl_example_sentence : option jsstring;
  vl_created_at : N }.

Record GrammarListing := {
  gl_id : N;
  gl_title : jsstring;
  gl_explanation : jsstring;
  gl_created_at : N }.

Definition getAllStories (d : Database) : list StoryListing :=
  List.map
    (fun r => {| l_id := story_id r; l_title := story_title r;
                 l_level := story_level r; l_summary := story_summary r;
                 l_created_at := DATE_FORMAT (story_created r) |})
    (orderedStories d).

Definition getStorySummaries (d : Database) : list (N * jsstring) :=
  List.map (fun r => (story_id r, story_title r)) (orderedSummaries d).

Definition getStoryById (id : N) (d : Database) : option StoryRow :=
  find (fun r => N.eqb (story_id r) id) (stories (tables d)).

Definition getQuestionsForStory (d : Database) (storyId : N)
  : list QuestionView :=
  List.map
    (fun r => {| view_id := question_id r;
                 view_prompt := question_prompt r;
                 view_answers :=
                   [answer_a r; answer_b r; answer_c r; answer_d r];
                 view_correctIndex := correct_index r;
                 view_audioPath := audio_path r |})
    (orderedQuestions d storyId).

Definition getVocabularyEntries (d : Database) : list VocabularyListing :=
  List.map
    (fun r => {| vl_id := vocabulary_id r; vl_term := term r;
                 vl_translation := translation r;
                 vl_example_sentence := example_sentence r;
                 vl_created_at := DATE_FORMAT (vocabulary_created r) |})
    (orderedVocabulary d).

Definition getGrammarTopics (d : Database) : list GrammarListing :=
  List.map
    (fun r => {| gl_id := grammar_id r; gl_title := grammar_title r;
                 gl_explanation := explanation r;
                 gl_created_at := DATE_FORMAT (grammar_created r) |})
    (orderedGrammar d).

(* ================================================================== *)
(** ** The handlers *)
(* ================================================================== *)

Definition STORY_LEVELS : list jsstring :=
  [lit "A1"; lit "A2"; lit "B1"; lit "B2"; lit "C1"; lit "C2"].

(** [list.includes(s)] *)
Definition includes (l : list jsstring) (s : jsstring) : bool :=
  existsb (str_eqb s) l.

Definition MSG_REQUIRED : jsstring :=
  lit "Please fill in all required fields.".

(** The dash between the two levels is U+2013. *)
Definition MSG_LEVEL : jsstring :=
  lit "Please choose a valid level (A1" ++ [8211%N] ++ lit "C2).".

Definition MSG_QUESTION_FIELDS : jsstring :=
  lit "Each question must include a prompt and four answers.".

Definition MSG_QUESTION_CORRECT : jsstring :=
  lit "Select which answer is correct for each question.".

Definition MSG_STORY_UNEXPECTED : jsstring :=
  lit "An unexpected error occurred while saving the story.".

Definition MSG_CHOOSE_STORY : jsstring :=
  lit "Please choose which story this question belongs to.".

Definition MSG_PROMPT : jsstring :=
  lit "Please provide the question prompt.".

Definition MSG_ANSWERS : jsstring :=
  lit "All four answer options are required.".

Definition MSG_CORRECT : jsstring :=
  lit "Select which answer is correct.".

Definition MSG_STORY_MISSING : jsstring :=
  lit "The selected story could not be found.".

Definition MSG_LOGIN_EMPTY : jsstring :=
  lit "Please enter your email and password.".

Definition MSG_LOGIN_WRONG : jsstring :=
  lit "Email or password is incorrect.".

(** [Number.isNaN(n) || n < 0 || n > 3] *)
Definition badCorrectIndex (n : option Z) : bool :=
  match n with
  | None => true
  | Some z => (z <? 0)%Z || (3 <? z)%Z
  end.

(** [!question.prompt || question.answers.some((answer) => !answer)] *)
Definition missingText (q : Question) : bool :=
  negb (truthy (prompt q))
  || existsb (fun answer => negb (truthy answer)) (answers q).

(** The body of the validation loop for one question: the message it
    returns with, if it returns. *)
Definition questionError (q : Question) : option jsstring :=
  if missingText q then Some MSG_QUESTION_FIELDS
  else if badCorrectIndex (correctIndex q) then Some MSG_QUESTION_CORRECT
  else None.

(** The validation loop: the first question that returns decides. *)
Fixpoint firstQuestionError (qs : list Question) : option jsstring :=
  match qs with
  | [] => None
  | q :: r =>
      match questionError q with
      | Some msg => Some msg
      | None => firstQuestionError r
      end
  end.

(** [cleanupFiles(files)] *)
Definition cleanupFiles (files : list File) : list jsstring :=
  List.map filepath files.

(** [path.posix.join("uploads/questions", name)].  The names come from
    the storage configuration (digits, a hyphen, digits, an extension):
    there is no separator or dot segment for the join to normalise. *)
Definition posixJoin (dir name : jsstring) : jsstring :=
  dir ++ lit "/" ++ name.

Definition audioPathOf (f : option File) : option jsstring :=
  match f with
  | Some f => Some (posixJoin (lit "uploads/questions") (filename f))
  | None => None
  end.

(** A value of a field of [req.body] need not be a string: a JSON body
    can hold a number, a boolean, null, an array or an object, and the
    form parser makes an array of a repeated field.  Of a value that is
    no string the handler observes whether it is truthy and the string
    [String(value)] that [Number.parseInt] reads; [String(value)]
    throws for an object without [toString] ([None]).  Such a value has
    no [trim] method. *)
Inductive Value :=
| Text (s : jsstring)
| NotText (isTruthy : bool) (asString : option jsstring).

(** [req.body] in general, as [Object.entries] lists it. *)
Definition Fields := list (jsstring * Value).

(** What multer leaves the handler with: an error, or the parsed fields
    and the stored files. *)
Inductive Upload :=
| UploadFailed (message : jsstring) (files : list File)
| UploadParsed (fields : Fields) (files : list File).

(** The upload of a form all of whose fields are texts. *)
Definition UploadDone (body : Body) (files : list File) : Upload :=
  UploadParsed (List.map (fun e => (fst e, Text (snd e))) body) files.

(** The four fields of [req.body] the handler of [POST /stories] reads
    by name. *)
Definition STORY_FIELDS : list jsstring :=
  [lit "title"; lit "level"; lit "summary"; lit "body"].

(** What the handler of [POST /stories] and [parseStoryQuestions] read
    of one field as a text, in the order of the patterns: where they
    evaluate [(value || "").trim()], a falsy value gives the empty text
    and a truthy value that is no string throws a TypeError ([None]);
    where they evaluate [Number.parseInt(value, 10)], the text is
    [String(value)].  The value of any other field is never read and
    counts as the empty text. *)
Definition readField (name : jsstring) (v : Value) : option jsstring :=
  match v with
  | Text s => Some s
  | NotText isTruthy asString =>
      let trimmed := if isTruthy then None else Some [] in
      if includes STORY_FIELDS name then trimmed
      else
        match promptMatch name with
        | Some _ => trimmed
        | None =>
            match correctMatch name with
            | Some _ => asString
            | None =>
                match answerMatch name with
                | Some (_, j) => if (j <? 4)%N then trimmed else Some []
                | None => Some []
                end
            end
        end
  end.

(** The fields as the handler reads them, [None] when a read throws. *)
Fixpoint readBody (fields : Fields) : option Body :=
  match fields with
  | [] => Some []
  | (name, v) :: r =>
      match readField name v, readBody r with
      | Some s, Some body => Some ((name, s) :: body)
      | _, _ => None
      end
  end.

(** [req.body.answers] of the single-question form. *)
Inductive AnswersField :=
| AnswersArray (l : list jsstring)
| AnswersString (s : jsstring)
| AnswersMissing.

Record QuestionForm := {
  form_storyId : option jsstring;
  form_prompt : option jsstring;
  form_answers : AnswersField;
  form_correctIndex : option jsstring }.

Inductive SingleUpload :=
| SingleFailed (message : jsstring) (f : option File)
| SingleDone (f : option File).

Section Server.

Variable P : Platform.

(** [createStory] and [createQuestion]: one INSERT on the executor;
    [result.insertId] is the AUTO_INCREMENT value of the new row. *)
Definition createStory (executor : Executor)
  (title level summary body : jsstring) (authorId : N) : Tx N :=
  fun d =>
    let row := {| story_id := storySeq d; story_title := title;
                  story_level := level; story_summary := summary;
                  story_body := body; story_author := authorId;
                  story_created := clock d |} in
    if acceptsStory P (rowsSeen executor d) row
    then (Some (storySeq d),
          logOp (OpInsertStory (storySeq d))
            (withStoryCounter (storySeq d + 1)
               (writeRows executor (addStory row (rowsSeen executor d))
                  d)))
    else (None, logOp OpInsertRejected d).

Definition createQuestion (executor : Executor) (storyId : N)
  (prompt : jsstring) (answers : list jsstring)
  (correctIndex : option Z) (audioPath : option jsstring)
  (authorId : N) : Tx N :=
  fun d =>
    let row := {| question_id := questionSeq d;
                  question_story := storyId;
                  question_prompt := prompt;
                  answer_a := nth 0 answers [];
                  answer_b := nth 1 answers [];
                  answer_c := nth 2 answers [];
                  answer_d := nth 3 answers [];
                  correct_index := correctIndex;
                  audio_path := audioPath;
                  question_author := authorId;
                  question_created := clock d |} in
    if acceptsQuestion P (rowsSeen executor d) row
    then (Some (questionSeq d),
          logOp (OpInsertQuestion (questionSeq d))
            (withQuestionCounter (questionSeq d + 1)
               (writeRows executor
                  (addQuestion row (rowsSeen executor d)) d)))
    else (None, logOp OpInsertRejected d).

(** Modelled from the spec: the pool and its connections come from
    [lib/db.js], which is not among the sources.  Section 5 asks of the
    transaction that the rows of one submission become visible
    together or not at all: the rows written on the connection after
    [beginTransaction()] are rows of the tables once [commit()] has
    succeeded, and are dropped by [rollback()].  Each of the four calls
    can throw, and then changes nothing. *)
Definition getConnection : Tx unit :=
  fun d =>
    if connects P d then (Some tt, logOp OpGetConnection d)
    else (None, logOp OpFailed (logOp OpGetConnection d)).

Definition beginTransaction : Tx unit :=
  fun d =>
    if begins P d
    then (Some tt,
          logOp OpBeginTransaction (withUncommitted (Some (tables d)) d))
    else (None, logOp OpFailed (logOp OpBeginTransaction d)).

Definition commit : Tx unit :=
  fun d =>
    if commits P d
    then (Some tt,
          logOp OpCommit
            (withUncommitted None (withTables (rowsSeen Connection d) d)))
    else (None, logOp OpFailed (logOp OpCommit d)).

Definition rollback : Tx unit :=
  fun d =>
    if rollsBack P d
    then (Some tt, logOp OpRollback (withUncommitted None d))
    else (None, logOp OpFailed (logOp OpRollback d)).

(** [connection.release()] *)
Definition release (d : Database) : Database := logOp OpRelease d.

(** The [try] block of [POST /stories]. *)
Definition saveStory (values : StoryValues) (authorId : N) : Tx N :=
  _ <- beginTransaction ;;
  storyId <- createStory Connection (v_title values) (v_level values)
               (v_summary values) (v_body values) authorId ;;
  _ <- forEach (v_questions values)
         (fun question =>
            _ <- createQuestion Connection storyId (prompt question)
                   (answers question) (correctIndex question)
                   (audioPathOf (file question)) authorId ;;
            ret tt) ;;
  _ <- commit ;;
  ret storyId.

(** [values] as [POST /stories] starts with. *)
Definition initialValues : StoryValues :=
  {| v_title := []; v_level := lit "A1"; v_summary := [];
     v_body := []; v_questions := [] |}.

(** [values] after the five assignments from [req.body]. *)
Definition storyValues (body : Body) (files : list File) : StoryValues :=
  {| v_title := trim (orEmpty (field (lit "title") body));
     v_level := toUpperCase P (trim (orEmpty (field (lit "level") body)));
     v_summary := trim (orEmpty (field (lit "summary") body));
     v_body := trim (orEmpty (field (lit "body") body));
     v_questions := parseStoryQuestions body files |}.

(** The message of the first validation that fails, if any. *)
Definition storyError (values : StoryValues) : option jsstring :=
  if negb (truthy (v_title values)) || negb (truthy (v_summary values))
     || negb (truthy (v_body values))
  then Some MSG_REQUIRED
  else if negb (includes STORY_LEVELS (v_level values))
  then Some MSG_LEVEL
  else firstQuestionError (v_questions values).

Definition renderForm (status : N) (errorMessage : jsstring)
  (values : StoryValues) : Reply :=
  Render status (StoriesNewPage (Some errorMessage) values).

(** What the error middleware answers when a handler throws. *)
Definition serverError (s : Session) (d : Database) : Outcome :=
  {| reply := Render 500 Error500Page; database := d; session := s;
     unlinked := [] |}.

(** The handler of [POST /stories] from its validations on, for a body
    whose fields it has read. *)
Definition submitStory (user : User) (s : Session) (body : Body)
  (files : list File) (d : Database) : Outcome :=
  let values := storyValues body files in
  match storyError values with
  | Some message =>
      {| reply := renderForm 400 message values;
         database := d; session := s;
         unlinked := cleanupFiles files |}
  | None =>
      match getConnection d with
      | (None, d0) => serverError s d0
      | (Some _, connection) =>
          match saveStory values (user_id user) connection with
          | (Some storyId, d') =>
              {| reply := Redirect (lit "/story/" ++ ofN storyId);
                 database := release d'; session := s;
                 unlinked := [] |}
          | (None, d') =>
              match rollback d' with
              | (Some _, d'') =>
                  {| reply := renderForm 500 MSG_STORY_UNEXPECTED values;
                     database := release d''; session := s;
                     unlinked := cleanupFiles files |}
              | (None, d'') => serverError s (release d'')
              end
          end
      end
  end.

(** The handler of [POST /stories], for the user of the session.  A
    read of [req.body] that throws, the call of [getConnection] that
    throws (it stands before the [try]) and a [rollback] that throws
    (it stands in the [catch]) leave the answer to the error
    middleware. *)
Definition storiesHandler (user : User) (s : Session) (up : Upload)
  (d : Database) : Outcome :=
  match up with
  | UploadFailed message files =>
      {| reply := renderForm 400 message initialValues;
         database := d; session := s;
         unlinked := cleanupFiles files |}
  | UploadParsed fields files =>
      match readBody fields with
      | None => serverError s d
      | Some body => submitStory user s body files d
      end
  end.

(** The route [POST /stories]: [requireAdmin], then the handler. *)
Definition postStories (s : Session) (originalUrl : jsstring)
  (up : Upload) (d : Database) : Outcome :=
  match requireAdmin s originalUrl with
  | (s', Respond r) =>
      {| reply := r; database := d; session := s'; unlinked := [] |}
  | (s', Next) =>
      match session_user s' with
      | Some user => storiesHandler user s' up d
      | None => serverError s' d
      end
  end.

(** [values] of [POST /questions], read from [req.body] when the
    handler starts. *)
Record SingleValues := {
  sv_storyId : option Z;
  sv_prompt : jsstring;
  sv_answers : list jsstring;
  sv_correctIndex : option Z }.

Definition singleAnswers (a : AnswersField) : list jsstring :=
  let given :=
    match a with
    | AnswersArray l => List.map trim l
    | AnswersString s => [s]
    | AnswersMissing => [[]]
    end in
  if (List.length given <? 4)%nat
  then firstn 4 (given ++ [[]; []; []; []])
  else given.

Definition singleValues (form : QuestionForm) : SingleValues :=
  {| sv_storyId := parseIntOpt (form_storyId form);
     sv_prompt := trim (orEmpty (form_prompt form));
     sv_answers := singleAnswers (form_answers form);
     sv_correctIndex := parseIntOpt (form_correctIndex form) |}.

(** [values.storyId || ""]: NaN and 0 are falsy. *)
Definition orBlankId (n : option Z) : option Z :=
  match n with
  | Some 0%Z => None
  | _ => n
  end.

(** [renderForm] of [POST /questions]. *)
Definition renderQuestionForm (status : N) (error : jsstring)
  (values : SingleValues) (d : Database) : Reply :=
  Render status
    (QuestionsNewPage (Some error) None (getStorySummaries d)
       {| qv_storyId := orBlankId (sv_storyId values);
          qv_prompt := sv_prompt values;
          qv_answers := firstn 4 (firstn 4 (sv_answers values)
                                    ++ [[]; []; []; []]);
          qv_correctIndex := sv_correctIndex values |}).

(** [cleanupUploadedFile()] *)
Definition cleanupUploadedFile (f : option File) : list jsstring :=
  match f with
  | Some f => [filepath f]
  | None => []
  end.

(** [!Number.isInteger(n) || n <= 0] *)
Definition badStoryId (n : option Z) : bool :=
  match n with
  | None => true
  | Some z => negb (isInteger z) || (z <=? 0)%Z
  end.

Definition uploadedFile (up : SingleUpload) : option File :=
  match up with
  | SingleFailed _ f => f
  | SingleDone f => f
  end.

(** The handler of [POST /questions], for the user of the session. *)
Definition questionsHandler (user : User) (s : Session)
  (form : QuestionForm) (up : SingleUpload) (d : Database) : Outcome :=
  let values := singleValues form in
  let reject message :=
    {| reply := renderQuestionForm 400 message values d;
       database := d; session := s;
       unlinked := cleanupUploadedFile (uploadedFile up) |} in
  match up with
  | SingleFailed message _ => reject message
  | SingleDone f =>
      if badStoryId (sv_storyId values) then reject MSG_CHOOSE_STORY
      else if negb (truthy (sv_prompt values)) then reject MSG_PROMPT
      else if existsb (fun answer => negb (truthy answer))
                (sv_answers values)
      then reject MSG_ANSWERS
      else if badCorrectIndex (sv_correctIndex values)
      then reject MSG_CORRECT
      else
        let storyId :=
          match sv_storyId values with
          | Some z => Z.to_N z
          | None => 0%N
          end in
        match getStoryById storyId d with
        | None => reject MSG_STORY_MISSING
        | Some _ =>
            match createQuestion Pool storyId (sv_prompt values)
                    (sv_answers values) (sv_correctIndex values)
                    (audioPathOf f) (user_id user) d with
            | (Some questionId, d') =>
                {| reply :=
                     Redirect (lit "/questions/new?created="
                               ++ ofN questionId);
                   database := d'; session := s; unlinked := [] |}
            | (None, d') => serverError s d'
            end
        end
  end.

(** The route [POST /questions]. *)
Definition postQuestions (s : Session) (originalUrl : jsstring)
  (form : QuestionForm) (up : SingleUpload) (d : Database) : Outcome :=
  match requireAdmin s originalUrl with
  | (s', Respond r) =>
      {| reply := r; database := d; session := s'; unlinked := [] |}
  | (s', Next) =>
      match session_user s' with
      | Some user => questionsHandler user s' form up d
      | None => serverError s' d
      end
  end.

(** [normalizeEmail] *)
Definition normalizeEmail (email : jsstring) : jsstring :=
  toLowerCase P (trim email).

(** [findUserByEmail]: the first row the engine finds equal. *)
Definition findUserByEmail (email : jsstring) (d : Database)
  : option UserRow :=
  find (fun u => emailEq P (u_email u) email) (users (tables d)).

(** [setLoggedInUser] *)
Definition setLoggedInUser (s : Session) (id : N) (email : jsstring)
  : Session :=
  {| session_user :=
       Some {| user_id := id; user_email := normalizeEmail email |};
     session_returnTo := session_returnTo s |}.

(** [req.session.returnTo || "/"] *)
Definition returnPath (s : Session) : jsstring :=
  match session_returnTo s with
  | Some (c :: r) => c :: r
  | _ => lit "/"
  end.

Definition forgetReturnTo (s : Session) : Session :=
  {| session_user := session_user s; session_returnTo := None |}.

(** The route [POST /login]: [email] and [password] are the two fields
    of [req.body], [None] when absent. *)
Definition postLogin (emailField passwordField : option jsstring)
  (s : Session) (d : Database) : Reply * Session :=
  let email := orEmpty emailField in
  let password := orEmpty passwordField in
  let normalizedEmail := normalizeEmail email in
  if negb (truthy normalizedEmail) || negb (truthy password)
  then (Render 400 (LoginPage (Some MSG_LOGIN_EMPTY) email), s)
  else
    match findUserByEmail normalizedEmail d with
    | None => (Render 400 (LoginPage (Some MSG_LOGIN_WRONG) email), s)
    | Some user =>
        if negb (bcryptCompare P password (u_password_hash user))
        then (Render 400 (LoginPage (Some MSG_LOGIN_WRONG) email), s)
        else
          let s' := setLoggedInUser s (u_id user) (u_email user) in
          (Redirect (returnPath s'), forgetReturnTo s')
    end.

End Server.

(** A platform to run the handlers on: ASCII case mapping, a hash that
    is the password itself, exact comparison of emails, and an engine
    that accepts every row and never throws. *)
Definition asciiUpper (s : jsstring) : jsstring :=
  List.map (fun c => if ((97 <=? c) && (c <=? 122))%N then (c - 32)%N
                     else c) s.

Definition asciiLower (s : jsstring) : jsstring :=
  List.map (fun c => if ((65 <=? c) && (c <=? 90))%N then (c + 32)%N
                     else c) s.

Definition plainPlatform : Platform :=
  {| toUpperCase := asciiUpper;
     toLowerCase := asciiLower;
     bcryptCompare := str_eqb;
     emailEq := str_eqb;
     acceptsStory := fun _ _ => true;
     acceptsQuestion := fun _ _ => true;
     connects := fun _ => true;
     begins := fun _ => true;
     commits := fun _ => true;
     rollsBack := fun _ => true |}.

(** The same platform with an engine that takes stories and refuses
    every question row. *)
Definition refusingPlatform : Platform :=
  {| toUpperCase := asciiUpper;
     toLowerCase := asciiLower;
     bcryptCompare := str_eqb;
     emailEq := str_eqb;
     acceptsStory := fun _ _ => true;
     acceptsQuestion := fun _ _ => false;
     connects := fun _ => true;
     begins := fun _ => true;
     commits := fun _ => true;
     rollsBack := fun _ => true |}.

(* ================================================================== *)
(** ** Vocabulary of the properties *)
(* ================================================================== *)

(** The place a form field writes to, as the patterns of
    [parseStoryQuestions] read its name. *)
Inductive Slot :=
| PromptOf (i : N)
| CorrectOf (i : N)
| AnswerOf (i j : N).

Definition bodySlot (name : jsstring) : option Slot :=
  match promptMatch name with
  | Some i => Some (PromptOf i)
  | None =>
      match correctMatch name with
      | Some i => Some (CorrectOf i)
      | None =>
          match answerMatch name with
          | Some (i, j) => Some (AnswerOf i j)
          | None => None
          end
      end
  end.

Definition slotIndex (s : Slot) : N :=
  match s with
  | PromptOf i => i
  | CorrectOf i => i
  | AnswerOf i _ => i
  end.

Definition moveSlot (f : N -> N) (s : Slot) : Slot :=
  match s with
  | PromptOf i => PromptOf (f i)
  | CorrectOf i => CorrectOf (f i)
  | AnswerOf i j => AnswerOf (f i) j
  end.

(** The slots the fields of a body write to, and the question indices
    the files attach to, in order. *)
Definition bodySlots (body : Body) : list Slot :=
  flat_map (fun e => match bodySlot (fst e) with
                     | Some s => [s]
                     | None => []
                     end) body.

Definition fileSlots (files : list File) : list N :=
  flat_map (fun f => match audioMatch (fieldname f) with
                     | Some i => [i]
                     | None => []
                     end) files.

(** The same field with its question index moved by [f]. *)
Definition reindexedEntry (f : N -> N) (e e' : jsstring * jsstring)
  : Prop :=
  snd e' = snd e
  /\ bodySlot (fst e') = option_map (moveSlot f) (bodySlot (fst e)).

Definition reindexedFile (f : N -> N) (x x' : File) : Prop :=
  filename x' = filename x
  /\ audioMatch (fieldname x') = option_map f (audioMatch (fieldname x)).

Definition increasing (f : N -> N) : Prop :=
  forall i j, (i < j)%N -> (f i < f j)%N.

(** What the handlers read of a question. *)
Definition content (q : Question)
  : jsstring * list jsstring * option Z * option jsstring :=
  (prompt q, answers q, correctIndex q, option_map filename (file q)).

(** A row of the form left blank: no prompt and no answer. *)
Definition blank (q : Question) : Prop :=
  prompt q = [] /\ Forall (fun a => a = []) (answers q).

(** A question that validation refuses, in the words of the
    specification. *)
Definition outOfRange (n : option Z) : Prop :=
  match n with
  | None => True
  | Some z => (z < 0 \/ 3 < z)%Z
  end.

Definition questionInvalid (q : Question) : Prop :=
  prompt q = [] \/ In [] (answers q) \/ outOfRange (correctIndex q).

Definition storyFieldsInvalid (v : StoryValues) : Prop :=
  v_title v = [] \/ v_summary v = [] \/ v_body v = []
  \/ ~ In (v_level v) STORY_LEVELS.

(** Newest first: creation time descending, ties by descending id. *)
Definition newestFirst {A : Type} (created id : A -> N) (l : list A)
  : Prop :=
  StronglySorted
    (fun x y => (created y < created x
                 \/ (created x = created y /\ id y <= id x))%N) l.

Definition oldestIdFirst {A : Type} (id : A -> N) (l : list A) : Prop :=
  StronglySorted (fun x y => (id x <= id y)%N) l.

(** Ids were handed out in the order of creation. *)
Definition chronological {A : Type} (created id : A -> N) (l : list A)
  : Prop :=
  forall x y, In x l -> In y l ->
    (id x <= id y)%N -> (created x <= created y)%N.

(** The engine takes every row, and no call on the pool or on the
    connection throws before the transaction is committed. *)
Definition acceptsAll (P : Platform) : Prop :=
  (forall t r, acceptsStory P t r = true)
  /\ (forall t r, acceptsQuestion P t r = true)
  /\ (forall d, connects P d = true)
  /\ (forall d, begins P d = true)
  /\ (forall d, commits P d = true).

(** The page of a reply and its parts. *)
Definition formError (r : Reply) : option jsstring :=
  match r with
  | Render _ (StoriesNewPage e _) => e
  | Render _ (QuestionsNewPage e _ _ _) => e
  | Render _ (LoginPage e _) => e
  | _ => None
  end.

Definition formValues (r : Reply) : option StoryValues :=
  match r with
  | Render _ (StoriesNewPage _ v) => Some v
  | _ => None
  end.

(** The operations a request added to the trace. *)
Definition newOps (before after : Database) : list DbOp :=
  skipn (List.length (trace before)) (trace after).

(** The row [createQuestion] writes for a question of a story. *)
Definition questionRow (storyId authorId created : N) (id : N)
  (q : Question) : QuestionRow :=
  {| question_id := id;
     question_story := storyId;
     question_prompt := prompt q;
     answer_a := nth 0 (answers q) [];
     answer_b := nth 1 (answers q) [];
     answer_c := nth 2 (answers q) [];
     answer_d := nth 3 (answers q) [];
     correct_index := correctIndex q;
     audio_path := audioPathOf (file q);
     question_author := authorId;
     question_created := created |}.

(** The rows of the questions of one story, with consecutive ids. *)
Fixpoint questionRows (storyId authorId created : N) (id : N)
  (qs : list Question) : list QuestionRow :=
  match qs with
  | [] => []
  | q :: r =>
      questionRow storyId authorId created id q
      :: questionRows storyId authorId created (nextId id) r
  end.

(** A statement that only adds to the trace, and throws exactly when
    it records a rejected insert or a call that failed. *)
Definition traced {X : Type} (m : Tx X) : Prop :=
  forall d, exists ops,
    trace (snd (m d)) = trace d ++ ops
    /\ (fst (m d) = None
        <-> In OpInsertRejected ops \/ In OpFailed ops).

(** The tables other than [questions] are the same. *)
Definition sameOtherTables (t t' : Tables) : Prop :=
  users t' = users t /\ stories t' = stories t
  /\ vocabulary_entries t' = vocabulary_entries t
  /\ grammar_topics t' = grammar_topics t.

(** The row [createStory] writes for the values of the form. *)
Definition storyRow (id authorId created : N) (v : StoryValues)
  : StoryRow :=
  {| story_id := id; story_title := v_title v;
     story_level := v_level v; story_summary := v_summary v;
     story_body := v_body v; story_author := authorId;
     story_created := created |}.

(** What a field writes into the question of its index. *)
Definition slotWrite (s : Slot) (value : jsstring)
  : Question -> Question :=
  match s with
  | PromptOf _ => setPrompt (trim value)
  | CorrectOf _ => setCorrectIndex (parseInt value)
  | AnswerOf _ j =>
      if (j <? 4)%N then setAnswer j (trim value) else fun q => q
  end.

(** Two maps with the same question under every index. *)
Definition sameEntries (m m' : QuestionMap) : Prop :=
  forall k, get k m = get k m'.

(** The question under an index, a new one when there is none. *)
Definition getOrNew (i : N) (m : QuestionMap) : Question :=
  match get i m with
  | Some q => q
  | None => newQuestion
  end.

(** An entry of the map and its image when the indices move by [f]:
    the key moved, the content the same. *)
Definition similar (f : N -> N) (e e' : N * Question) : Prop :=
  fst e' = f (fst e) /\ content (snd e') = content (snd e).

(* ================================================================== *)
(** ** The reader's page, signup and the learning editors *)
(* ================================================================== *)

(** Modelled from the spec: [lib/db.js] and the engine behind it are
    not among the sources.  For the three tables the authoring
    handlers do not write, the engine decides the AUTO_INCREMENT value
    of a new row and whether it takes the row (the unique key on the
    email, column sizes and foreign keys can reject it). *)
Record Engine := {
  userInsertId : Tables -> N;
  acceptsUser : Tables -> UserRow -> bool;
  vocabularyInsertId : Tables -> N;
  acceptsVocabulary : Tables -> VocabularyRow -> bool;
  grammarInsertId : Tables -> N;
  acceptsGrammar : Tables -> GrammarRow -> bool }.

Definition addUser (r : UserRow) (t : Tables) : Tables :=
  {| users := users t ++ [r]; stories := stories t;
     questions := questions t;
     vocabulary_entries := vocabulary_entries t;
     grammar_topics := grammar_topics t |}.

Definition addVocabulary (r : VocabularyRow) (t : Tables) : Tables :=
  {| users := users t; stories := stories t;
     questions := questions t;
     vocabulary_entries := vocabulary_entries t ++ [r];
     grammar_topics := grammar_topics t |}.

Definition addGrammar (r : GrammarRow) (t : Tables) : Tables :=
  {| users := users t; stories := stories t;
     questions := questions t;
     vocabulary_entries := vocabulary_entries t;
     grammar_topics := grammar_topics t ++ [r] |}.

(** [getStoryById(storyId)] for the number [Number.parseInt] made of
    the path parameter.  The ids are unsigned: no row has a negative
    one. *)
Definition getStoryByNumber (z : Z) (d : Database) : option StoryRow :=
  if (z <? 0)%Z then None else getStoryById (Z.to_N z) d.

(** [ORDER BY id DESC] *)
Definition descending {A : Type} (id : A -> N) (x y : A) : bool :=
  (id y <=? id x)%N.

(** [rows[0] || null] *)
Definition firstRow {A : Type} (rows : list A) : option A :=
  match rows with
  | [] => None
  | r :: _ => Some r
  end.

(** [getAdjacentStories(id)]: the two queries, each with LIMIT 1. *)
Definition prevRows (z : Z) (d : Database) : list StoryRow :=
  sortBy (descending story_id)
    (filter (fun r => (Z.of_N (story_id r) <? z)%Z) (stories (tables d))).

Definition nextRows (z : Z) (d : Database) : list StoryRow :=
  sortBy (ascending story_id)
    (filter (fun r => (z <? Z.of_N (story_id r))%Z) (stories (tables d))).

Definition getAdjacentStories (z : Z) (d : Database)
  : option (N * jsstring) * option (N * jsstring) :=
  (option_map (fun r => (story_id r, story_title r))
     (firstRow (prevRows z d)),
   option_map (fun r => (story_id r, story_title r))
     (firstRow (nextRows z d))).

(** The answers of [GET /story/:id]: the story page, the 404 page, or
    what [requireAuth] answered. *)
Inductive StoryReply :=
| StoryShown (story : StoryRow) (prevStory nextStory : option (N * jsstring))
    (questions : list QuestionView)
| StoryNotFound
| StoryRefused (r : Reply).

(** The route [GET /story/:id]; [idParam] is [req.params.id]. *)
Definition getStory (s : Session) (originalUrl idParam : jsstring)
  (d : Database) : Session * StoryReply :=
  match requireAuth s originalUrl with
  | (s', Respond r) => (s', StoryRefused r)
  | (s', Next) =>
      match parseInt idParam with
      | None => (s', StoryNotFound)
      | Some storyId =>
          match getStoryByNumber storyId d with
          | None => (s', StoryNotFound)
          | Some story =>
              let (prevStory, nextStory) := getAdjacentStories storyId d in
              (s', StoryShown story prevStory nextStory
                     (getQuestionsForStory d (Z.to_N storyId)))
          end
      end
  end.

Definition MSG_SIGNUP_FIELDS : jsstring := lit "Please fill in all fields.".

Definition MSG_SIGNUP_MATCH : jsstring := lit "Passwords do not match.".

Definition MSG_SIGNUP_SHORT : jsstring :=
  lit "Password must be at least 8 characters.".

Definition MSG_SIGNUP_EXISTS : jsstring :=
  lit "An account already exists for that email.".

(** The answers of [POST /signup]: the form again with status 400, the
    redirect, or the 500 page when the insert throws. *)
Inductive SignupReply :=
| SignupForm (error : jsstring) (email : jsstring)
| SignupDone (location : jsstring)
| SignupFailed.

Record SignupOutcome := {
  signup_reply : SignupReply;
  signup_session : Session;
  signup_database : Database }.

(** The route [POST /signup].  [passwordHash] is what
    [bcrypt.hash(password, 12)] returns for this request. *)
Definition postSignup (P : Platform) (E : Engine)
  (emailField passwordField confirmField : option jsstring)
  (passwordHash : jsstring) (s : Session) (d : Database)
  : SignupOutcome :=
  let email := orEmpty emailField in
  let password := orEmpty passwordField in
  let confirmPassword := orEmpty confirmField in
  let normalizedEmail := normalizeEmail P email in
  let refuse message :=
    {| signup_reply := SignupForm message email;
       signup_session := s; signup_database := d |} in
  if negb (truthy normalizedEmail) || negb (truthy password)
     || negb (truthy confirmPassword)
  then refuse MSG_SIGNUP_FIELDS
  else if negb (str_eqb password confirmPassword)
  then refuse MSG_SIGNUP_MATCH
  else if (List.length password <? 8)%nat
  then refuse MSG_SIGNUP_SHORT
  else
    match findUserByEmail P normalizedEmail d with
    | Some _ => refuse MSG_SIGNUP_EXISTS
    | None =>
        let row := {| u_id := userInsertId E (tables d);
                      u_email := normalizedEmail;
                      u_password_hash := passwordHash |} in
        if acceptsUser E (tables d) row
        then
          let s' := setLoggedInUser P s (u_id row) normalizedEmail in
          {| signup_reply := SignupDone (returnPath s');
             signup_session := forgetReturnTo s';
             signup_database := withTables (addUser row (tables d)) d |}
        else
          {| signup_reply := SignupFailed;
             signup_session := s; signup_database := d |}
    end.

Definition MSG_VOCABULARY : jsstring :=
  lit "Please provide both the German term and its translation.".

Definition MSG_VOCABULARY_SAVED : jsstring :=
  lit "Vocabulary entry saved successfully.".

Definition MSG_GRAMMAR : jsstring :=
  lit "Please provide a title and explanation for the grammar topic.".

Definition MSG_GRAMMAR_SAVED : jsstring :=
  lit "Grammar topic saved successfully.".

(** [value || null] *)
Definition orNull (v : jsstring) : option jsstring :=
  match v with
  | [] => None
  | _ :: _ => Some v
  end.

(** The answers of the two learning editors: the form (status, error,
    success, the values of its fields in order), what [requireAdmin]
    answered, or the 500 page when the insert throws. *)
Inductive EditorReply :=
| EditorForm (status : N) (error success : option jsstring)
    (values : list jsstring)
| EditorRefused (r : Reply)
| EditorFailed.

Record EditorOutcome := {
  editor_reply : EditorReply;
  editor_session : Session;
  editor_database : Database }.

(** The route [POST /learning/vocabulary]; the three arguments are the
    fields [term], [translation] and [exampleSentence] of [req.body]. *)
Definition postVocabulary (E : Engine) (s : Session)
  (originalUrl : jsstring)
  (termField translationField exampleField : option jsstring)
  (d : Database) : EditorOutcome :=
  match requireAdmin s originalUrl with
  | (s', Respond r) =>
      {| editor_reply := EditorRefused r; editor_session := s';
         editor_database := d |}
  | (s', Next) =>
      let vterm := trim (orEmpty termField) in
      let vtranslation := trim (orEmpty translationField) in
      let vexample := trim (orEmpty exampleField) in
      if negb (truthy vterm) || negb (truthy vtranslation)
      then
        {| editor_reply :=
             EditorForm 400 (Some MSG_VOCABULARY) None
               [vterm; vtranslation; vexample];
           editor_session := s'; editor_database := d |}
      else
        match session_user s' with
        | None =>
            {| editor_reply := EditorFailed; editor_session := s';
               editor_database := d |}
        | Some user =>
            let row := {| vocabulary_id := vocabularyInsertId E (tables d);
                          term := vterm; translation := vtranslation;
                          example_sentence := orNull vexample;
                          vocabulary_author := user_id user;
                          vocabulary_created := clock d |} in
            if acceptsVocabulary E (tables d) row
            then
              {| editor_reply :=
                   EditorForm 200 None (Some MSG_VOCABULARY_SAVED)
                     [[]; []; []];
                 editor_session := s';
                 editor_database :=
                   withTables (addVocabulary row (tables d)) d |}
            else
              {| editor_reply := EditorFailed; editor_session := s';
                 editor_database := d |}
        end
  end.

(** The route [POST /learning/grammar]; the two arguments are the
    fields [title] and [explanation] of [req.body]. *)
Definition postGrammar (E : Engine) (s : Session)
  (originalUrl : jsstring) (titleField explanationField : option jsstring)
  (d : Database) : EditorOutcome :=
  match requireAdmin s originalUrl with
  | (s', Respond r) =>
      {| editor_reply := EditorRefused r; editor_session := s';
         editor_database := d |}
  | (s', Next) =>
      let vtitle := trim (orEmpty titleField) in
      let vexplanation := trim (orEmpty explanationField) in
      if negb (truthy vtitle) || negb (truthy vexplanation)
      then
        {| editor_reply :=
             EditorForm 400 (Some MSG_GRAMMAR) None [vtitle; vexplanation];
           editor_session := s'; editor_database := d |}
      else
        match session_user s' with
        | None =>
            {| editor_reply := EditorFailed; editor_session := s';
               editor_database := d |}
        | Some user =>
            let row := {| grammar_id := grammarInsertId E (tables d);
                          grammar_title := vtitle;
                          explanation := vexplanation;
                          grammar_author := user_id user;
                          grammar_created := clock d |} in
            if acceptsGrammar E (tables d) row
            then
              {| editor_reply :=
                   EditorForm 200 None (Some MSG_GRAMMAR_SAVED) [[]; []];
                 editor_session := s';
                 editor_database :=
                   withTables (addGrammar row (tables d)) d |}
            else
              {| editor_reply := EditorFailed; editor_session := s';
                 editor_database := d |}
        end
  end.

(** A question as the form means it: four answers, and the prompt and
    the answers without white space around them. *)
Definition shaped (q : Question) : Prop :=
  List.length (answers q) = 4%nat
  /\ trim (prompt q) = prompt q
  /\ Forall (fun a => trim a = a) (answers q).

(** The question shows what a field wrote into its slot. *)
Definition slotShows (s : Slot) (value : jsstring) (q : Question) : Prop :=
  match s with
  | PromptOf _ => prompt q = trim value
  | CorrectOf _ => correctIndex q = parseInt value
  | AnswerOf _ j =>
      (j < 4)%N -> nth (N.to_nat j) (answers q) [] = trim value
  end.

(** The field name of a recording for the question of index [i]:
    [questions[], decimal digits whose Number value is [i], and
    [][audio]]. *)
Definition recordingOf (i : N) (name : jsstring) : Prop :=
  exists ds,
    name = lit "questions[" ++ ds ++ lit "][audio]"
    /\ ds <> [] /\ forallb isDigit ds = true
    /\ toNumber (digitsValue ds) = i.

(** The file of a question of index [i] is the last of the uploaded
    files that name [i]; there is none only when no file names [i]. *)
Definition fileFrom (files : list File) (i : N) (q : Question) : Prop :=
  match file q with
  | Some f =>
      exists before after,
        files = before ++ f :: after
        /\ audioMatch (fieldname f) = Some i
        /\ forall g, In g after -> audioMatch (fieldname g) <> Some i
  | None => forall f, In f files -> audioMatch (fieldname f) <> Some i
  end.

(** [req.files] after the upload, whichever way it ended. *)
Definition uploadedFiles (up : Upload) : list File :=
  match up with
  | UploadFailed _ files => files
  | UploadParsed _ files => files
  end.

(** The inserts of [n] questions in a row, the first with id [id]. *)
Fixpoint insertOps (id : N) (n : nat) : list DbOp :=
  match n with
  | O => []
  | S n' => OpInsertQuestion id :: insertOps (nextId id) n'
  end.

(** What the reader's page shows of a question. *)
Definition viewContent (v : QuestionView)
  : jsstring * list jsstring * option Z * option jsstring :=
  (view_prompt v, view_answers v, view_correctIndex v, view_audioPath v).

(** What [POST /stories] stores of a parsed question. *)
Definition storedContent (q : Question)
  : jsstring * list jsstring * option Z * option jsstring :=
  (prompt q, answers q, correctIndex q, audioPathOf (file q)).

(** The loop of [POST /stories] over the questions of the form. *)
Definition insertQuestions (P : Platform) (storyId authorId : N)
  (qs : list Question) : Tx unit :=
  forEach qs
    (fun question =>
       _ <- createQuestion P Connection storyId (prompt question)
              (answers question) (correctIndex question)
              (audioPathOf (file question)) authorId ;;
       ret tt).

(** What a [try] block that reached its end asked of the connection,
    for a story with [count] questions. *)
Definition committedTry (storyId questionId : N) (count : nat)
  : list DbOp :=
  [OpBeginTransaction; OpInsertStory storyId]
  ++ insertOps questionId count ++ [OpCommit].

(** What a [try] block that threw asked of the connection: the
    transaction did not begin, or the insert of the story was rejected,
    or the insert of one of the questions was, or the commit failed. *)
Definition failedTry (storyId questionId : N) (count : nat)
  (ops : list DbOp) : Prop :=
  ops = [OpBeginTransaction; OpFailed]
  \/ ops = [OpBeginTransaction; OpInsertRejected]
  \/ (exists n, (n < count)%nat
                /\ ops = [OpBeginTransaction; OpInsertStory storyId]
                         ++ insertOps questionId n ++ [OpInsertRejected])
  \/ ops = [OpBeginTransaction; OpInsertStory storyId]
           ++ insertOps questionId count ++ [OpCommit; OpFailed].

(** What [POST /questions] asks of a form before it saves it: the story
    id parses to a positive integer that is the id of a story, the
    prompt is not blank, the answers are an array of at least four
    texts none of which is blank, and the correct index parses to
    0..3. *)
Definition saveable (form : QuestionForm) (d : Database) (z : Z)
  (story : StoryRow) (l : list jsstring) : Prop :=
  parseIntOpt (form_storyId form) = Some z
  /\ (0 < z)%Z /\ isInteger z = true
  /\ getStoryById (Z.to_N z) d = Some story
  /\ trim (orEmpty (form_prompt form)) <> []
  /\ form_answers form = AnswersArray l
  /\ (4 <= List.length l)%nat
  /\ Forall (fun a => trim a <> []) l
  /\ ~ outOfRange (parseIntOpt (form_correctIndex form)).

(** The row [POST /questions] writes for such a form. *)
Definition singleRow (form : QuestionForm) (f : option File)
  (user : User) (d : Database) (z : Z) (l : list jsstring)
  : QuestionRow :=
  {| question_id := questionSeq d;
     question_story := Z.to_N z;
     question_prompt := trim (orEmpty (form_prompt form));
     answer_a := trim (nth 0 l []);
     answer_b := trim (nth 1 l []);
     answer_c := trim (nth 2 l []);
     answer_d := trim (nth 3 l []);
     correct_index := parseIntOpt (form_correctIndex form);
     audio_path := audioPathOf f;
     question_author := user_id user;
     question_created := clock d |}.

(* ================================================================== *)
(** ** Sample data *)
(* ================================================================== *)

Definition noTables : Tables :=
  {| users := []; stories := []; questions := [];
     vocabulary_entries := []; grammar_topics := [] |}.

Definition emptyDb : Database :=
  {| tables := noTables; uncommitted := None;
     storyCounter := 7; questionCounter := 3;
     clock := 100; trace := [] |}.

Definition anonymous : Session :=
  {| session_user := None; session_returnTo := None |}.

Definition adminSession : Session :=
  {| session_user := Some {| user_id := 1; user_email := ADMIN_EMAIL |};
     session_returnTo := None |}.

Definition readerSession : Session :=
  {| session_user :=
       Some {| user_id := 2; user_email := lit "reader@example.org" |};
     session_returnTo := Some (lit "/story/4") |}.

Definition sampleStory (id created : N) : StoryRow :=
  {| story_id := id; story_title := lit "Der Mond";
     story_level := lit "A1"; story_summary := lit "S";
     story_body := lit "B"; story_author := 1;
     story_created := created |}.

Definition sampleQuestion (id created : N) : QuestionRow :=
  {| question_id := id; question_story := 1;
     question_prompt := lit "Farbe?";
     answer_a := lit "Rot"; answer_b := lit "Blau";
     answer_c := lit "Gruen"; answer_d := lit "Gelb";
     correct_index := Some 2%Z; audio_path := None;
     question_author := 1; question_created := created |}.

(** One story with two questions, the second written ten seconds
    after the first, and a registered reader. *)
Definition quizDb : Database :=
  {| tables :=
       {| users := [ {| u_id := 2; u_email := lit "reader@example.org";
                        u_password_hash := lit "geheim123" |} ];
          stories := [sampleStory 1 5; sampleStory 2 90000];
          questions := [sampleQuestion 1 10; sampleQuestion 2 20];
          vocabulary_entries := []; grammar_topics := [] |};
     uncommitted := None; storyCounter := 3; questionCounter := 3;
     clock := 100000; trace := [] |}.

(** The submission of the specification's example: a story with one
    question, the level typed in lower case. *)
Definition mondFields : Body :=
  [ (lit "title", lit "Der Mond"); (lit "level", lit "a1");
    (lit "summary", lit "S"); (lit "body", lit "B") ].

Definition mondQuestion (correct : jsstring) : Body :=
  [ (lit "questions[0][prompt]", lit "Farbe?");
    (lit "questions[0][answers][0]", lit "Rot");
    (lit "questions[0][answers][1]", lit "Blau");
    (lit "questions[0][answers][2]", lit "Gr" ++ [252%N] ++ lit "n");
    (lit "questions[0][answers][3]", lit "Gelb");
    (lit "questions[0][correctIndex]", correct) ].

Definition mondBody : Body := mondFields ++ mondQuestion (lit "2").

Definition mondBody5 : Body := mondFields ++ mondQuestion (lit "5").

(** The same story with the choice of the correct answer left out. *)
Definition mondBodyNoChoice : Body :=
  mondFields ++ removelast (mondQuestion (lit "2")).

(** A title with spaces around it and nothing else. *)
Definition titleOnlyBody : Body := [ (lit "title", lit " Der Mond ") ].

Definition adminUser : User :=
  {| user_id := 1; user_email := ADMIN_EMAIL |}.

(** Prompts for the questions 2, 0 and 5, in that order. *)
Definition scatteredBody : Body :=
  [ (lit "questions[2][prompt]", lit "zwei");
    (lit "questions[0][prompt]", lit "null");
    (lit "questions[5][prompt]", lit "fuenf") ].

(** The same prompts without gaps: questions 1, 0 and 2. *)
Definition denseBody : Body :=
  [ (lit "questions[1][prompt]", lit "zwei");
    (lit "questions[0][prompt]", lit "null");
    (lit "questions[2][prompt]", lit "fuenf") ].

(** An increasing map that sends 0, 1, 2 to 0, 2, 5. *)
Definition spread (i : N) : N :=
  if (i <? 1)%N then i else if (i <? 2)%N then (i + 1)%N else (i + 3)%N.

(** Two names for the prompt of question 1. *)
Definition aliasBody : Body :=
  [ (lit "questions[1][prompt]", lit "A");
    (lit "questions[01][prompt]", lit "B") ].

(** A row of the form left empty, with spaces typed into it. *)
Definition blankRowBody : Body :=
  [ (lit "questions[3][prompt]", lit "   ");
    (lit "questions[3][answers][0]", lit " ");
    (lit "questions[3][answers][1]", []);
    (lit "questions[3][correctIndex]", lit "9") ].

(** Two stories of the same day whose ids are not in the order of
    their creation: story 1 was written after story 2. *)
Definition sameDayDb : Database :=
  {| tables :=
       {| users := [];
          stories := [sampleStory 1 50000; sampleStory 2 100];
          questions := [];
          vocabulary_entries := []; grammar_topics := [] |};
     uncommitted := None; storyCounter := 3; questionCounter := 1;
     clock := 60000; trace := [] |}.

Definition sampleFile (field name : string) : File :=
  {| fieldname := lit field; filename := lit name;
     filepath := lit "public/uploads/questions/" ++ lit name |}.

(** Two recordings for question 0 and one under a name no pattern
    matches. *)
Definition sampleFiles : list File :=
  [ sampleFile "questions[0][audio]" "1-11.mp3";
    sampleFile "cover" "1-12.mp3";
    sampleFile "questions[0][audio]" "1-13.mp3" ].

(** An engine for the other tables that numbers the rows by the size
    of the table and takes every row. *)
Definition plainEngine : Engine :=
  {| userInsertId := fun t => (N.of_nat (List.length (users t)) + 1)%N;
     acceptsUser := fun _ _ => true;
     vocabularyInsertId :=
       fun t => (N.of_nat (List.length (vocabulary_entries t)) + 1)%N;
     acceptsVocabulary := fun _ _ => true;
     grammarInsertId :=
       fun t => (N.of_nat (List.length (grammar_topics t)) + 1)%N;
     acceptsGrammar := fun _ _ => true |}.

(** The form of [POST /questions] for a question of story 1. *)
Definition farbeForm (answers : AnswersField) : QuestionForm :=
  {| form_storyId := Some (lit "1");
     form_prompt := Some (lit " Farbe? ");
     form_answers := answers;
     form_correctIndex := Some (lit "2") |}.

Definition fourAnswers : AnswersField :=
  AnswersArray [lit "Rot"; lit " Blau"; lit "Gelb "; lit "Weiss"].

(** The question of [mondBody] as it is parsed. *)
Definition farbeQuestion : Question :=
  {| prompt := lit "Farbe?";
     answers := [lit "Rot"; lit "Blau"; lit "Gr" ++ [252%N] ++ lit "n";
                 lit "Gelb"];
     correctIndex := Some 2%Z; file := None |}.

(** The story of the example with a second question, for which no
    correct answer is chosen. *)
Definition twoQuestionBody : Body :=
  mondBody
  ++ [ (lit "questions[1][prompt]", lit "Form?");
       (lit "questions[1][answers][0]", lit "Rund");
       (lit "questions[1][answers][1]", lit "Eckig");
       (lit "questions[1][answers][2]", lit "Flach");
       (lit "questions[1][answers][3]", lit "Spitz") ].

(** Two prompts whose indices differ as integers and are the same
    number: 2^53 and 2^53 + 1. *)
Definition roundedBody : Body :=
  [ (lit "questions[9007199254740992][prompt]", lit "A");
    (lit "questions[9007199254740993][prompt]", lit "B") ].

(* ================================================================== *)
(** * Properties *)
(* ================================================================== *)

(** ** Strings *)

Lemma str_eqb_eq (a b : jsstring) : str_eqb a b = true <-> a = b.
Proof.
  revert b; induction a as [|x a IH]; intros [|y b]; simpl;
    try (split; [discriminate | congruence]); try tauto.
  rewrite andb_true_iff, N.eqb_eq, IH. split.
  - intros [-> ->]; reflexivity.
  - intros H; inversion H; auto.
Qed.

Lemma str_eqb_refl (a : jsstring) : str_eqb a a = true.
Proof. apply str_eqb_eq; reflexivity. Qed.

Lemma truthy_false (s : jsstring) : truthy s = false <-> s = [].
Proof. destruct s; simpl; split; congruence. Qed.

Lemma truthy_true (s : jsstring) : truthy s = true <-> s <> [].
Proof. destruct s; simpl; split; congruence. Qed.

Lemma includes_In (l : list jsstring) (s : jsstring) :
  includes l s = true <-> In s l.
Proof.
  unfold includes. rewrite existsb_exists. split.
  - intros [x [Hin Heq]]. apply str_eqb_eq in Heq. subst; assumption.
  - intros Hin. exists s. split; [assumption | apply str_eqb_refl].
Qed.

Lemma some_empty_In (l : list jsstring) :
  existsb (fun a => negb (truthy a)) l = true <-> In [] l.
Proof.
  rewrite existsb_exists. split.
  - intros [x [Hin Hx]]. apply negb_true_iff, truthy_false in Hx.
    subst; assumption.
  - intros Hin. exists []. split; [assumption | reflexivity].
Qed.

Lemma badCorrectIndex_outOfRange (n : option Z) :
  badCorrectIndex n = true <-> outOfRange n.
Proof.
  destruct n as [z|]; simpl; [|tauto].
  rewrite orb_true_iff, !Z.ltb_lt. tauto.
Qed.

(** ** Sorting *)

Section SortFacts.

Context {A : Type} (leb : A -> A -> bool).

Hypothesis leb_total : forall x y, leb x y = false -> leb y x = true.
Hypothesis leb_trans :
  forall x y z, leb x y = true -> leb y z = true -> leb x z = true.

Lemma insertSorted_perm (x : A) (l : list A) :
  Permutation (insertSorted leb x l) (x :: l).
Proof.
  induction l as [|y r IH]; simpl; [reflexivity|].
  destruct (leb x y); [reflexivity|].
  rewrite IH. apply perm_swap.
Qed.

Lemma sortBy_perm (l : list A) : Permutation (sortBy leb l) l.
Proof.
  induction l as [|x r IH]; simpl; [reflexivity|].
  rewrite insertSorted_perm. apply perm_skip, IH.
Qed.

Lemma insertSorted_sorted (x : A) (l : list A) :
  StronglySorted (fun a b => leb a b = true) l ->
  StronglySorted (fun a b => leb a b = true) (insertSorted leb x l).
Proof.
  induction 1 as [|y r Hs IH Hall]; simpl.
  - constructor; constructor.
  - destruct (leb x y) eqn:E.
    + constructor; [constructor; assumption|].
      constructor; [assumption|].
      eapply Forall_impl; [|exact Hall].
      intros z Hz. eapply leb_trans; eassumption.
    + constructor; [assumption|].
      apply (Permutation_Forall (Permutation_sym (insertSorted_perm x r))).
      constructor; [apply leb_total; assumption | assumption].
Qed.

Lemma sortBy_sorted (l : list A) :
  StronglySorted (fun a b => leb a b = true) (sortBy leb l).
Proof.
  induction l as [|x r IH]; simpl; [constructor|].
  apply insertSorted_sorted, IH.
Qed.

End SortFacts.

Lemma StronglySorted_weaken {A : Type} (R R' : A -> A -> Prop)
  (l : list A) :
  (forall x y, In x l -> In y l -> R x y -> R' x y) ->
  StronglySorted R l -> StronglySorted R' l.
Proof.
  intros Himp Hs. induction Hs as [|x r Hs IH Hall]; constructor.
  - apply IH. intros a b Ha Hb. apply Himp; right; assumption.
  - rewrite Forall_forall in *. intros y Hy.
    apply Himp; [left; reflexivity | right; assumption | auto].
Qed.

Lemma descDesc_total {A : Type} (key id : A -> N) (x y : A) :
  descDesc key id x y = false -> descDesc key id y x = true.
Proof.
  unfold descDesc. intros H.
  apply orb_false_iff in H. destruct H as [H1 H2].
  apply N.ltb_ge in H1.
  destruct (N.ltb_spec (key x) (key y)) as [Hlt|Hge]; [reflexivity|].
  assert (Heq : key x = key y) by lia.
  rewrite Heq, N.eqb_refl in H2. simpl in H2.
  apply N.leb_gt in H2.
  rewrite Heq, N.eqb_refl. simpl.
  apply N.leb_le. lia.
Qed.

Lemma descDesc_spec {A : Type} (key id : A -> N) (x y : A) :
  descDesc key id x y = true <->
  (key y < key x \/ (key x = key y /\ id y <= id x))%N.
Proof.
  unfold descDesc.
  rewrite orb_true_iff, andb_true_iff, N.ltb_lt, N.eqb_eq, N.leb_le.
  tauto.
Qed.

Lemma descDesc_trans {A : Type} (key id : A -> N) (x y z : A) :
  descDesc key id x y = true -> descDesc key id y z = true ->
  descDesc key id x z = true.
Proof. rewrite !descDesc_spec. lia. Qed.

Lemma sortBy_newestFirst {A : Type} (key id : A -> N) (l : list A) :
  newestFirst key id (sortBy (descDesc key id) l).
Proof.
  unfold newestFirst.
  eapply StronglySorted_weaken;
    [| apply sortBy_sorted;
       [apply descDesc_total | apply descDesc_trans]].
  intros x y _ _ H. apply descDesc_spec in H. exact H.
Qed.

Lemma sortBy_oldestIdFirst {A : Type} (id : A -> N) (l : list A) :
  oldestIdFirst id (sortBy (ascending id) l).
Proof.
  unfold oldestIdFirst.
  eapply StronglySorted_weaken; [| apply sortBy_sorted].
  - intros x y _ _ H. apply N.leb_le in H. exact H.
  - unfold ascending. intros x y H. apply N.leb_gt in H.
    apply N.leb_le. lia.
  - unfold ascending. intros x y z H1 H2.
    apply N.leb_le in H1, H2. apply N.leb_le. lia.
Qed.

(** ** Content repository: the order of the listings *)

Lemma newestFirst_by_day {A : Type} (created id : A -> N) (l : list A) :
  chronological created id l ->
  newestFirst (fun r => DATE_FORMAT (created r)) id l ->
  newestFirst created id l.
Proof.
  intros Hchr. unfold newestFirst. apply StronglySorted_weaken.
  intros x y Hx Hy [Hlt | [Heq Hid]].
  - left. unfold DATE_FORMAT in Hlt.
    destruct (N.lt_ge_cases (created y) (created x)) as [H|H];
      [assumption|].
    apply (N.Div0.div_le_mono _ _ 86400) in H. lia.
  - pose proof (Hchr y x Hy Hx Hid) as Hle.
    destruct (N.eq_dec (created x) (created y)) as [E|E].
    + right. split; assumption.
    + left. lia.
Qed.

Lemma chronological_perm {A : Type} (created id : A -> N)
  (l l' : list A) :
  Permutation l l' -> chronological created id l ->
  chronological created id l'.
Proof.
  intros Hp H x y Hx Hy. apply H;
    eapply Permutation_in; try eassumption;
    apply Permutation_sym; assumption.
Qed.

Lemma sortBy_day_newestFirst {A : Type} (created id : A -> N)
  (l : list A) :
  chronological created id l ->
  newestFirst created id
    (sortBy (descDesc (fun r => DATE_FORMAT (created r)) id) l).
Proof.
  intros H. apply newestFirst_by_day.
  - eapply chronological_perm; [|exact H].
    apply Permutation_sym, sortBy_perm.
  - apply sortBy_newestFirst.
Qed.

(** C6, as the code has it.  The listings of stories, of vocabulary
    entries and of grammar topics are ordered by the formatted creation
    date (the calendar day), descending, ties by descending id; this is
    newest first by creation time whenever the ids were handed out in
    the order of creation.  The story summaries are ordered by creation
    time descending, ties by descending id.  The questions of a story
    are ordered by ascending id.  Each listing holds exactly the rows
    of its table (for the questions: those of the story). *)
Theorem listings_order (d : Database) (storyId : N) :
  (newestFirst story_created story_id (orderedSummaries d)
   /\ Permutation (orderedSummaries d) (stories (tables d)))
  /\ (newestFirst l_created_at l_id (getAllStories d)
      /\ Permutation (orderedStories d) (stories (tables d))
      /\ (chronological story_created story_id (stories (tables d)) ->
          newestFirst story_created story_id (orderedStories d)))
  /\ (newestFirst vl_created_at vl_id (getVocabularyEntries d)
      /\ Permutation (orderedVocabulary d) (vocabulary_entries (tables d))
      /\ (chronological vocabulary_created vocabulary_id
            (vocabulary_entries (tables d)) ->
          newestFirst vocabulary_created vocabulary_id
            (orderedVocabulary d)))
  /\ (newestFirst gl_created_at gl_id (getGrammarTopics d)
      /\ Permutation (orderedGrammar d) (grammar_topics (tables d))
      /\ (chronological grammar_created grammar_id
            (grammar_topics (tables d)) ->
          newestFirst grammar_created grammar_id (orderedGrammar d)))
  /\ (oldestIdFirst view_id (getQuestionsForStory d storyId)
      /\ Permutation (orderedQuestions d storyId)
           (filter (fun r => N.eqb (question_story r) storyId)
              (questions (tables d)))).
Proof.
  assert (Hmap : forall (A B : Type) (g : A -> B) (R : B -> B -> Prop)
                   (l : list A),
             StronglySorted (fun x y => R (g x) (g y)) l ->
             StronglySorted R (List.map g l)).
  { intros A B g R l Hs. induction Hs as [|x r Hs IH Hall]; simpl;
      constructor; [assumption|].
    rewrite Forall_forall in *. intros y Hy.
    apply in_map_iff in Hy. destruct Hy as [z [<- Hz]]. auto. }
  repeat split.
  - apply sortBy_newestFirst.
  - apply sortBy_perm.
  - unfold getAllStories, newestFirst. apply Hmap. simpl.
    apply (sortBy_newestFirst
             (fun r => DATE_FORMAT (story_created r)) story_id).
  - apply sortBy_perm.
  - apply sortBy_day_newestFirst.
  - unfold getVocabularyEntries, newestFirst. apply Hmap. simpl.
    apply (sortBy_newestFirst
             (fun r => DATE_FORMAT (vocabulary_created r)) vocabulary_id).
  - apply sortBy_perm.
  - apply sortBy_day_newestFirst.
  - unfold getGrammarTopics, newestFirst. apply Hmap. simpl.
    apply (sortBy_newestFirst
             (fun r => DATE_FORMAT (grammar_created r)) grammar_id).
  - apply sortBy_perm.
  - apply sortBy_day_newestFirst.
  - unfold getQuestionsForStory, oldestIdFirst. apply Hmap. simpl.
    apply (sortBy_oldestIdFirst question_id).
  - apply sortBy_perm.
Qed.

(** Run on the sample database: the stories come newest first. *)
Lemma listings_order_witness :
  chronological story_created story_id (stories (tables quizDb))
  /\ newestFirst story_created story_id (orderedStories quizDb).
Proof.
  assert (H : chronological story_created story_id
                (stories (tables quizDb))).
  { intros x y Hx Hy. simpl in Hx, Hy.
    destruct Hx as [<-|[<-|[]]]; destruct Hy as [<-|[<-|[]]];
      simpl; lia. }
  split; [exact H|].
  exact (proj2 (proj2 (proj1 (proj2 (listings_order quizDb 1)))) H).
Defined.

(** C6 as stated fails for the questions of a story: the older
    question comes first. *)
Lemma questions_listed_oldest_first :
  List.map view_id (getQuestionsForStory quizDb 1) = [1; 2]%N
  /\ List.map question_created (orderedQuestions quizDb 1) = [10; 20]%N
  /\ ~ newestFirst question_created question_id
         (orderedQuestions quizDb 1).
Proof.
  split; [reflexivity|]. split; [reflexivity|].
  intros H.
  change (orderedQuestions quizDb 1)
    with [sampleQuestion 1 10; sampleQuestion 2 20] in H.
  inversion H as [|x r _ Hall]; subst.
  inversion Hall as [|y r' Hy _]; subst.
  simpl in Hy. lia.
Qed.

(** Within one day the story list goes by id, the summaries by time. *)
Example same_day_listing :
  List.map l_id (getAllStories sameDayDb) = [2; 1]%N
  /\ List.map fst (getStorySummaries sameDayDb) = [1; 2]%N.
Proof. split; reflexivity. Qed.

(** ** Access policy *)




(** ** Login *)



(** ** Validation *)

Lemma missingText_spec (q : Question) :
  missingText q = true <-> prompt q = [] \/ In [] (answers q).
Proof.
  unfold missingText.
  rewrite orb_true_iff, negb_true_iff, truthy_false, some_empty_In.
  tauto.
Qed.

Lemma questionError_None (q : Question) :
  questionError q = None <-> ~ questionInvalid q.
Proof.
  unfold questionError, questionInvalid.
  pose proof (missingText_spec q) as Hm.
  pose proof (badCorrectIndex_outOfRange (correctIndex q)) as Hb.
  destruct (missingText q); [split; [discriminate | tauto]|].
  destruct (badCorrectIndex (correctIndex q));
    [split; [discriminate | tauto]|].
  split; [|reflexivity]. intros _ [H|[H|H]].
  - assert (false = true) by tauto. discriminate.
  - assert (false = true) by tauto. discriminate.
  - assert (false = true) by tauto. discriminate.
Qed.

Lemma questionError_messages (q : Question) (msg : jsstring) :
  questionError q = Some msg ->
  msg = MSG_QUESTION_FIELDS \/ msg = MSG_QUESTION_CORRECT.
Proof.
  unfold questionError.
  destruct (missingText q); [intros [= <-]; auto|].
  destruct (badCorrectIndex (correctIndex q));
    [intros [= <-]; auto | discriminate].
Qed.

Lemma firstQuestionError_None (qs : list Question) :
  firstQuestionError qs = None <->
  Forall (fun q => ~ questionInvalid q) qs.
Proof.
  induction qs as [|q r IH]; simpl.
  - split; [constructor | reflexivity].
  - pose proof (questionError_None q) as Hq.
    destruct (questionError q) as [m|].
    + split; [discriminate|]. intros H. inversion H; subst.
      assert (Some m = None) by tauto. discriminate.
    + rewrite IH. split.
      * intros H. constructor; [tauto | assumption].
      * intros H. inversion H; assumption.
Qed.

Lemma firstQuestionError_messages (qs : list Question) (msg : jsstring) :
  firstQuestionError qs = Some msg ->
  msg = MSG_QUESTION_FIELDS \/ msg = MSG_QUESTION_CORRECT.
Proof.
  induction qs as [|q r IH]; simpl; [discriminate|].
  destruct (questionError q) as [m|] eqn:E; [|exact IH].
  intros [= <-]. eapply questionError_messages; eassumption.
Qed.

Section HandlerFacts.

Variable P : Platform.

Lemma storyError_None (v : StoryValues) :
  storyError v = None <->
  ~ storyFieldsInvalid v
  /\ Forall (fun q => ~ questionInvalid q) (v_questions v).
Proof.
  unfold storyError, storyFieldsInvalid.
  pose proof (truthy_false (v_title v)) as Ht.
  pose proof (truthy_false (v_summary v)) as Hs.
  pose proof (truthy_false (v_body v)) as Hb.
  pose proof (includes_In STORY_LEVELS (v_level v)) as Hl.
  rewrite <- firstQuestionError_None.
  destruct (truthy (v_title v)); cbn [negb orb];
    [| split; [discriminate | intros [H _]; exfalso; apply H; tauto]].
  destruct (truthy (v_summary v)); cbn [negb orb];
    [| split; [discriminate | intros [H _]; exfalso; apply H; tauto]].
  destruct (truthy (v_body v)); cbn [negb orb];
    [| split; [discriminate | intros [H _]; exfalso; apply H; tauto]].
  destruct (includes STORY_LEVELS (v_level v)); cbn [negb].
  - split; [|tauto].
    intros H. split; [|assumption].
    intros [E|[E|[E|E]]];
      assert (true = false) by tauto; discriminate.
  - split; [discriminate|]. intros [H _]. exfalso. apply H.
    right; right; right. intros Hin.
    assert (false = true) by tauto. discriminate.
Qed.

Lemma storyError_messages (v : StoryValues) (msg : jsstring) :
  storyError v = Some msg ->
  msg = MSG_REQUIRED \/ msg = MSG_LEVEL
  \/ msg = MSG_QUESTION_FIELDS \/ msg = MSG_QUESTION_CORRECT.
Proof.
  unfold storyError.
  destruct (_ || _); [intros [= <-]; auto|].
  destruct (negb _); [intros [= <-]; auto|].
  intros H. apply firstQuestionError_messages in H. tauto.
Qed.

Lemma storyError_invalid (v : StoryValues) :
  storyFieldsInvalid v \/ Exists questionInvalid (v_questions v) ->
  exists msg, storyError v = Some msg.
Proof.
  intros H. destruct (storyError v) as [m|] eqn:E; [eauto|].
  apply storyError_None in E. destruct E as [E1 E2].
  destruct H as [H|H]; [contradiction|].
  apply Exists_exists in H. destruct H as [q [Hin Hq]].
  rewrite Forall_forall in E2. exfalso. exact (E2 q Hin Hq).
Qed.

(** The route hands an administrator's request to the handler. *)
Lemma postStories_admin (s : Session) (url : jsstring) (up : Upload)
  (d : Database) (user : User) :
  session_user s = Some user -> isAdmin (Some user) = true ->
  postStories P s url up d = storiesHandler P user s up d.
Proof.
  intros Hu Ha. unfold postStories, requireAdmin.
  rewrite Hu, Ha. simpl. rewrite Hu. reflexivity.
Qed.

Lemma postQuestions_admin (s : Session) (url : jsstring)
  (form : QuestionForm) (up : SingleUpload) (d : Database)
  (user : User) :
  session_user s = Some user -> isAdmin (Some user) = true ->
  postQuestions P s url form up d = questionsHandler P user s form up d.
Proof.
  intros Hu Ha. unfold postQuestions, requireAdmin.
  rewrite Hu, Ha. simpl. rewrite Hu. reflexivity.
Qed.

(** A body of texts is read as it is. *)
Lemma readBody_texts (body : Body) :
  readBody (List.map (fun e => (fst e, Text (snd e))) body) = Some body.
Proof.
  induction body as [|[name v] r IH]; [reflexivity|].
  cbn [List.map readBody fst snd readField]. rewrite IH. reflexivity.
Qed.

Lemma storiesHandler_done (user : User) (s : Session) (body : Body)
  (files : list File) (d : Database) :
  storiesHandler P user s (UploadDone body files) d
  = submitStory P user s body files d.
Proof.
  unfold storiesHandler, UploadDone. rewrite readBody_texts. reflexivity.
Qed.

(** A submission that fails validation: the form again, nothing else. *)
Lemma storiesHandler_refused (user : User) (s : Session) (body : Body)
  (files : list File) (d : Database) (msg : jsstring) :
  storyError (storyValues P body files) = Some msg ->
  storiesHandler P user s (UploadDone body files) d
  = {| reply := renderForm 400 msg (storyValues P body files);
       database := d; session := s;
       unlinked := cleanupFiles files |}.
Proof.
  intros H. rewrite storiesHandler_done. unfold submitStory.
  rewrite H. reflexivity.
Qed.

End HandlerFacts.

(** ** The transaction of [POST /stories] *)

Lemma newOps_app (d d' : Database) (ops : list DbOp) :
  trace d' = trace d ++ ops -> newOps d d' = ops.
Proof.
  intros H. unfold newOps. rewrite H, skipn_app, skipn_all.
  replace (List.length (trace d) - List.length (trace d))%nat
    with 0%nat by lia.
  reflexivity.
Qed.

Lemma newOps_same (d : Database) : newOps d d = [].
Proof. apply newOps_app. rewrite app_nil_r. reflexivity. Qed.

Lemma traced_ret {X : Type} (x : X) : traced (ret x).
Proof.
  intros d. exists []. simpl. rewrite app_nil_r.
  split; [reflexivity|]. split; [discriminate | intros [[]|[]]].
Qed.

Lemma traced_bind {X Y : Type} (m : Tx X) (k : X -> Tx Y) :
  traced m -> (forall x, traced (k x)) -> traced (bind m k).
Proof.
  intros Hm Hk d. unfold bind.
  destruct (Hm d) as [ops [Ht Hn]].
  destruct (m d) as [[x|] d1]; simpl in *.
  - destruct (Hk x d1) as [ops' [Ht' Hn']].
    exists (ops ++ ops'). split.
    + rewrite Ht', Ht, app_assoc. reflexivity.
    + rewrite Hn', !in_app_iff. split; [tauto|].
      assert (Hx : ~ (In OpInsertRejected ops \/ In OpFailed ops)).
      { intros H. apply Hn in H. discriminate. }
      tauto.
  - exists ops. split; [assumption|]. tauto.
Qed.

Lemma traced_forEach {A : Type} (l : list A) (f : A -> Tx unit) :
  (forall a, traced (f a)) -> traced (forEach l f).
Proof.
  intros Hf. induction l as [|a r IH]; simpl.
  - apply traced_ret.
  - apply traced_bind; [apply Hf | intros _; exact IH].
Qed.

Section TransactionFacts.

Variable P : Platform.

Lemma trace_writeRows (e : Executor) (t : Tables) (d : Database) :
  trace (writeRows e t d) = trace d.
Proof.
  unfold writeRows. destruct e; [reflexivity|].
  destruct (uncommitted d); reflexivity.
Qed.

Lemma traced_createStory (e : Executor)
  (title level summary body : jsstring) (authorId : N) :
  traced (createStory P e title level summary body authorId).
Proof.
  intros d. unfold createStory.
  destruct (acceptsStory P _ _); cbn [fst snd].
  - exists [OpInsertStory (storySeq d)]. split.
    + cbn [logOp withStoryCounter trace]. rewrite trace_writeRows.
      reflexivity.
    + split; [discriminate|]. intros [[H|[]]|[H|[]]]; discriminate.
  - exists [OpInsertRejected]. split; [reflexivity|].
    split; [intros _; left; left; reflexivity | reflexivity].
Qed.

Lemma traced_createQuestion (e : Executor) (storyId : N)
  (prompt : jsstring) (answers : list jsstring)
  (correctIndex : option Z) (audioPath : option jsstring)
  (authorId : N) :
  traced (createQuestion P e storyId prompt answers correctIndex
            audioPath authorId).
Proof.
  intros d. unfold createQuestion.
  destruct (acceptsQuestion P _ _); cbn [fst snd].
  - exists [OpInsertQuestion (questionSeq d)]. split.
    + cbn [logOp withQuestionCounter trace]. rewrite trace_writeRows.
      reflexivity.
    + split; [discriminate|]. intros [[H|[]]|[H|[]]]; discriminate.
  - exists [OpInsertRejected]. split; [reflexivity|].
    split; [intros _; left; left; reflexivity | reflexivity].
Qed.

Lemma traced_beginTransaction : traced (beginTransaction P).
Proof.
  intros d. unfold beginTransaction. destruct (begins P d); cbn [fst snd].
  - exists [OpBeginTransaction]. split; [reflexivity|].
    split; [discriminate|]. intros [[H|[]]|[H|[]]]; discriminate.
  - exists [OpBeginTransaction; OpFailed]. split.
    + cbn [logOp trace]. rewrite <- app_assoc. reflexivity.
    + split; [|reflexivity]. intros _. right. right. left. reflexivity.
Qed.

Lemma traced_commit : traced (commit P).
Proof.
  intros d. unfold commit. destruct (commits P d); cbn [fst snd].
  - exists [OpCommit]. split; [reflexivity|].
    split; [discriminate|]. intros [[H|[]]|[H|[]]]; discriminate.
  - exists [OpCommit; OpFailed]. split.
    + cbn [logOp trace]. rewrite <- app_assoc. reflexivity.
    + split; [|reflexivity]. intros _. right. right. left. reflexivity.
Qed.

Lemma traced_saveStory (values : StoryValues) (authorId : N) :
  traced (saveStory P values authorId).
Proof.
  unfold saveStory.
  apply traced_bind; [apply traced_beginTransaction|].
  intros _. apply traced_bind; [apply traced_createStory|].
  intros storyId. apply traced_bind.
  { apply traced_forEach. intros q.
    apply traced_bind; [apply traced_createQuestion|].
    intros _. apply traced_ret. }
  intros _. apply traced_bind; [apply traced_commit|].
  intros _; apply traced_ret.
Qed.

(** An INSERT inside the transaction. *)
Lemma createStory_in_transaction (title level summary body : jsstring)
  (authorId : N) (d : Database) (t : Tables) :
  uncommitted d = Some t ->
  let row := {| story_id := storySeq d; story_title := title;
                story_level := level; story_summary := summary;
                story_body := body; story_author := authorId;
                story_created := clock d |} in
  createStory P Connection title level summary body authorId d
  = if acceptsStory P t row
    then (Some (storySeq d),
          logOp (OpInsertStory (storySeq d))
            (withStoryCounter (storySeq d + 1)
               (withUncommitted (Some (addStory row t)) d)))
    else (None, logOp OpInsertRejected d).
Proof.
  intros H. unfold createStory, rowsSeen, writeRows. rewrite H.
  reflexivity.
Qed.

Lemma createQuestion_in_transaction (storyId authorId : N) (q : Question)
  (d : Database) (t : Tables) :
  uncommitted d = Some t ->
  createQuestion P Connection storyId (prompt q) (answers q)
    (correctIndex q) (audioPathOf (file q)) authorId d
  = if acceptsQuestion P t
         (questionRow storyId authorId (clock d) (questionSeq d) q)
    then (Some (questionSeq d),
          logOp (OpInsertQuestion (questionSeq d))
            (withQuestionCounter (questionSeq d + 1)
               (withUncommitted
                  (Some (addQuestion
                           (questionRow storyId authorId (clock d)
                              (questionSeq d) q) t)) d)))
    else (None, logOp OpInsertRejected d).
Proof.
  intros H. unfold createQuestion, rowsSeen, writeRows, questionRow.
  rewrite H. reflexivity.
Qed.

(** One turn of the loop over the questions. *)
Lemma insertQuestions_cons (storyId authorId : N) (q : Question)
  (r : list Question) (d : Database) :
  insertQuestions P storyId authorId (q :: r) d
  = match createQuestion P Connection storyId (prompt q) (answers q)
            (correctIndex q) (audioPathOf (file q)) authorId d with
    | (Some _, d1) => insertQuestions P storyId authorId r d1
    | (None, d1) => (None, d1)
    end.
Proof.
  unfold insertQuestions. cbn [forEach]. unfold bind, ret.
  destruct (createQuestion P Connection storyId (prompt q) (answers q)
              (correctIndex q) (audioPathOf (file q)) authorId d)
    as [[x|] d1]; reflexivity.
Qed.

(** The loop over the questions: it writes the rows of a prefix of the
    questions into the transaction, all of them when no insert
    throws, and leaves the tables as they are. *)
Lemma insert_loop (storyId authorId : N) (qs : list Question) :
  forall (d : Database) (t : Tables), uncommitted d = Some t ->
  forall res d', insertQuestions P storyId authorId qs d = (res, d') ->
  tables d' = tables d /\ storyCounter d' = storyCounter d
  /\ clock d' = clock d
  /\ (exists n t',
        uncommitted d' = Some t'
        /\ sameOtherTables t t'
        /\ questions t'
           = questions t
             ++ questionRows storyId authorId (clock d) (questionSeq d)
                  (firstn n qs)
        /\ (res = Some tt ->
            n = List.length qs
            /\ trace d' = trace d ++ insertOps (questionSeq d) n)
        /\ (res = None ->
            (n < List.length qs)%nat
            /\ trace d'
               = trace d ++ insertOps (questionSeq d) n
                 ++ [OpInsertRejected]))
  /\ ((forall t r, acceptsQuestion P t r = true) -> res = Some tt).
Proof.
  unfold sameOtherTables.
  induction qs as [|q r IH]; intros d t Hu res d'.
  - intros [= <- <-]. do 3 (split; [reflexivity|]).
    split; [|reflexivity].
    exists 0%nat, t. cbn [firstn questionRows insertOps List.length].
    rewrite !app_nil_r.
    split; [exact Hu|]. split; [auto|]. split; [reflexivity|].
    split; [auto | discriminate].
  - rewrite insertQuestions_cons.
    rewrite (createQuestion_in_transaction storyId authorId q d t Hu).
    destruct (acceptsQuestion P t _) eqn:Hacc.
    + intros Hrun.
      match type of Hrun with
      | insertQuestions _ _ _ _ ?d1 = _ =>
          destruct (IH d1 _ eq_refl res d' Hrun)
            as [Ht [Hs [Hc [[n [t' [Hu' [Hsame [Hq [Hok Hno]]]]]] Hall]]]]
      end.
      cbn [tables storyCounter clock logOp withQuestionCounter
             withUncommitted] in Ht, Hs, Hc.
      do 3 (split; [assumption|]).
      split; [|exact Hall].
      exists (S n), t'. split; [exact Hu'|].
      cbn [users stories vocabulary_entries grammar_topics questions
             addQuestion] in Hsame, Hq.
      split; [exact Hsame|].
      cbn [firstn questionRows insertOps List.length].
      cbn [clock logOp withQuestionCounter withUncommitted] in Hq.
      change (questionSeq
                (logOp (OpInsertQuestion (questionSeq d))
                   (withQuestionCounter (questionSeq d + 1)
                      (withUncommitted
                         (Some
                            (addQuestion
                               (questionRow storyId authorId (clock d)
                                  (questionSeq d) q) t)) d))))
        with (nextId (questionSeq d)) in *.
      split; [rewrite Hq, <- app_assoc; reflexivity|].
      split.
      * intros E. destruct (Hok E) as [-> Htr]. split; [reflexivity|].
        rewrite Htr. cbn [trace logOp withQuestionCounter withUncommitted].
        rewrite <- app_assoc. reflexivity.
      * intros E. destruct (Hno E) as [Hlt Htr]. split; [lia|].
        rewrite Htr. cbn [trace logOp withQuestionCounter withUncommitted].
        rewrite <- app_assoc. reflexivity.
    + intros [= <- <-]. do 3 (split; [reflexivity|]).
      split.
      * exists 0%nat, t.
        cbn [firstn questionRows insertOps List.length app].
        rewrite app_nil_r.
        split; [exact Hu|]. split; [auto|]. split; [reflexivity|].
        split; [discriminate|]. intros _. split; [lia | reflexivity].
      * intros Hq. rewrite Hq in Hacc. discriminate.
Qed.

Lemma questionRows_In (storyId authorId created id : N)
  (qs : list Question) (r : QuestionRow) :
  In r (questionRows storyId authorId created id qs) ->
  exists q id', In q qs /\ r = questionRow storyId authorId created id' q.
Proof.
  revert id. induction qs as [|q qs IH]; intros id; simpl; [tauto|].
  intros [<-|H].
  - exists q, id. auto.
  - destruct (IH _ H) as [q' [id' [Hin ->]]]. exists q', id'. auto.
Qed.

Lemma questionRows_length (storyId authorId created id : N)
  (qs : list Question) :
  List.length (questionRows storyId authorId created id qs)
  = List.length qs.
Proof.
  revert id. induction qs as [|q qs IH]; intros id; simpl;
    [reflexivity | rewrite IH; reflexivity].
Qed.

Lemma questionRows_correct (storyId authorId created id : N)
  (qs : list Question) :
  List.map correct_index (questionRows storyId authorId created id qs)
  = List.map correctIndex qs.
Proof.
  revert id. induction qs as [|q qs IH]; intros id; simpl;
    [reflexivity | rewrite IH; reflexivity].
Qed.

(** The [try] block, statement by statement. *)
Lemma saveStory_unfold (v : StoryValues) (authorId : N) (d : Database) :
  saveStory P v authorId d
  = match beginTransaction P d with
    | (None, d1) => (None, d1)
    | (Some _, d1) =>
        match createStory P Connection (v_title v) (v_level v)
                (v_summary v) (v_body v) authorId d1 with
        | (None, d2) => (None, d2)
        | (Some storyId, d2) =>
            match insertQuestions P storyId authorId (v_questions v) d2
            with
            | (None, d3) => (None, d3)
            | (Some _, d3) =>
                match commit P d3 with
                | (None, d4) => (None, d4)
                | (Some _, d4) => (Some storyId, d4)
                end
            end
        end
    end.
Proof.
  unfold saveStory, insertQuestions, bind, ret.
  destruct (beginTransaction P d) as [[u|] d1]; [|reflexivity].
  destruct (createStory P Connection (v_title v) (v_level v)
              (v_summary v) (v_body v) authorId d1) as [[id|] d2];
    [|reflexivity].
  match goal with
  | |- context [forEach (v_questions v) ?f d2] =>
      destruct (forEach (v_questions v) f d2) as [[u'|] d3]
  end; [|reflexivity].
  destruct (commit P d3) as [[u''|] d4]; reflexivity.
Qed.

(** What the [try] block has done: when it did not throw, the rows of
    the submission are rows of the tables and the transaction is
    closed; when it threw, the tables are as before.  It does not
    throw when the engine takes every row and every call. *)
Lemma saveStory_effect (v : StoryValues) (authorId : N) (d : Database) :
  forall res d', saveStory P v authorId d = (res, d') ->
  (forall storyId, res = Some storyId ->
     storyId = storySeq d
     /\ stories (tables d')
        = stories (tables d) ++ [storyRow storyId authorId (clock d) v]
     /\ questions (tables d')
        = questions (tables d)
          ++ questionRows storyId authorId (clock d) (questionSeq d)
               (v_questions v)
     /\ users (tables d') = users (tables d)
     /\ vocabulary_entries (tables d') = vocabulary_entries (tables d)
     /\ grammar_topics (tables d') = grammar_topics (tables d)
     /\ uncommitted d' = None
     /\ trace d'
        = trace d
          ++ committedTry (storySeq d) (questionSeq d)
               (List.length (v_questions v)))
  /\ (res = None ->
      tables d' = tables d
      /\ exists ops,
           trace d' = trace d ++ ops
           /\ failedTry (storySeq d) (questionSeq d)
                (List.length (v_questions v)) ops)
  /\ (acceptsAll P -> res = Some (storySeq d)).
Proof.
  intros res d'. rewrite saveStory_unfold.
  unfold beginTransaction.
  destruct (begins P d) eqn:Hb.
  2:{ intros [= <- <-]. split; [intros ? [=]|]. split.
      - intros _. split; [reflexivity|].
        exists [OpBeginTransaction; OpFailed]. split.
        + cbn [trace logOp]. rewrite <- app_assoc. reflexivity.
        + left. reflexivity.
      - intros [_ [_ [_ [Hall _]]]]. rewrite Hall in Hb. discriminate. }
  rewrite (createStory_in_transaction (v_title v) (v_level v)
             (v_summary v) (v_body v) authorId
             (logOp OpBeginTransaction
                (withUncommitted (Some (tables d)) d))
             (tables d) eq_refl).
  cbv zeta.
  change (storySeq (logOp OpBeginTransaction
                      (withUncommitted (Some (tables d)) d)))
    with (storySeq d).
  change (clock (logOp OpBeginTransaction
                   (withUncommitted (Some (tables d)) d)))
    with (clock d).
  fold (storyRow (storySeq d) authorId (clock d) v).
  destruct (acceptsStory P (tables d) _) eqn:Hs.
  2:{ intros [= <- <-]. split; [intros ? [=]|]. split.
      - intros _. split; [reflexivity|].
        exists [OpBeginTransaction; OpInsertRejected]. split.
        + cbn [trace logOp withUncommitted]. rewrite <- app_assoc.
          reflexivity.
        + right. left. reflexivity.
      - intros [Hall _]. rewrite Hall in Hs. discriminate. }
  match goal with
  | |- context [insertQuestions P (storySeq d) authorId (v_questions v)
                  ?d2] =>
      pose proof (insert_loop (storySeq d) authorId (v_questions v) d2
                    _ eq_refl) as Hloop;
      destruct (insertQuestions P (storySeq d) authorId (v_questions v)
                  d2) as [[[]|] d3]
  end;
    destruct (Hloop _ _ eq_refl)
      as [Ht [Hsc [Hc [[n [t' [Hu' [Hsame [Hq [Hok Hno]]]]]] Hall]]]];
    clear Hloop; unfold sameOtherTables in Hsame;
    cbn [tables storyCounter clock logOp withStoryCounter withUncommitted
           users stories vocabulary_entries grammar_topics questions
           addStory trace] in Ht, Hsc, Hc, Hsame, Hq, Hok, Hno;
    change (questionSeq
              (logOp (OpInsertStory (storySeq d))
                 (withStoryCounter (storySeq d + 1)
                    (withUncommitted
                       (Some
                          (addStory
                             (storyRow (storySeq d) authorId (clock d) v)
                             (tables d)))
                       (logOp OpBeginTransaction
                          (withUncommitted (Some (tables d)) d))))))
      with (questionSeq d) in *;
    destruct Hsame as [Hsu [Hss [Hsv Hsg]]].
  - destruct (Hok eq_refl) as [-> Htr].
    rewrite firstn_all in Hq.
    unfold commit. destruct (commits P d3) eqn:Hcm.
    + intros [= <- <-]. split; [|split; [discriminate | reflexivity]].
      intros storyId [= <-]. split; [reflexivity|].
      unfold rowsSeen. rewrite Hu'.
      cbn [tables uncommitted logOp withUncommitted withTables trace].
      rewrite Hss, Hq, Hsu, Hsv, Hsg, Htr.
      do 6 (split; [reflexivity|]).
      unfold committedTry.
      rewrite <- !app_assoc. reflexivity.
    + intros [= <- <-]. split; [intros ? [=]|]. split.
      * intros _. cbn [tables logOp]. split; [exact Ht|].
        exists ([OpBeginTransaction; OpInsertStory (storySeq d)]
                ++ insertOps (questionSeq d)
                     (List.length (v_questions v))
                ++ [OpCommit; OpFailed]).
        split.
        -- cbn [trace logOp]. rewrite Htr.
           rewrite <- !app_assoc. reflexivity.
        -- right. right. right. reflexivity.
      * intros [_ [_ [_ [_ Hcall]]]]. rewrite Hcall in Hcm.
        discriminate.
  - intros [= <- <-]. split; [intros ? [=]|]. split.
    + intros _. split; [exact Ht|].
      destruct (Hno eq_refl) as [Hlt Htr].
      exists ([OpBeginTransaction; OpInsertStory (storySeq d)]
              ++ insertOps (questionSeq d) n ++ [OpInsertRejected]).
      split.
      * rewrite Htr. rewrite <- !app_assoc. reflexivity.
      * right. right. left. exists n. split; [exact Hlt | reflexivity].
    + intros [_ [Hqall _]]. specialize (Hall Hqall). discriminate.
Qed.

End TransactionFacts.

(** ** The authoring workflow *)

Section Authoring.

Variable P : Platform.

Lemma insertOps_In (id : N) (n : nat) (op : DbOp) :
  In op (insertOps id n) -> exists id', op = OpInsertQuestion id'.
Proof.
  revert id. induction n as [|n IH]; intros id; simpl; [tauto|].
  intros [<-|H]; [eauto | eapply IH; eassumption].
Qed.

Lemma insertOps_length (id : N) (n : nat) :
  List.length (insertOps id n) = n.
Proof.
  revert id. induction n as [|n IH]; intros id; simpl;
    [reflexivity | rewrite IH; reflexivity].
Qed.

(** What is in the calls of a [try] block. *)
Lemma committedTry_In (storyId questionId : N) (count : nat) (op : DbOp) :
  In op (committedTry storyId questionId count) ->
  op = OpBeginTransaction \/ op = OpInsertStory storyId
  \/ op = OpCommit \/ exists id, op = OpInsertQuestion id.
Proof.
  unfold committedTry. rewrite !in_app_iff. simpl.
  intros [[<-|[<-|[]]]|[H|[<-|[]]]]; auto.
  apply insertOps_In in H. auto.
Qed.

Lemma failedTry_In (storyId questionId : N) (count : nat)
  (ops : list DbOp) :
  failedTry storyId questionId count ops ->
  (In OpInsertRejected ops \/ In OpFailed ops)
  /\ ~ In OpRollback ops /\ ~ In OpRelease ops
  /\ ~ In OpGetConnection ops.
Proof.
  assert (Hins : forall n op, In op (insertOps questionId n) ->
                   op <> OpRollback /\ op <> OpRelease
                   /\ op <> OpGetConnection).
  { intros n op H. apply insertOps_In in H. destruct H as [id' ->].
    repeat split; discriminate. }
  intros [-> | [-> | [[n [_ ->]] | ->]]].
  - split; [right; simpl; auto|].
    repeat split; simpl; intros [H|[H|[]]]; discriminate.
  - split; [left; simpl; auto|].
    repeat split; simpl; intros [H|[H|[]]]; discriminate.
  - split.
    { left. rewrite !in_app_iff. right. right. left. reflexivity. }
    repeat split; rewrite !in_app_iff; simpl;
      intros [[H|[H|[]]]|[H|[H|[]]]]; try discriminate;
      apply Hins in H; tauto.
  - split.
    { right. rewrite !in_app_iff. right. right. right. left.
      reflexivity. }
    repeat split; rewrite !in_app_iff; simpl;
      intros [[H|[H|[]]]|[H|[H|[H|[]]]]]; try discriminate;
      apply Hins in H; tauto.
Qed.

(** The handler of [POST /stories] once validation has passed: the
    submission is saved; or no connection could be had; or the [try]
    block threw and the transaction was rolled back, or was asked to
    be. *)
Lemma submitStory_runs (user : User) (s : Session) (body : Body)
  (files : list File) (d : Database) :
  storyError (storyValues P body files) = None ->
  let values := storyValues P body files in
  let out := submitStory P user s body files d in
  let count := List.length (v_questions values) in
  session out = s
  /\ ((reply out = Redirect (lit "/story/" ++ ofN (storySeq d))
       /\ unlinked out = []
       /\ stories (tables (database out))
          = stories (tables d)
            ++ [storyRow (storySeq d) (user_id user) (clock d) values]
       /\ questions (tables (database out))
          = questions (tables d)
            ++ questionRows (storySeq d) (user_id user) (clock d)
                 (questionSeq d) (v_questions values)
       /\ users (tables (database out)) = users (tables d)
       /\ vocabulary_entries (tables (database out))
          = vocabulary_entries (tables d)
       /\ grammar_topics (tables (database out))
          = grammar_topics (tables d)
       /\ uncommitted (database out) = None
       /\ newOps d (database out)
          = [OpGetConnection]
            ++ committedTry (storySeq d) (questionSeq d) count
            ++ [OpRelease])
      \/ (tables (database out) = tables d
          /\ ((reply out = Render 500 Error500Page
               /\ unlinked out = []
               /\ newOps d (database out) = [OpGetConnection; OpFailed])
              \/ exists ops,
                   failedTry (storySeq d) (questionSeq d) count ops
                   /\ ((reply out
                        = renderForm 500 MSG_STORY_UNEXPECTED values
                        /\ unlinked out = cleanupFiles files
                        /\ newOps d (database out)
                           = [OpGetConnection] ++ ops
                             ++ [OpRollback; OpRelease])
                       \/ (reply out = Render 500 Error500Page
                           /\ unlinked out = []
                           /\ newOps d (database out)
                              = [OpGetConnection] ++ ops
                                ++ [OpRollback; OpFailed; OpRelease])))))
  /\ (acceptsAll P ->
      reply out = Redirect (lit "/story/" ++ ofN (storySeq d))).
Proof.
  intros E. cbv zeta. unfold submitStory. rewrite E.
  unfold getConnection. destruct (connects P d) eqn:Hc.
  2:{ cbn [serverError session reply unlinked database tables logOp].
      split; [reflexivity|]. split.
      - right. split; [reflexivity|]. left.
        split; [reflexivity|]. split; [reflexivity|].
        apply newOps_app. cbn [trace logOp]. rewrite <- app_assoc.
        reflexivity.
      - intros [_ [_ [Hall _]]]. rewrite Hall in Hc. discriminate. }
  destruct (saveStory P (storyValues P body files) (user_id user)
              (logOp OpGetConnection d)) as [res d'] eqn:Hrun.
  destruct (saveStory_effect P _ _ _ _ _ Hrun) as [Hdone [Hfail Hok]].
  change (storySeq (logOp OpGetConnection d)) with (storySeq d) in *.
  change (questionSeq (logOp OpGetConnection d)) with (questionSeq d) in *.
  change (clock (logOp OpGetConnection d)) with (clock d) in *.
  change (tables (logOp OpGetConnection d)) with (tables d) in *.
  destruct res as [storyId|].
  - destruct (Hdone _ eq_refl)
      as [-> [Hst [Hqs [Hus [Hv [Hg [Hun Htr]]]]]]].
    cbn [session reply unlinked database release tables uncommitted logOp].
    split; [reflexivity|]. split; [|reflexivity].
    left. do 8 (split; [first [reflexivity | assumption]|]).
    apply newOps_app. unfold release. cbn [trace logOp]. rewrite Htr.
    cbn [trace logOp]. rewrite <- !app_assoc. reflexivity.
  - destruct (Hfail eq_refl) as [Ht [ops [Htr Hops]]].
    assert (Hno : acceptsAll P -> False).
    { intros H. specialize (Hok H). discriminate. }
    unfold rollback. destruct (rollsBack P d') eqn:Hr.
    + cbn [session reply unlinked database release tables logOp
             withUncommitted].
      split; [reflexivity|]. split; [|intros H; destruct (Hno H)].
      right. split; [exact Ht|]. right. exists ops.
      split; [exact Hops|]. left.
      split; [reflexivity|]. split; [reflexivity|].
      apply newOps_app. unfold release.
      cbn [trace logOp withUncommitted]. rewrite Htr.
      cbn [trace logOp]. rewrite <- !app_assoc. reflexivity.
    + cbn [serverError session reply unlinked database release tables
             logOp].
      split; [reflexivity|]. split; [|intros H; destruct (Hno H)].
      right. split; [exact Ht|]. right. exists ops.
      split; [exact Hops|]. right.
      split; [reflexivity|]. split; [reflexivity|].
      apply newOps_app. unfold release. cbn [trace logOp]. rewrite Htr.
      cbn [trace logOp]. rewrite <- !app_assoc. reflexivity.
Qed.

Lemma and_assoc_4 (A B C D : Prop) :
  A /\ B /\ C /\ D <-> (A /\ B /\ C) /\ D.
Proof. tauto. Qed.

(** After a commit or a rollback that succeeded no transaction is left
    open: the handler answers with the 500 page whenever one may be. *)
Lemma submitStory_closes (user : User) (s : Session) (body : Body)
  (files : list File) (d : Database) :
  storyError (storyValues P body files) = None ->
  let out := submitStory P user s body files d in
  reply out <> Render 500 Error500Page ->
  uncommitted (database out) = None.
Proof.
  intros E. cbv zeta. unfold submitStory. rewrite E.
  unfold getConnection. destruct (connects P d).
  2:{ intros H. exfalso. apply H. reflexivity. }
  destruct (saveStory P (storyValues P body files) (user_id user)
              (logOp OpGetConnection d)) as [res d'] eqn:Hrun.
  destruct (saveStory_effect P _ _ _ _ _ Hrun) as [Hdone _].
  destruct res as [storyId|].
  - destruct (Hdone _ eq_refl) as [_ [_ [_ [_ [_ [_ [Hun _]]]]]]].
    intros _. exact Hun.
  - unfold rollback. destruct (rollsBack P d').
    + intros _. reflexivity.
    + intros H. exfalso. apply H. reflexivity.
Qed.

(** The three ways the handler of [POST /stories] goes. *)
Lemma storiesHandler_cases (user : User) (s : Session) (up : Upload)
  (d : Database) :
  (exists msg files,
     up = UploadFailed msg files
     /\ storiesHandler P user s up d
        = {| reply := renderForm 400 msg initialValues;
             database := d; session := s;
             unlinked := cleanupFiles files |})
  \/ (exists fields files,
        up = UploadParsed fields files /\ readBody fields = None
        /\ storiesHandler P user s up d = serverError s d)
  \/ (exists fields files body,
        up = UploadParsed fields files /\ readBody fields = Some body
        /\ storiesHandler P user s up d
           = submitStory P user s body files d).
Proof.
  destruct up as [msg files | fields files].
  - left. exists msg, files. split; reflexivity.
  - unfold storiesHandler. destruct (readBody fields) as [body|] eqn:E.
    + right. right. exists fields, files, body. auto.
    + right. left. exists fields, files. auto.
Qed.

(** C1.  For a submission of an administrator: when the story fields
    or any question handed to validation is invalid, the answer is 400
    and the database is exactly as before, its trace included: no
    connection was taken and no transaction opened.  When an insert is
    rejected inside the transaction, the answer is 500, the transaction
    is rolled back and the rows are those from before the request.
    Rows change only when the answer is the redirect. *)
Theorem refused_submission_persists_nothing (s : Session)
  (url : jsstring) (user : User) (body : Body) (files : list File)
  (d : Database) :
  session_user s = Some user -> isAdmin (Some user) = true ->
  let values := storyValues P body files in
  let out := postStories P s url (UploadDone body files) d in
  (storyFieldsInvalid values \/ Exists questionInvalid (v_questions values)
   -> statusOf (reply out) = 400%N /\ database out = d
      /\ newOps d (database out) = [])
  /\ (In OpInsertRejected (newOps d (database out))
      -> statusOf (reply out) = 500%N
         /\ tables (database out) = tables d
         /\ In OpRollback (newOps d (database out)))
  /\ (statusOf (reply out) <> 302%N -> tables (database out) = tables d).
Proof.
  intros Hu Ha. cbv zeta. rewrite (postStories_admin P s url _ d user Hu Ha).
  rewrite storiesHandler_done.
  destruct (storyError (storyValues P body files)) as [msg|] eqn:E.
  - unfold submitStory. rewrite E.
    cbn [reply database statusOf renderForm]. rewrite newOps_same.
    repeat split; auto; contradiction.
  - split.
    { intros H. apply storyError_invalid in H.
      destruct H as [m H]. rewrite E in H. discriminate. }
    destruct (submitStory_runs user s body files d E) as [_ [H _]].
    cbv zeta in H.
    destruct H as [[Hr [_ [_ [_ [_ [_ [_ [_ Hops]]]]]]]]
                  |[Ht [[Hr [_ Hops]]|[ops [Hf H]]]]].
    + rewrite Hr, Hops. split; [|intros H; exfalso; apply H; reflexivity].
      intros H. exfalso. rewrite !in_app_iff in H.
      destruct H as [[H|[]]|[H|[H|[]]]]; try discriminate.
      apply committedTry_In in H.
      destruct H as [H|[H|[H|[id H]]]]; discriminate.
    + rewrite Hr, Hops. split; [|intros _; exact Ht].
      intros [H|[H|[]]]; discriminate.
    + assert (Hst : statusOf (reply (submitStory P user s body files d))
                    = 500%N)
        by (destruct H as [[-> _]|[-> _]]; reflexivity).
      split; [|intros _; exact Ht].
      intros _. split; [exact Hst|]. split; [exact Ht|].
      destruct H as [[_ [_ ->]]|[_ [_ ->]]];
        rewrite !in_app_iff; right; right; left; reflexivity.
Qed.

(** A submission that passes validation on an engine that takes every
    row: what the handler answers and writes. *)
Lemma storiesHandler_saved (user : User) (s : Session) (body : Body)
  (files : list File) (d : Database) :
  acceptsAll P ->
  storyError (storyValues P body files) = None ->
  let values := storyValues P body files in
  let out := storiesHandler P user s (UploadDone body files) d in
  reply out = Redirect (lit "/story/" ++ ofN (storySeq d))
  /\ stories (tables (database out))
     = stories (tables d)
       ++ [storyRow (storySeq d) (user_id user) (clock d) values]
  /\ questions (tables (database out))
     = questions (tables d)
       ++ questionRows (storySeq d) (user_id user) (clock d)
            (questionSeq d) (v_questions values)
  /\ users (tables (database out)) = users (tables d)
  /\ vocabulary_entries (tables (database out))
     = vocabulary_entries (tables d)
  /\ grammar_topics (tables (database out)) = grammar_topics (tables d).
Proof.
  intros Hacc E. cbv zeta. rewrite storiesHandler_done.
  destruct (submitStory_runs user s body files d E) as [_ [H Hok]].
  cbv zeta in H, Hok. specialize (Hok Hacc).
  destruct H as [[Hr [_ [Hst [Hqs [Hus [Hv [Hg _]]]]]]]
                |[_ [[Hr _]|[ops [_ [[Hr _]|[Hr _]]]]]]];
    try (rewrite Hr in Hok; discriminate).
  auto 10.
Qed.

(** C2.  For a valid submission of an administrator with N questions
    left after parsing: whenever the answer is the redirect, it goes to
    the page of the id the story insert returned; the stories table
    has one more row, that story, written by the administrator; the
    questions table has N more rows, one for each question in order,
    each referring to the new story and written by the administrator;
    the other tables are as before; and the connection was asked to
    begin a transaction, to insert the story and the N questions, and
    to commit, in this order, before it was released.  The answer is
    the redirect exactly when the commit was the last call before the
    release, and it is the redirect whenever the engine takes every row
    and every call. *)
Theorem valid_submission_persists_story_and_questions (s : Session)
  (url : jsstring) (user : User) (body : Body) (files : list File)
  (d : Database) :
  session_user s = Some user -> isAdmin (Some user) = true ->
  let values := storyValues P body files in
  let out := postStories P s url (UploadDone body files) d in
  let storyId := storySeq d in
  let rows := questionRows storyId (user_id user) (clock d)
                (questionSeq d) (v_questions values) in
  ~ storyFieldsInvalid values ->
  Forall (fun q => ~ questionInvalid q) (v_questions values) ->
  (statusOf (reply out) = 302%N ->
   reply out = Redirect (lit "/story/" ++ ofN storyId)
   /\ stories (tables (database out))
      = stories (tables d)
        ++ [storyRow storyId (user_id user) (clock d) values]
   /\ questions (tables (database out)) = questions (tables d) ++ rows
   /\ List.length rows = List.length (v_questions values)
   /\ Forall (fun r => question_story r = storyId
                       /\ question_author r = user_id user) rows
   /\ List.map correct_index rows
      = List.map correctIndex (v_questions values)
   /\ users (tables (database out)) = users (tables d)
   /\ vocabulary_entries (tables (database out))
      = vocabulary_entries (tables d)
   /\ grammar_topics (tables (database out)) = grammar_topics (tables d)
   /\ uncommitted (database out) = None
   /\ newOps d (database out)
      = [OpGetConnection; OpBeginTransaction; OpInsertStory storyId]
        ++ insertOps (questionSeq d) (List.length (v_questions values))
        ++ [OpCommit; OpRelease])
  /\ (statusOf (reply out) = 302%N
      <-> exists ops,
            newOps d (database out) = ops ++ [OpCommit; OpRelease])
  /\ (acceptsAll P -> statusOf (reply out) = 302%N).
Proof.
  intros Hu Ha. cbv zeta. intros Hf Hq.
  rewrite (postStories_admin P s url _ d user Hu Ha).
  rewrite storiesHandler_done.
  assert (E : storyError (storyValues P body files) = None)
    by (apply storyError_None; split; assumption).
  destruct (submitStory_runs user s body files d E) as [_ [H Hok]].
  cbv zeta in H, Hok.
  assert (Hend : forall (ops ops' : list DbOp) (a b a' b' : DbOp),
            ops ++ [a; b] = ops' ++ [a'; b'] -> a = a').
  { intros ops ops' a b a' b' Heq.
    apply (f_equal (@rev DbOp)) in Heq.
    rewrite !rev_app_distr in Heq. simpl in Heq. congruence. }
  destruct H as [[Hr [_ [Hst [Hqs [Hus [Hv [Hg [Hun Hops]]]]]]]]
                |[Ht [[Hr [_ Hops]]|[ops [Hfl H]]]]].
  - split; [|split].
    + intros _. split; [exact Hr|]. split; [exact Hst|].
      split; [exact Hqs|]. split; [apply questionRows_length|].
      split.
      { apply Forall_forall. intros r Hr'.
        apply questionRows_In in Hr'. destruct Hr' as [q [id' [_ ->]]].
        split; reflexivity. }
      split; [apply questionRows_correct|].
      do 4 (split; [assumption|]).
      rewrite Hops. unfold committedTry. cbn [app].
      rewrite <- !app_assoc. reflexivity.
    + rewrite Hr. split; [|reflexivity]. intros _.
      exists ([OpGetConnection; OpBeginTransaction;
               OpInsertStory (storySeq d)]
              ++ insertOps (questionSeq d)
                   (List.length (v_questions (storyValues P body files)))).
      rewrite Hops. unfold committedTry. cbn [app].
      rewrite <- !app_assoc. reflexivity.
    + intros _. rewrite Hr. reflexivity.
  - rewrite Hr. split; [discriminate|]. split.
    + split; [discriminate|]. intros [ops Heq]. exfalso.
      rewrite Hops in Heq.
      apply (Hend [] ops) in Heq. discriminate.
    + intros Hacc. specialize (Hok Hacc). rewrite Hr in Hok.
      discriminate.
  - assert (Hst : statusOf (reply (submitStory P user s body files d))
                  = 500%N)
      by (destruct H as [[-> _]|[-> _]]; reflexivity).
    rewrite Hst. split; [discriminate|]. split.
    + split; [discriminate|]. intros [ops' Heq]. exfalso.
      destruct H as [[_ [_ Hops]]|[_ [_ Hops]]]; rewrite Hops in Heq.
      * rewrite app_assoc in Heq.
        apply Hend in Heq. discriminate.
      * change [OpRollback; OpFailed; OpRelease]
          with ([OpRollback] ++ [OpFailed; OpRelease]) in Heq.
        rewrite !app_assoc in Heq.
        apply Hend in Heq. discriminate.
    + intros Hacc. specialize (Hok Hacc).
      destruct H as [[Hr _]|[Hr _]]; rewrite Hr in Hok; discriminate.
Qed.





(** C8, as the code has it.  When validation of a submission of an
    administrator fails with a message, the answer is 400 with the
    story form, that message, and as values the submitted title,
    summary and body trimmed, the level trimmed and in upper case, and
    the questions as [parseStoryQuestions] reconstructs them; the
    message names the kind of failure; the database is as it was and
    every uploaded file is handed to [fs.unlink]. *)
Theorem refused_form_shows_trimmed_values (s : Session) (url : jsstring)
  (user : User) (body : Body) (files : list File) (d : Database)
  (msg : jsstring) :
  session_user s = Some user -> isAdmin (Some user) = true ->
  storyError (storyValues P body files) = Some msg ->
  let out := postStories P s url (UploadDone body files) d in
  reply out
  = Render 400
      (StoriesNewPage (Some msg)
         {| v_title := trim (orEmpty (field (lit "title") body));
            v_level :=
              toUpperCase P (trim (orEmpty (field (lit "level") body)));
            v_summary := trim (orEmpty (field (lit "summary") body));
            v_body := trim (orEmpty (field (lit "body") body));
            v_questions := parseStoryQuestions body files |})
  /\ (msg = MSG_REQUIRED \/ msg = MSG_LEVEL
      \/ msg = MSG_QUESTION_FIELDS \/ msg = MSG_QUESTION_CORRECT)
  /\ (storyFieldsInvalid (storyValues P body files) ->
      msg = MSG_REQUIRED \/ msg = MSG_LEVEL)
  /\ database out = d
  /\ unlinked out = List.map filepath files.
Proof.
  intros Hu Ha E. cbv zeta.
  rewrite (postStories_admin P s url _ d user Hu Ha).
  rewrite (storiesHandler_refused P user s body files d msg E).
  cbn [reply database unlinked].
  split; [reflexivity|].
  split; [eapply storyError_messages; eassumption|].
  split; [|auto].
  intros Hinv. revert E. unfold storyError.
  destruct (truthy (v_title _)) eqn:Ht; cbn [negb orb];
    [|intros [= <-]; auto].
  destruct (truthy (v_summary _)) eqn:Hs; cbn [negb orb];
    [|intros [= <-]; auto].
  destruct (truthy (v_body _)) eqn:Hb; cbn [negb orb];
    [|intros [= <-]; auto].
  destruct (includes STORY_LEVELS _) eqn:Hl; cbn [negb];
    [|intros [= <-]; auto].
  intros _. exfalso.
  destruct Hinv as [H|[H|[H|H]]].
  - apply truthy_false in H. congruence.
  - apply truthy_false in H. congruence.
  - apply truthy_false in H. congruence.
  - apply H, includes_In, Hl.
Qed.

End Authoring.

Lemma plainPlatform_acceptsAll : acceptsAll plainPlatform.
Proof. repeat split. Qed.

Lemma refused_submission_persists_nothing_witness :
  let out := postStories plainPlatform adminSession (lit "/stories")
               (UploadDone mondBody5 []) emptyDb in
  statusOf (reply out) = 400%N /\ database out = emptyDb.
Proof.
  pose proof (refused_submission_persists_nothing plainPlatform
                adminSession (lit "/stories") adminUser mondBody5 []
                emptyDb eq_refl eq_refl) as H.
  cbv zeta in H. destruct H as [H _].
  destruct H as [H1 [H2 _]].
  - right. apply Exists_cons_hd. right. right. simpl. right. reflexivity.
  - split; assumption.
Defined.

(** An insert rejected in the middle of the transaction: the story row
    written before it is gone again. *)
Example rejected_insert_rolls_back :
  let out := postStories refusingPlatform adminSession (lit "/stories")
               (UploadDone mondBody []) emptyDb in
  newOps emptyDb (database out)
  = [OpGetConnection; OpBeginTransaction; OpInsertStory 7;
     OpInsertRejected; OpRollback; OpRelease]
  /\ tables (database out) = noTables
  /\ statusOf (reply out) = 500%N
  /\ formError (reply out) = Some MSG_STORY_UNEXPECTED.
Proof. vm_compute. auto. Qed.

Lemma valid_submission_persists_story_and_questions_witness :
  let out := postStories plainPlatform adminSession (lit "/stories")
               (UploadDone mondBody []) emptyDb in
  reply out = Redirect (lit "/story/7")
  /\ List.map story_level (stories (tables (database out))) = [lit "A1"]
  /\ List.map (fun r => (question_story r, correct_index r, audio_path r))
       (questions (tables (database out)))
     = [(7%N, Some 2%Z, None)]
  /\ newOps emptyDb (database out)
     = [OpGetConnection; OpBeginTransaction; OpInsertStory 7;
        OpInsertQuestion 3; OpCommit; OpRelease].
Proof.
  pose proof (valid_submission_persists_story_and_questions plainPlatform
                adminSession (lit "/stories") adminUser mondBody []
                emptyDb eq_refl eq_refl) as H.
  cbv zeta in H.
  destruct H as [H [_ Hok]].
  - intros [H|[H|[H|H]]]; try discriminate H.
    apply H. vm_compute. auto.
  - repeat constructor; intros [H|[H|H]]; try discriminate H.
    + vm_compute in H. intuition discriminate.
    + vm_compute in H. intuition discriminate.
  - destruct (H (Hok plainPlatform_acceptsAll))
      as [H1 [H2 [H3 [_ [_ [_ [_ [_ [_ [_ H4]]]]]]]]]].
    split; [exact H1|]. split; [rewrite H2; reflexivity|].
    split; [rewrite H3; reflexivity|].
    rewrite H4. reflexivity.
Defined.


Lemma refused_form_shows_trimmed_values_witness :
  let out := postStories plainPlatform adminSession (lit "/stories")
               (UploadDone mondBody5 []) emptyDb in
  formError (reply out) = Some MSG_QUESTION_CORRECT
  /\ option_map v_level (formValues (reply out)) = Some (lit "A1")
  /\ database out = emptyDb.
Proof.
  pose proof (refused_form_shows_trimmed_values plainPlatform
                adminSession (lit "/stories") adminUser mondBody5 []
                emptyDb MSG_QUESTION_CORRECT eq_refl eq_refl eq_refl) as H.
  cbv zeta in H. destruct H as [H1 [_ [_ [H2 _]]]].
  cbv zeta. rewrite H1. split; [reflexivity|]. split; [reflexivity | exact H2].
Defined.

(** C8 as stated fails: the form comes back with the title trimmed,
    not as it was typed. *)
Lemma refused_form_trims_input :
  let out := postStories plainPlatform adminSession (lit "/stories")
               (UploadDone titleOnlyBody []) emptyDb in
  statusOf (reply out) = 400%N
  /\ field (lit "title") titleOnlyBody = Some (lit " Der Mond ")
  /\ option_map v_title (formValues (reply out)) = Some (lit "Der Mond")
  /\ option_map v_title (formValues (reply out))
     <> field (lit "title") titleOnlyBody.
Proof.
  vm_compute. repeat split; discriminate.
Qed.

(** The three scenarios of the specification. *)
Example scenario_saved :
  let out := postStories plainPlatform adminSession (lit "/stories")
               (UploadDone mondBody []) emptyDb in
  reply out = Redirect (lit "/story/7")
  /\ stories (tables (database out))
     = [ {| story_id := 7; story_title := lit "Der Mond";
            story_level := lit "A1"; story_summary := lit "S";
            story_body := lit "B"; story_author := 1;
            story_created := 100 |} ]
  /\ List.map (fun r => (question_story r, correct_index r, audio_path r))
       (questions (tables (database out)))
     = [(7%N, Some 2%Z, None)].
Proof. vm_compute. auto. Qed.

Example scenario_refused :
  let out := postStories plainPlatform adminSession (lit "/stories")
               (UploadDone mondBody5 []) emptyDb in
  statusOf (reply out) = 400%N
  /\ tables (database out) = noTables
  /\ option_map (fun v => (v_title v, v_summary v, v_body v))
       (formValues (reply out))
     = Some (lit "Der Mond", lit "S", lit "B").
Proof. vm_compute. auto. Qed.

Example scenario_admin_only :
  reply (postStories plainPlatform readerSession (lit "/stories/new")
           (UploadDone mondBody []) emptyDb)
  = Render 403 Error403Page
  /\ (let out := postStories plainPlatform anonymous (lit "/stories/new")
                   (UploadDone mondBody []) emptyDb in
      reply out = Redirect (lit "/login")
      /\ session_returnTo (session out) = Some (lit "/stories/new")
      /\ database out = emptyDb).
Proof. vm_compute. auto. Qed.

(** ** The question map *)

Lemma has_get (i : N) (m : QuestionMap) :
  has i m = match get i m with Some _ => true | None => false end.
Proof.
  induction m as [|[k q] r IH]; simpl; [reflexivity|].
  destruct (N.eqb k i); simpl; [reflexivity | exact IH].
Qed.

Lemma has_keys (i : N) (m : QuestionMap) :
  has i m = true <-> In i (List.map fst m).
Proof.
  induction m as [|[k q] r IH]; simpl; [split; [discriminate | tauto]|].
  rewrite orb_true_iff, N.eqb_eq, IH. tauto.
Qed.

Lemma get_app_new (k i : N) (q : Question) (m : QuestionMap) :
  get k (m ++ [(i, q)])
  = match get k m with
    | Some x => Some x
    | None => if N.eqb i k then Some q else None
    end.
Proof.
  induction m as [|[k' q'] r IH]; simpl; [reflexivity|].
  destruct (N.eqb k' k); [reflexivity | exact IH].
Qed.

Lemma get_modify (k i : N) (f : Question -> Question) (m : QuestionMap) :
  get k (modify i f m)
  = if N.eqb i k then option_map f (get k m) else get k m.
Proof.
  induction m as [|[k' q'] r IH]; simpl.
  - destruct (N.eqb i k); reflexivity.
  - destruct (N.eqb k' i) eqn:E1; simpl.
    + apply N.eqb_eq in E1. subst k'.
      destruct (N.eqb i k); reflexivity.
    + destruct (N.eqb k' k) eqn:E2.
      * apply N.eqb_eq in E2. subst k'.
        rewrite N.eqb_sym, E1. reflexivity.
      * exact IH.
Qed.

(** Reading the map after one write. *)
Lemma get_write (k i : N) (f : Question -> Question) (m : QuestionMap) :
  get k (modify i f (ensureQuestion i m))
  = if N.eqb i k then Some (f (getOrNew i m)) else get k m.
Proof.
  rewrite get_modify. unfold ensureQuestion, getOrNew.
  rewrite has_get.
  destruct (N.eqb i k) eqn:E.
  - apply N.eqb_eq in E. subst k.
    destruct (get i m) as [q|] eqn:G.
    + rewrite G. reflexivity.
    + rewrite get_app_new, G, N.eqb_refl. reflexivity.
  - destruct (get i m) as [q|] eqn:G; [reflexivity|].
    rewrite get_app_new, E. destruct (get k m); reflexivity.
Qed.

Lemma keys_modify (i : N) (f : Question -> Question) (m : QuestionMap) :
  List.map fst (modify i f m) = List.map fst m.
Proof.
  induction m as [|[k q] r IH]; simpl; [reflexivity|].
  destruct (N.eqb k i); simpl; [reflexivity | rewrite IH; reflexivity].
Qed.

Lemma modify_same (i : N) (m : QuestionMap) :
  modify i (fun q => q) m = m.
Proof.
  induction m as [|[k q] r IH]; simpl; [reflexivity|].
  destruct (N.eqb k i); [reflexivity | rewrite IH; reflexivity].
Qed.

Lemma keys_write (i : N) (f : Question -> Question) (m : QuestionMap) :
  NoDup (List.map fst m) ->
  NoDup (List.map fst (modify i f (ensureQuestion i m))).
Proof.
  intros H. rewrite keys_modify. unfold ensureQuestion.
  destruct (has i m) eqn:E; [assumption|].
  rewrite map_app. simpl.
  apply NoDup_app; [assumption | repeat constructor; auto |].
  intros x Hx [<-|[]].
  apply has_keys in Hx. congruence.
Qed.

Lemma In_get (k : N) (q : Question) (m : QuestionMap) :
  NoDup (List.map fst m) -> (In (k, q) m <-> get k m = Some q).
Proof.
  induction m as [|[k' q'] r IH]; simpl; intros Hnd.
  - split; [tauto | discriminate].
  - inversion Hnd as [|? ? Hnot Hnd']; subst.
    destruct (N.eqb k' k) eqn:E.
    + apply N.eqb_eq in E. subst k'. split.
      * intros [[= ->]|Hin]; [reflexivity|].
        exfalso. apply Hnot. apply in_map_iff.
        exists (k, q). auto.
      * intros [= ->]. auto.
    + apply N.eqb_neq in E. rewrite <- (IH Hnd'). split.
      * intros [[= -> ->]|Hin]; [congruence | assumption].
      * auto.
Qed.

(** A step of either loop, read through the slot of the field. *)
Lemma bodyStep_slot (m : QuestionMap) (name value : jsstring) :
  bodyStep m (name, value)
  = match bodySlot name with
    | Some s =>
        modify (slotIndex s) (slotWrite s value)
          (ensureQuestion (slotIndex s) m)
    | None => m
    end.
Proof.
  unfold bodyStep, bodySlot.
  destruct (promptMatch name) as [i|]; [reflexivity|].
  destruct (correctMatch name) as [i|]; [reflexivity|].
  destruct (answerMatch name) as [[i j]|]; [|reflexivity].
  simpl. destruct (j <? 4)%N; [reflexivity|].
  rewrite modify_same. reflexivity.
Qed.

Lemma bodyStep_keys (m : QuestionMap) (e : jsstring * jsstring) :
  NoDup (List.map fst m) -> NoDup (List.map fst (bodyStep m e)).
Proof.
  destruct e as [name value]. rewrite bodyStep_slot.
  destruct (bodySlot name); [apply keys_write | auto].
Qed.

Lemma fileStep_keys (m : QuestionMap) (f : File) :
  NoDup (List.map fst m) -> NoDup (List.map fst (fileStep m f)).
Proof.
  unfold fileStep. destruct (audioMatch _); [apply keys_write | auto].
Qed.

Lemma collect_keys (body : Body) (files : list File) :
  NoDup (List.map fst (collect body files)).
Proof.
  unfold collect.
  assert (Hb : forall b m, NoDup (List.map fst m) ->
                 NoDup (List.map fst (fold_left bodyStep b m))).
  { induction b as [|e b IH]; simpl; intros m Hm; [assumption|].
    apply IH, bodyStep_keys, Hm. }
  assert (Hf : forall fs m, NoDup (List.map fst m) ->
                 NoDup (List.map fst (fold_left fileStep fs m))).
  { induction fs as [|f fs IH]; simpl; intros m Hm; [assumption|].
    apply IH, fileStep_keys, Hm. }
  apply Hf, Hb. constructor.
Qed.

(** ** The order of the fields *)

Lemma sameEntries_write (i : N) (f : Question -> Question)
  (m m' : QuestionMap) :
  sameEntries m m' ->
  sameEntries (modify i f (ensureQuestion i m))
    (modify i f (ensureQuestion i m')).
Proof.
  intros H k. rewrite !get_write. unfold getOrNew.
  rewrite (H i), (H k). reflexivity.
Qed.

(** Two writes can change places when they go to different questions
    or when what they do to one question can. *)
Lemma write_swap (i j : N) (f g : Question -> Question) (m : QuestionMap) :
  (i = j -> forall q, f (g q) = g (f q)) ->
  sameEntries
    (modify i f (ensureQuestion i (modify j g (ensureQuestion j m))))
    (modify j g (ensureQuestion j (modify i f (ensureQuestion i m)))).
Proof.
  intros Hfg k. rewrite !get_write. unfold getOrNew.
  rewrite !get_write.
  destruct (N.eqb i k) eqn:Ei; destruct (N.eqb j k) eqn:Ej.
  - apply N.eqb_eq in Ei, Ej. subst i j.
    rewrite !N.eqb_refl. unfold getOrNew.
    rewrite Hfg by reflexivity. reflexivity.
  - apply N.eqb_eq in Ei. subst i. rewrite Ej. reflexivity.
  - apply N.eqb_eq in Ej. subst j. rewrite Ei. reflexivity.
  - reflexivity.
Qed.

Lemma setNth_swap {A : Type} (n n' : nat) (x y : A) (l : list A) :
  n <> n' -> setNth n x (setNth n' y l) = setNth n' y (setNth n x l).
Proof.
  revert n n'. induction l as [|a l IH]; intros [|n] [|n'] H; simpl;
    try reflexivity; try congruence.
  rewrite IH by congruence. reflexivity.
Qed.

Lemma slotWrite_swap (s s' : Slot) (v v' : jsstring) (q : Question) :
  s <> s' -> slotIndex s = slotIndex s' ->
  slotWrite s v (slotWrite s' v' q) = slotWrite s' v' (slotWrite s v q).
Proof.
  intros Hne Hi.
  destruct s as [i|i|i j]; destruct s' as [i'|i'|i' j']; simpl in *;
    subst; try congruence; try reflexivity;
    try (destruct (_ <? 4)%N; reflexivity).
  destruct (j <? 4)%N; destruct (j' <? 4)%N; try reflexivity.
  unfold setAnswer. simpl. f_equal.
  apply setNth_swap. intros E. apply N2Nat.inj in E. congruence.
Qed.

Lemma sameEntries_bodyStep (m m' : QuestionMap)
  (e : jsstring * jsstring) :
  sameEntries m m' -> sameEntries (bodyStep m e) (bodyStep m' e).
Proof.
  destruct e as [name value]. rewrite !bodyStep_slot.
  destruct (bodySlot name); [apply sameEntries_write | auto].
Qed.

Lemma sameEntries_fileStep (m m' : QuestionMap) (f : File) :
  sameEntries m m' -> sameEntries (fileStep m f) (fileStep m' f).
Proof.
  unfold fileStep.
  destruct (audioMatch _); [apply sameEntries_write | auto].
Qed.

Lemma sameEntries_trans (a b c : QuestionMap) :
  sameEntries a b -> sameEntries b c -> sameEntries a c.
Proof. intros H1 H2 k. rewrite (H1 k). apply H2. Qed.

Lemma sameEntries_fold_body (b : Body) (m m' : QuestionMap) :
  sameEntries m m' ->
  sameEntries (fold_left bodyStep b m) (fold_left bodyStep b m').
Proof.
  revert m m'. induction b as [|e b IH]; simpl; intros m m' H;
    [assumption|].
  apply IH, sameEntries_bodyStep, H.
Qed.

Lemma sameEntries_fold_files (fs : list File) (m m' : QuestionMap) :
  sameEntries m m' ->
  sameEntries (fold_left fileStep fs m) (fold_left fileStep fs m').
Proof.
  revert m m'. induction fs as [|f fs IH]; simpl; intros m m' H;
    [assumption|].
  apply IH, sameEntries_fileStep, H.
Qed.

Lemma bodyStep_swap (m : QuestionMap) (x y : jsstring * jsstring) :
  NoDup (bodySlots [x; y]) ->
  sameEntries (bodyStep (bodyStep m y) x) (bodyStep (bodyStep m x) y).
Proof.
  destruct x as [nx vx], y as [ny vy]. rewrite !bodyStep_slot.
  unfold bodySlots. cbn [flat_map fst app].
  destruct (bodySlot nx) as [sx|]; destruct (bodySlot ny) as [sy|];
    simpl; intros Hnd; try (intros k; reflexivity).
  apply write_swap. intros Hi q.
  apply slotWrite_swap; [|assumption].
  inversion Hnd as [|? ? Hnot _]; subst.
  intros ->. apply Hnot. left. reflexivity.
Qed.

Lemma fileStep_swap (m : QuestionMap) (x y : File) :
  NoDup (fileSlots [x; y]) ->
  sameEntries (fileStep (fileStep m y) x) (fileStep (fileStep m x) y).
Proof.
  unfold fileSlots, fileStep. cbn [flat_map app].
  destruct (audioMatch (fieldname x)) as [i|];
    destruct (audioMatch (fieldname y)) as [j|];
    simpl; intros Hnd; try (intros k; reflexivity).
  apply write_swap. intros ->. exfalso.
  inversion Hnd as [|? ? Hnot _]; subst.
  apply Hnot. left. reflexivity.
Qed.

Lemma bodySlots_cons (e : jsstring * jsstring) (b : Body) :
  bodySlots (e :: b) = bodySlots [e] ++ bodySlots b.
Proof. unfold bodySlots. simpl. rewrite app_nil_r. reflexivity. Qed.

Lemma fileSlots_cons (f : File) (fs : list File) :
  fileSlots (f :: fs) = fileSlots [f] ++ fileSlots fs.
Proof. unfold fileSlots. simpl. rewrite app_nil_r. reflexivity. Qed.

Lemma NoDup_app_l {A : Type} (l l' : list A) :
  NoDup (l ++ l') -> NoDup l.
Proof.
  induction l as [|a l IH]; simpl; intros H; [constructor|].
  inversion H as [|? ? Hnot Hnd]; subst. constructor.
  - intros Hin. apply Hnot, in_or_app. left. assumption.
  - apply IH, Hnd.
Qed.

Lemma NoDup_app_r {A : Type} (l l' : list A) :
  NoDup (l ++ l') -> NoDup l'.
Proof.
  induction l as [|a l IH]; simpl; intros H; [assumption|].
  inversion H; subst. auto.
Qed.

(** The map after the loop over the body does not depend on the order
    of the fields, as long as no two of them write to the same slot. *)
Lemma fold_body_perm (b b' : Body) :
  Permutation b b' -> NoDup (bodySlots b) ->
  forall m m', sameEntries m m' ->
    sameEntries (fold_left bodyStep b m) (fold_left bodyStep b' m').
Proof.
  induction 1 as [|x l l' Hp IH|x y l|l l' l'' Hp1 IH1 Hp2 IH2];
    intros Hnd m m' Hm.
  - exact Hm.
  - simpl. rewrite bodySlots_cons in Hnd.
    apply IH; [eapply NoDup_app_r; eassumption|].
    apply sameEntries_bodyStep, Hm.
  - simpl.
    eapply sameEntries_trans;
      [| apply sameEntries_fold_body, bodyStep_swap].
    + apply sameEntries_fold_body.
      apply sameEntries_bodyStep, sameEntries_bodyStep, Hm.
    + rewrite (bodySlots_cons y), (bodySlots_cons x), app_assoc in Hnd.
      apply NoDup_app_l in Hnd.
      rewrite (bodySlots_cons x).
      eapply Permutation_NoDup; [|exact Hnd].
      apply Permutation_app_comm.
  - eapply sameEntries_trans; [apply IH1; eassumption|].
    apply IH2; [|intros k; reflexivity].
    eapply Permutation_NoDup; [|exact Hnd].
    unfold bodySlots. apply Permutation_flat_map, Hp1.
Qed.

Lemma fold_files_perm (fs fs' : list File) :
  Permutation fs fs' -> NoDup (fileSlots fs) ->
  forall m m', sameEntries m m' ->
    sameEntries (fold_left fileStep fs m) (fold_left fileStep fs' m').
Proof.
  induction 1 as [|x l l' Hp IH|x y l|l l' l'' Hp1 IH1 Hp2 IH2];
    intros Hnd m m' Hm.
  - exact Hm.
  - simpl. rewrite fileSlots_cons in Hnd.
    apply IH; [eapply NoDup_app_r; eassumption|].
    apply sameEntries_fileStep, Hm.
  - simpl.
    eapply sameEntries_trans;
      [| apply sameEntries_fold_files, fileStep_swap].
    + apply sameEntries_fold_files.
      apply sameEntries_fileStep, sameEntries_fileStep, Hm.
    + rewrite (fileSlots_cons y), (fileSlots_cons x), app_assoc in Hnd.
      apply NoDup_app_l in Hnd.
      rewrite (fileSlots_cons x).
      eapply Permutation_NoDup; [|exact Hnd].
      apply Permutation_app_comm.
  - eapply sameEntries_trans; [apply IH1; eassumption|].
    apply IH2; [|intros k; reflexivity].
    eapply Permutation_NoDup; [|exact Hnd].
    unfold fileSlots. apply Permutation_flat_map, Hp1.
Qed.

(** ** The sorted candidates *)

Lemma byIndex_total (a b : N * Question) :
  byIndex a b = false -> byIndex b a = true.
Proof.
  unfold byIndex. intros H. apply N.leb_gt in H. apply N.leb_le. lia.
Qed.

Lemma byIndex_trans (a b c : N * Question) :
  byIndex a b = true -> byIndex b c = true -> byIndex a c = true.
Proof.
  unfold byIndex. intros H1 H2. apply N.leb_le in H1, H2.
  apply N.leb_le. lia.
Qed.

(** Sorting a map whose keys are distinct puts the keys in strictly
    ascending order. *)
Lemma sortBy_byIndex_strict (m : QuestionMap) :
  NoDup (List.map fst m) ->
  StronglySorted (fun a b => (fst a < fst b)%N) (sortBy byIndex m).
Proof.
  intros Hnd.
  assert (Hnd' : NoDup (List.map fst (sortBy byIndex m))).
  { eapply Permutation_NoDup; [|exact Hnd].
    apply Permutation_map, Permutation_sym, sortBy_perm. }
  pose proof (sortBy_sorted byIndex byIndex_total byIndex_trans m) as Hs.
  induction Hs as [|x r Hs IH Hall]; [constructor|].
  simpl in Hnd'. inversion Hnd' as [|? ? Hnot Hr]; subst.
  constructor; [apply IH, Hr|].
  rewrite Forall_forall in *. intros y Hy.
  specialize (Hall y Hy). unfold byIndex in Hall. apply N.leb_le in Hall.
  assert (fst x <> fst y).
  { intros E. apply Hnot. rewrite E. apply in_map, Hy. }
  lia.
Qed.

(** Two strictly ascending lists with the same elements are equal. *)
Lemma strictly_sorted_unique (l l' : QuestionMap) :
  StronglySorted (fun a b => (fst a < fst b)%N) l ->
  StronglySorted (fun a b => (fst a < fst b)%N) l' ->
  Permutation l l' -> l = l'.
Proof.
  intros Hs. revert l'.
  induction Hs as [|x r Hs IH Hall]; intros l' Hs' Hp.
  - apply Permutation_nil in Hp. subst. reflexivity.
  - destruct Hs' as [|y r' Hs' Hall'].
    + apply Permutation_sym, Permutation_nil in Hp. discriminate.
    + assert (E : x = y).
      { assert (Hx : In x (y :: r'))
          by (eapply Permutation_in; [exact Hp | left; reflexivity]).
        assert (Hy : In y (x :: r))
          by (eapply Permutation_in;
              [apply Permutation_sym; exact Hp | left; reflexivity]).
        destruct Hx as [Hx|Hx]; [congruence|].
        destruct Hy as [Hy|Hy]; [congruence|].
        rewrite Forall_forall in Hall, Hall'.
        specialize (Hall y Hy). specialize (Hall' x Hx). lia. }
      subst y. f_equal. apply IH; [assumption|].
      eapply Permutation_cons_inv; eassumption.
Qed.

Lemma sameEntries_perm (m m' : QuestionMap) :
  NoDup (List.map fst m) -> NoDup (List.map fst m') ->
  sameEntries m m' -> Permutation m m'.
Proof.
  intros Hm Hm' H.
  apply NoDup_Permutation.
  - eapply NoDup_map_inv; eassumption.
  - eapply NoDup_map_inv; eassumption.
  - intros [k q]. rewrite (In_get k q m Hm), (In_get k q m' Hm'), (H k).
    tauto.
Qed.

Lemma sameEntries_sort (m m' : QuestionMap) :
  NoDup (List.map fst m) -> NoDup (List.map fst m') ->
  sameEntries m m' -> sortBy byIndex m = sortBy byIndex m'.
Proof.
  intros Hm Hm' H.
  apply strictly_sorted_unique; try (apply sortBy_byIndex_strict; assumption).
  rewrite (sortBy_perm byIndex m).
  rewrite (sortBy_perm byIndex m').
  apply sameEntries_perm; assumption.
Qed.

Lemma candidates_strict (body : Body) (files : list File) :
  StronglySorted (fun a b => (fst a < fst b)%N) (candidates body files).
Proof. apply sortBy_byIndex_strict, collect_keys. Qed.

(** The candidates do not depend on the order of the fields and of the
    files when no two fields and no two files write to the same slot. *)
Lemma candidates_perm (body body' : Body) (files files' : list File) :
  Permutation body body' -> Permutation files files' ->
  NoDup (bodySlots body) -> NoDup (fileSlots files) ->
  candidates body files = candidates body' files'.
Proof.
  intros Hb Hf Hnb Hnf. unfold candidates.
  apply sameEntries_sort; try apply collect_keys.
  unfold collect.
  apply fold_files_perm; try assumption.
  apply fold_body_perm; try assumption.
  intros k; reflexivity.
Qed.

(** A field or a file whose name matches no pattern changes nothing. *)
Lemma collect_unmatched_field (b1 b2 : Body) (e : jsstring * jsstring)
  (files : list File) :
  bodySlot (fst e) = None ->
  collect (b1 ++ e :: b2) files = collect (b1 ++ b2) files.
Proof.
  intros H. unfold collect. rewrite !fold_left_app. simpl.
  destruct e as [name value]. rewrite bodyStep_slot.
  simpl in H. rewrite H. reflexivity.
Qed.

Lemma collect_unmatched_file (body : Body) (f1 f2 : list File) (x : File) :
  audioMatch (fieldname x) = None ->
  collect body (f1 ++ x :: f2) = collect body (f1 ++ f2).
Proof.
  intros H. unfold collect. rewrite !fold_left_app. simpl.
  unfold fileStep at 2. rewrite H. reflexivity.
Qed.

(** ** Gaps between the indices *)

Section Reindexing.

Variable f : N -> N.
Hypothesis f_increasing : increasing f.

Lemma increasing_inj (i j : N) : f i = f j -> i = j.
Proof.
  intros E. destruct (N.lt_trichotomy i j) as [H|[H|H]]; [|assumption|].
  - apply f_increasing in H. lia.
  - apply f_increasing in H. lia.
Qed.

Lemma increasing_eqb (i j : N) : N.eqb (f i) (f j) = N.eqb i j.
Proof.
  destruct (N.eqb_spec i j) as [->|H]; [apply N.eqb_refl|].
  apply N.eqb_neq. intros E. apply H, increasing_inj, E.
Qed.

Lemma increasing_leb (i j : N) : N.leb (f i) (f j) = N.leb i j.
Proof.
  destruct (N.leb_spec i j) as [H|H].
  - apply N.leb_le. destruct (N.eq_dec i j) as [->|Hne]; [lia|].
    assert (Hlt : (i < j)%N) by lia. apply f_increasing in Hlt. lia.
  - apply N.leb_gt. apply f_increasing, H.
Qed.

Lemma has_similar (i : N) (m m' : QuestionMap) :
  Forall2 (similar f) m m' -> has (f i) m' = has i m.
Proof.
  induction 1 as [|[k q] [k' q'] m m' [Hk _] _ IH]; simpl;
    [reflexivity|].
  simpl in Hk. subst k'. rewrite increasing_eqb, IH. reflexivity.
Qed.

Lemma ensure_similar (i : N) (m m' : QuestionMap) :
  Forall2 (similar f) m m' ->
  Forall2 (similar f) (ensureQuestion i m) (ensureQuestion (f i) m').
Proof.
  intros H. unfold ensureQuestion. rewrite (has_similar i m m' H).
  destruct (has i m); [assumption|].
  apply Forall2_app; [assumption|].
  constructor; [|constructor]. split; reflexivity.
Qed.

Lemma modify_similar (i : N) (g g' : Question -> Question)
  (m m' : QuestionMap) :
  (forall q q', content q' = content q ->
                content (g' q') = content (g q)) ->
  Forall2 (similar f) m m' ->
  Forall2 (similar f) (modify i g m) (modify (f i) g' m').
Proof.
  intros Hg. induction 1 as [|[k q] [k' q'] m m' [Hk Hc] Hr IH]; simpl;
    [constructor|].
  simpl in Hk, Hc. subst k'. rewrite increasing_eqb.
  destruct (N.eqb k i).
  - constructor; [|assumption]. split; [reflexivity|].
    simpl. apply Hg, Hc.
  - constructor; [|assumption]. split; [reflexivity | exact Hc].
Qed.

Lemma slotWrite_content (s : Slot) (v : jsstring) (q q' : Question) :
  content q' = content q ->
  content (slotWrite (moveSlot f s) v q') = content (slotWrite s v q).
Proof.
  unfold content. intros [= Hp Ha Hc Hf].
  destruct s as [i|i|i j]; simpl;
    try (destruct (j <? 4)%N; simpl); congruence.
Qed.

Lemma bodyStep_similar (m m' : QuestionMap) (e e' : jsstring * jsstring) :
  reindexedEntry f e e' -> Forall2 (similar f) m m' ->
  Forall2 (similar f) (bodyStep m e) (bodyStep m' e').
Proof.
  destruct e as [name v], e' as [name' v']. intros [Hv Hs] Hm.
  simpl in Hv, Hs. subst v'. rewrite !bodyStep_slot, Hs.
  destruct (bodySlot name) as [s|]; simpl; [|assumption].
  replace (slotIndex (moveSlot f s)) with (f (slotIndex s))
    by (destruct s; reflexivity).
  apply modify_similar; [|apply ensure_similar, Hm].
  intros q q'. apply slotWrite_content.
Qed.

Lemma fileStep_similar (m m' : QuestionMap) (x x' : File) :
  reindexedFile f x x' -> Forall2 (similar f) m m' ->
  Forall2 (similar f) (fileStep m x) (fileStep m' x').
Proof.
  intros [Hn Hs] Hm. unfold fileStep. rewrite Hs.
  destruct (audioMatch (fieldname x)) as [i|]; simpl; [|assumption].
  apply modify_similar; [|apply ensure_similar, Hm].
  unfold content. simpl. intros q q' [= Hp Ha Hc _]. congruence.
Qed.

Lemma collect_similar (body body' : Body) (files files' : list File) :
  Forall2 (reindexedEntry f) body body' ->
  Forall2 (reindexedFile f) files files' ->
  Forall2 (similar f) (collect body files) (collect body' files').
Proof.
  intros Hb Hf. unfold collect.
  assert (H1 : forall m m', Forall2 (similar f) m m' ->
             Forall2 (similar f) (fold_left bodyStep body m)
               (fold_left bodyStep body' m')).
  { induction Hb as [|e e' b b' He _ IH]; simpl; intros m m' Hm;
      [assumption|].
    apply IH, bodyStep_similar; assumption. }
  assert (H2 : forall m m', Forall2 (similar f) m m' ->
             Forall2 (similar f) (fold_left fileStep files m)
               (fold_left fileStep files' m')).
  { induction Hf as [|x x' l l' Hx _ IH]; simpl; intros m m' Hm;
      [assumption|].
    apply IH, fileStep_similar; assumption. }
  apply H2, H1. constructor.
Qed.

Lemma insertSorted_similar (x x' : N * Question) (l l' : QuestionMap) :
  similar f x x' -> Forall2 (similar f) l l' ->
  Forall2 (similar f) (insertSorted byIndex x l)
    (insertSorted byIndex x' l').
Proof.
  intros Hx. induction 1 as [|y y' l l' Hy Hl IH]; simpl.
  - constructor; [assumption | constructor].
  - assert (E : byIndex x' y' = byIndex x y).
    { unfold byIndex. destruct Hx as [-> _], Hy as [-> _].
      apply increasing_leb. }
    rewrite E. destruct (byIndex x y).
    + constructor; [assumption|]. constructor; assumption.
    + constructor; assumption.
Qed.

Lemma sortBy_similar (l l' : QuestionMap) :
  Forall2 (similar f) l l' ->
  Forall2 (similar f) (sortBy byIndex l) (sortBy byIndex l').
Proof.
  induction 1 as [|x x' l l' Hx Hl IH]; simpl; [constructor|].
  apply insertSorted_similar; assumption.
Qed.

Lemma keepQuestion_content (q q' : Question) :
  content q' = content q -> keepQuestion q' = keepQuestion q.
Proof.
  unfold content, keepQuestion. intros [= Hp Ha _ _].
  rewrite Hp, Ha. reflexivity.
Qed.

(** Moving the indices by an increasing function leaves the content of
    the parsed questions as it is. *)
Lemma parse_reindexed (body body' : Body) (files files' : list File) :
  Forall2 (reindexedEntry f) body body' ->
  Forall2 (reindexedFile f) files files' ->
  List.map content (parseStoryQuestions body' files')
  = List.map content (parseStoryQuestions body files).
Proof.
  intros Hb Hf. unfold parseStoryQuestions, candidates.
  pose proof (sortBy_similar _ _ (collect_similar _ _ _ _ Hb Hf)) as H.
  induction H as [|[k q] [k' q'] l l' [_ Hc] _ IH]; simpl;
    [reflexivity|].
  simpl in Hc. rewrite (keepQuestion_content q q' Hc).
  destruct (keepQuestion q); simpl; [rewrite Hc, IH | rewrite IH];
    reflexivity.
Qed.

End Reindexing.

(** ** Which names match *)

Lemma stripPrefix_spec (p s r : jsstring) :
  stripPrefix p s = Some r -> s = p ++ r.
Proof.
  revert s. induction p as [|x p IH]; intros [|y s]; simpl;
    try discriminate; try (intros [= ->]; reflexivity).
  destruct (N.eqb_spec x y) as [->|]; [|discriminate].
  intros H. rewrite (IH _ H). reflexivity.
Qed.

Lemma spanDigits_spec (s : jsstring) :
  s = fst (spanDigits s) ++ snd (spanDigits s)
  /\ forallb isDigit (fst (spanDigits s)) = true.
Proof.
  induction s as [|c t [IH1 IH2]]; simpl; [auto|].
  destruct (isDigit c) eqn:E; [|auto].
  destruct (spanDigits t) as [d r]. simpl in *.
  rewrite E, IH2. split; [congruence | reflexivity].
Qed.

(** A name the common head of the patterns accepts is
    ["questions["], a non-empty run of decimal digits whose value is
    the index, and the rest. *)
Lemma matchIndex_spec (name rest : jsstring) (i : N) :
  matchIndex name = Some (i, rest) ->
  exists ds, name = lit "questions[" ++ ds ++ rest
             /\ ds <> [] /\ forallb isDigit ds = true
             /\ toNumber (digitsValue ds) = i.
Proof.
  unfold matchIndex.
  destruct (stripPrefix (lit "questions[") name) as [r|] eqn:E;
    [|discriminate].
  apply stripPrefix_spec in E.
  pose proof (spanDigits_spec r) as [H1 H2].
  destruct (spanDigits r) as [[|c ds] rest']; [discriminate|].
  intros [= <- <-]. simpl in H1, H2.
  exists (c :: ds). repeat split; try assumption; try discriminate.
  rewrite E, H1. reflexivity.
Qed.

Lemma bodySlot_spec (name : jsstring) (s : Slot) :
  bodySlot name = Some s ->
  exists ds rest, name = lit "questions[" ++ ds ++ lit "]" ++ rest
                  /\ ds <> [] /\ forallb isDigit ds = true
                  /\ toNumber (digitsValue ds) = slotIndex s.
Proof.
  assert (Hm : forall tail i, matchIndexed (lit "]" ++ tail) name = Some i ->
             exists ds rest, name = lit "questions[" ++ ds ++ lit "]" ++ rest
                  /\ ds <> [] /\ forallb isDigit ds = true
                  /\ toNumber (digitsValue ds) = i).
  { intros tail i. unfold matchIndexed.
    destruct (matchIndex name) as [[k rest]|] eqn:E; [|discriminate].
    destruct (str_eqb rest (lit "]" ++ tail)) eqn:Er; [|discriminate].
    intros [= <-]. apply str_eqb_eq in Er. subst rest.
    destruct (matchIndex_spec _ _ _ E) as [ds [H1 [H2 [H3 H4]]]].
    exists ds, tail. auto. }
  unfold bodySlot.
  destruct (promptMatch name) as [i|] eqn:Ep.
  { intros [= <-]. apply (Hm (lit "[prompt]")), Ep. }
  destruct (correctMatch name) as [i|] eqn:Ec.
  { intros [= <-]. apply (Hm (lit "[correctIndex]")), Ec. }
  destruct (answerMatch name) as [[i j]|] eqn:Ea; [|discriminate].
  intros [= <-]. simpl. unfold answerMatch in Ea.
  destruct (matchIndex name) as [[k rest]|] eqn:E; [|discriminate].
  destruct (stripPrefix (lit "][answers][") rest) as [r|] eqn:Es;
    [|discriminate].
  apply stripPrefix_spec in Es.
  destruct (spanDigits r) as [[|c ds'] rest']; [discriminate|].
  destruct (str_eqb rest' (lit "]")); [|discriminate].
  injection Ea as <- _.
  destruct (matchIndex_spec _ _ _ E) as [ds [H1 [H2 [H3 H4]]]].
  exists ds, (lit "[answers][" ++ r). subst rest. auto.
Qed.

Lemma stripPrefix_app (p r : jsstring) : stripPrefix p (p ++ r) = Some r.
Proof.
  induction p as [|x p IH]; simpl; [reflexivity|].
  rewrite N.eqb_refl. exact IH.
Qed.

Lemma spanDigits_app (ds : jsstring) (c : N) (rest : jsstring) :
  forallb isDigit ds = true -> isDigit c = false ->
  spanDigits (ds ++ c :: rest) = (ds, c :: rest).
Proof.
  intros Hd Hc. induction ds as [|x ds IH]; simpl in *.
  - rewrite Hc. reflexivity.
  - apply andb_true_iff in Hd as [Hx Hd]. rewrite Hx, (IH Hd). reflexivity.
Qed.

(** The names a pattern with one index accepts, when what follows the
    digits does not begin with a digit. *)
Lemma matchIndexed_iff (c : N) (tail name : jsstring) (i : N) :
  isDigit c = false ->
  matchIndexed (c :: tail) name = Some i <->
  exists ds, name = lit "questions[" ++ ds ++ c :: tail
             /\ ds <> [] /\ forallb isDigit ds = true
             /\ toNumber (digitsValue ds) = i.
Proof.
  intros Hc. split.
  - unfold matchIndexed.
    destruct (matchIndex name) as [[k rest]|] eqn:E; [|discriminate].
    destruct (str_eqb rest (c :: tail)) eqn:Er; [|discriminate].
    intros [= <-]. apply str_eqb_eq in Er. subst rest.
    exact (matchIndex_spec _ _ _ E).
  - intros [ds [-> [Hne [Hd <-]]]]. unfold matchIndexed, matchIndex.
    rewrite stripPrefix_app, (spanDigits_app _ _ _ Hd Hc).
    destruct ds as [|x ds]; [contradiction|].
    rewrite str_eqb_refl. reflexivity.
Qed.

Lemma audioMatch_iff (name : jsstring) (i : N) :
  audioMatch name = Some i <-> recordingOf i name.
Proof. apply (matchIndexed_iff 93 (lit "[audio]")). reflexivity. Qed.

Lemma bodySlot_correct (name : jsstring) (i : N) :
  bodySlot name = Some (CorrectOf i) -> correctMatch name = Some i.
Proof.
  unfold bodySlot.
  destruct (promptMatch name); [discriminate|].
  destruct (correctMatch name); [congruence|].
  destruct (answerMatch name) as [[? ?]|]; discriminate.
Qed.

Example names_that_do_not_match :
  List.map bodySlot
    [ lit "questions[x][prompt]"; lit "questions[][prompt]";
      lit "questions[-1][prompt]"; lit "questions[1.5][prompt]";
      lit "questions[1][prompt] "; lit "Questions[1][prompt]";
      lit "questions[1][answers][a]"; lit "title" ]
  = [None; None; None; None; None; None; None; None].
Proof. reflexivity. Qed.

Example names_that_match :
  List.map bodySlot
    [ lit "questions[0][prompt]"; lit "questions[12][correctIndex]";
      lit "questions[007][answers][3]"; lit "questions[2][answers][9]" ]
  = [ Some (PromptOf 0); Some (CorrectOf 12); Some (AnswerOf 7 3);
      Some (AnswerOf 2 9) ].
Proof. reflexivity. Qed.

(** The indices of the candidates are those the matching fields and
    files name. *)
Lemma keys_write_In (k i : N) (g : Question -> Question) (m : QuestionMap) :
  In k (List.map fst (modify i g (ensureQuestion i m)))
  <-> k = i \/ In k (List.map fst m).
Proof.
  rewrite keys_modify. unfold ensureQuestion.
  destruct (has i m) eqn:E.
  - apply has_keys in E. split; [auto|]. intros [->|H]; assumption.
  - rewrite map_app, in_app_iff. simpl. intuition congruence.
Qed.

Lemma collect_indices (body : Body) (files : list File) (k : N) :
  In k (List.map fst (collect body files))
  <-> In k (List.map slotIndex (bodySlots body)) \/ In k (fileSlots files).
Proof.
  unfold collect.
  assert (Hb : forall b m,
             In k (List.map fst (fold_left bodyStep b m))
             <-> In k (List.map fst m)
                 \/ In k (List.map slotIndex (bodySlots b))).
  { induction b as [|[name v] b IH]; intros m; [simpl; tauto|].
    cbn [fold_left].
    rewrite IH, bodyStep_slot, bodySlots_cons, map_app, in_app_iff.
    replace (bodySlots [(name, v)])
      with (match bodySlot name with Some s => [s] | None => [] end)
      by (unfold bodySlots; simpl; rewrite app_nil_r; reflexivity).
    destruct (bodySlot name) as [s|]; simpl; [|tauto].
    rewrite keys_write_In. intuition congruence. }
  assert (Hf : forall fs m,
             In k (List.map fst (fold_left fileStep fs m))
             <-> In k (List.map fst m) \/ In k (fileSlots fs)).
  { induction fs as [|x fs IH]; intros m; [simpl; tauto|].
    cbn [fold_left].
    rewrite IH, fileSlots_cons, in_app_iff.
    replace (fileSlots [x])
      with (match audioMatch (fieldname x) with
            | Some i => [i]
            | None => []
            end)
      by (unfold fileSlots; simpl; rewrite app_nil_r; reflexivity).
    unfold fileStep.
    destruct (audioMatch (fieldname x)) as [i|]; simpl; [|tauto].
    rewrite keys_write_In. intuition congruence. }
  rewrite Hf, Hb. simpl. tauto.
Qed.

(** ** parseStoryQuestions *)

(** C3, as the code has it.  The parsed questions are the candidates
    that are not blank, and the candidates are in strictly ascending
    order of their index, one for each index that a matching field or
    file names.  A name matches only if it starts with ["questions["],
    a non-empty run of decimal digits and ["]"], and then the index is
    the Number value of the digits; a field or file whose name matches
    no pattern can be left out.  The result does not
    depend on the order of the fields and of the files, provided no two
    fields and no two files write to the same slot of the same
    question.  Moving the indices by an increasing function (widening
    or closing gaps) leaves the content of the result as it is. *)
Theorem parse_order_and_gaps (body : Body) (files : list File) :
  (parseStoryQuestions body files
   = filter keepQuestion (List.map snd (candidates body files))
   /\ StronglySorted (fun a b => (fst a < fst b)%N) (candidates body files)
   /\ (forall i, In i (List.map fst (candidates body files))
                 <-> In i (List.map slotIndex (bodySlots body))
                     \/ In i (fileSlots files)))
  /\ (forall name s, bodySlot name = Some s ->
        exists ds rest,
          name = lit "questions[" ++ ds ++ lit "]" ++ rest
          /\ ds <> [] /\ forallb isDigit ds = true
          /\ toNumber (digitsValue ds) = slotIndex s)
  /\ (forall b1 e b2, body = b1 ++ e :: b2 -> bodySlot (fst e) = None ->
        parseStoryQuestions body files
        = parseStoryQuestions (b1 ++ b2) files)
  /\ (forall f1 x f2, files = f1 ++ x :: f2 ->
        audioMatch (fieldname x) = None ->
        parseStoryQuestions body files
        = parseStoryQuestions body (f1 ++ f2))
  /\ (forall body' files',
        Permutation body body' -> Permutation files files' ->
        NoDup (bodySlots body) -> NoDup (fileSlots files) ->
        parseStoryQuestions body' files' = parseStoryQuestions body files)
  /\ (forall f body' files', increasing f ->
        Forall2 (reindexedEntry f) body body' ->
        Forall2 (reindexedFile f) files files' ->
        List.map content (parseStoryQuestions body' files')
        = List.map content (parseStoryQuestions body files)).
Proof.
  split; [split; [reflexivity | split]|].
  - apply candidates_strict.
  - intros i. rewrite <- collect_indices. unfold candidates. split.
    + apply Permutation_in, Permutation_map, sortBy_perm.
    + apply Permutation_in, Permutation_map, Permutation_sym, sortBy_perm.
  - split; [exact bodySlot_spec|].
    split; [|split; [|split]].
    + intros b1 e b2 -> H. unfold parseStoryQuestions, candidates.
      rewrite (collect_unmatched_field b1 b2 e files H). reflexivity.
    + intros f1 x f2 -> H. unfold parseStoryQuestions, candidates.
      rewrite (collect_unmatched_file body f1 f2 x H). reflexivity.
    + intros body' files' Hb Hf Hnb Hnf. unfold parseStoryQuestions.
      rewrite (candidates_perm body body' files files' Hb Hf Hnb Hnf).
      reflexivity.
    + intros f body' files' Hinc Hb Hf.
      apply (parse_reindexed f Hinc body body' files files' Hb Hf).
Qed.

Lemma spread_increasing : increasing spread.
Proof.
  intros i j H. unfold spread.
  destruct (N.ltb_spec i 1); destruct (N.ltb_spec j 1);
    destruct (N.ltb_spec i 2); destruct (N.ltb_spec j 2); lia.
Qed.

(** The fields of questions 2, 0 and 5: read in the reverse order they
    give the same questions, and so do the fields of questions 1, 0
    and 2. *)
Lemma parse_order_and_gaps_witness :
  parseStoryQuestions (rev scatteredBody) []
  = parseStoryQuestions scatteredBody []
  /\ List.map content (parseStoryQuestions scatteredBody [])
     = List.map content (parseStoryQuestions denseBody []).
Proof.
  pose proof (parse_order_and_gaps scatteredBody [])
    as [_ [_ [_ [_ [Hperm _]]]]].
  pose proof (parse_order_and_gaps denseBody [])
    as [_ [_ [_ [_ [_ Hgap]]]]].
  split.
  - apply Hperm.
    + apply Permutation_rev.
    + constructor.
    + change (NoDup [PromptOf 2; PromptOf 0; PromptOf 5]).
      repeat constructor; simpl; intuition discriminate.
    + constructor.
  - apply (Hgap spread).
    + exact spread_increasing.
    + repeat constructor.
    + constructor.
Defined.

Example scattered_indices_in_order :
  List.map fst (candidates scatteredBody []) = [0; 2; 5]%N
  /\ List.map prompt (parseStoryQuestions scatteredBody [])
     = [lit "null"; lit "zwei"; lit "fuenf"].
Proof. split; reflexivity. Qed.

(** C3 as stated fails: two fields that name the prompt of the same
    question overwrite each other, and the later one stays. *)
Lemma aliased_fields_depend_on_order :
  Permutation aliasBody (rev aliasBody)
  /\ List.map prompt (parseStoryQuestions aliasBody []) = [lit "B"]
  /\ List.map prompt (parseStoryQuestions (rev aliasBody) []) = [lit "A"]
  /\ parseStoryQuestions aliasBody []
     <> parseStoryQuestions (rev aliasBody) [].
Proof.
  split; [apply Permutation_rev|].
  split; [reflexivity|]. split; [reflexivity|].
  intros H. apply (f_equal (List.map prompt)) in H.
  vm_compute in H. discriminate.
Qed.

(** Indices that differ as integers and are the same number are one
    question too: 2^53 + 1 is no double, and [Number.parseInt] makes
    2^53 of it.  The two prompts write to the same question and the
    later one stays; the fields of such a body do not write to
    distinct slots. *)
Example rounded_indices_collide :
  bodySlots roundedBody
  = [PromptOf 9007199254740992; PromptOf 9007199254740992]
  /\ List.map fst (candidates roundedBody []) = [9007199254740992%N]
  /\ List.map prompt (parseStoryQuestions roundedBody []) = [lit "B"]
  /\ List.map prompt (parseStoryQuestions (rev roundedBody) []) = [lit "A"].
Proof. repeat split. Qed.

(** ** Blank rows and the default correct index *)

Lemma keepQuestion_blank (q : Question) :
  keepQuestion q = false <-> blank q.
Proof.
  unfold keepQuestion, blank.
  rewrite orb_false_iff, truthy_false.
  assert (H : existsb truthy (answers q) = false
              <-> Forall (fun a => a = []) (answers q)).
  { induction (answers q) as [|a l IH]; simpl.
    - split; [constructor | reflexivity].
    - rewrite orb_false_iff, truthy_false, IH. split.
      + intros [H1 H2]. constructor; assumption.
      + intros H. inversion H; auto. }
  rewrite H. tauto.
Qed.

Lemma not_blank (q : Question) :
  ~ blank q <-> prompt q <> [] \/ exists a, In a (answers q) /\ a <> [].
Proof.
  rewrite <- keepQuestion_blank. unfold keepQuestion.
  destruct (truthy (prompt q)) eqn:Hp; simpl.
  - apply truthy_true in Hp. split; [auto | discriminate].
  - apply truthy_false in Hp.
    destruct (existsb truthy (answers q)) eqn:Ha.
    + split; [|discriminate]. intros _. right.
      apply existsb_exists in Ha. destruct Ha as [a [Hin Ht]].
      exists a. split; [assumption | apply truthy_true, Ht].
    + split; [congruence|]. intros [H|[a [Hin Hne]]]; [contradiction|].
      exfalso. apply truthy_true in Hne.
      assert (existsb truthy (answers q) = true)
        by (apply existsb_exists; eauto).
      congruence.
Qed.

Lemma parse_In (body : Body) (files : list File) (q : Question) :
  In q (parseStoryQuestions body files)
  <-> exists i, In (i, q) (candidates body files) /\ ~ blank q.
Proof.
  unfold parseStoryQuestions.
  rewrite filter_In, in_map_iff.
  pose proof (keepQuestion_blank q) as Hk. split.
  - intros [[[i q'] [E Hin]] Hkeep]. simpl in E. subst q'.
    exists i. split; [assumption|].
    intros Hb. apply Hk in Hb. congruence.
  - intros [i [Hin Hnb]]. split.
    + exists (i, q). auto.
    + destruct (keepQuestion q); [reflexivity|].
      exfalso. apply Hnb, Hk. reflexivity.
Qed.

Lemma questionError_invalid (q : Question) (msg : jsstring) :
  questionError q = Some msg -> questionInvalid q.
Proof.
  unfold questionError, questionInvalid.
  destruct (missingText q) eqn:Em.
  - intros _. apply missingText_spec in Em. tauto.
  - destruct (badCorrectIndex (correctIndex q)) eqn:Eb; [|discriminate].
    intros _. apply badCorrectIndex_outOfRange in Eb. tauto.
Qed.

Lemma firstQuestionError_invalid (qs : list Question) (msg : jsstring) :
  firstQuestionError qs = Some msg ->
  exists q, In q qs /\ questionInvalid q.
Proof.
  induction qs as [|q r IH]; simpl; [discriminate|].
  destruct (questionError q) as [m|] eqn:E.
  - intros _. exists q. split; [left; reflexivity|].
    eapply questionError_invalid; eassumption.
  - intros H. destruct (IH H) as [q' [Hin Hq]]. exists q'. auto.
Qed.

(** The question rows [POST /stories] adds are rows of parsed
    questions. *)
Lemma storiesHandler_new_rows (P : Platform) (user : User) (s : Session)
  (body : Body) (files : list File) (d : Database) (r : QuestionRow) :
  In r (questions
          (tables (database
                     (storiesHandler P user s (UploadDone body files) d)))) ->
  In r (questions (tables d))
  \/ exists q id, In q (parseStoryQuestions body files)
                  /\ r = questionRow (storySeq d) (user_id user) (clock d)
                           id q.
Proof.
  rewrite storiesHandler_done.
  destruct (storyError (storyValues P body files)) as [msg|] eqn:E.
  { unfold submitStory. rewrite E. simpl. auto. }
  destruct (submitStory_runs P user s body files d E) as [_ [H _]].
  cbv zeta in H.
  destruct H as [[_ [_ [_ [Hqs _]]]]|[Ht _]]; [|rewrite Ht; auto].
  rewrite Hqs. intros H. apply in_app_iff in H.
  destruct H as [H|H]; [left; exact H | right].
  apply questionRows_In in H. destruct H as [q [id' [Hin ->]]].
  exists q, id'. auto.
Qed.

(** C5.  A candidate is blank when its trimmed prompt is empty and all
    its trimmed answers are empty.  The parsed questions are exactly
    the candidates that are not blank: a candidate with a prompt or
    with some answer is among them, a blank one is not.  So a question
    that validation refuses is never a blank candidate, and a question
    row that [POST /stories] writes is never the row of one. *)
Theorem blank_rows_dropped (body : Body) (files : list File) :
  (forall q, In q (parseStoryQuestions body files)
             <-> exists i, In (i, q) (candidates body files) /\ ~ blank q)
  /\ (forall q, ~ blank q
                <-> prompt q <> []
                    \/ exists a, In a (answers q) /\ a <> [])
  /\ (forall i q, In (i, q) (candidates body files) -> blank q ->
        ~ In q (parseStoryQuestions body files))
  /\ (forall msg,
        firstQuestionError (parseStoryQuestions body files) = Some msg ->
        exists i q, In (i, q) (candidates body files)
                    /\ ~ blank q /\ questionInvalid q)
  /\ (forall P s url d r,
        In r (questions
                (tables (database
                           (postStories P s url
                              (UploadDone body files) d)))) ->
        In r (questions (tables d))
        \/ exists i q storyId authorId created id,
             In (i, q) (candidates body files) /\ ~ blank q
             /\ r = questionRow storyId authorId created id q).
Proof.
  split; [intros q; apply parse_In|].
  split; [exact not_blank|].
  split; [|split].
  - intros i q _ Hb Hin. apply parse_In in Hin.
    destruct Hin as [_ [_ Hnb]]. contradiction.
  - intros msg H. apply firstQuestionError_invalid in H.
    destruct H as [q [Hin Hq]]. apply parse_In in Hin.
    destruct Hin as [i [Hin Hnb]]. exists i, q. auto.
  - intros P s url d r. unfold postStories.
    destruct (requireAdmin s url) as [s' [|rep]]; [|simpl; auto].
    destruct (session_user s') as [user|]; [|simpl; auto].
    intros H. apply storiesHandler_new_rows in H.
    destruct H as [H|[q [id [Hin ->]]]]; [auto|]. right.
    apply parse_In in Hin. destruct Hin as [i [Hin Hnb]].
    exists i, q, (storySeq d), (user_id user), (clock d), id. auto.
Qed.

Lemma blank_rows_dropped_witness :
  let q := {| prompt := []; answers := [[]; []; []; []];
              correctIndex := Some 9%Z; file := None |} in
  In (3%N, q) (candidates (mondFields ++ blankRowBody) [])
  /\ blank q
  /\ ~ In q (parseStoryQuestions (mondFields ++ blankRowBody) []).
Proof.
  cbv zeta.
  pose proof (blank_rows_dropped (mondFields ++ blankRowBody) [])
    as [_ [_ [Hdrop _]]].
  assert (Hin : In (3%N, {| prompt := []; answers := [[]; []; []; []];
                            correctIndex := Some 9%Z; file := None |})
                  (candidates (mondFields ++ blankRowBody) []))
    by (left; reflexivity).
  assert (Hb : blank {| prompt := []; answers := [[]; []; []; []];
                        correctIndex := Some 9%Z; file := None |})
    by (split; [reflexivity | repeat constructor]).
  split; [exact Hin|]. split; [exact Hb|].
  exact (Hdrop _ _ Hin Hb).
Defined.

(** A story whose only question row was left blank is saved, without
    questions. *)
Example blank_row_is_no_error :
  let out := postStories plainPlatform adminSession (lit "/stories")
               (UploadDone (mondFields ++ blankRowBody) []) emptyDb in
  reply out = Redirect (lit "/story/7")
  /\ questions (tables (database out)) = []
  /\ List.length (stories (tables (database out))) = 1%nat.
Proof. vm_compute. auto. Qed.

(** The correct index of a question stays the default as long as no
    field sets it. *)
Lemma bodyStep_default (k : N) (m : QuestionMap) (name v : jsstring) :
  correctMatch name <> Some k ->
  (forall q, get k m = Some q -> correctIndex q = Some 0%Z) ->
  forall q, get k (bodyStep m (name, v)) = Some q ->
            correctIndex q = Some 0%Z.
Proof.
  intros Hc Hm q. rewrite bodyStep_slot.
  destruct (bodySlot name) as [s|] eqn:Es; [|apply Hm].
  rewrite get_write.
  destruct (N.eqb (slotIndex s) k) eqn:E; [|apply Hm].
  apply N.eqb_eq in E. intros [= <-].
  assert (H0 : correctIndex (getOrNew (slotIndex s) m) = Some 0%Z).
  { unfold getOrNew. rewrite E.
    destruct (get k m) as [q0|] eqn:G; [apply Hm; reflexivity|].
    reflexivity. }
  destruct s as [i|i|i j]; simpl in *.
  - exact H0.
  - subst i. apply bodySlot_correct in Es. contradiction.
  - destruct (j <? 4)%N; exact H0.
Qed.

Lemma fileStep_default (k : N) (m : QuestionMap) (x : File) :
  (forall q, get k m = Some q -> correctIndex q = Some 0%Z) ->
  forall q, get k (fileStep m x) = Some q -> correctIndex q = Some 0%Z.
Proof.
  intros Hm q. unfold fileStep.
  destruct (audioMatch (fieldname x)) as [i|]; [|apply Hm].
  rewrite get_write.
  destruct (N.eqb i k) eqn:E; [|apply Hm].
  apply N.eqb_eq in E. subst i. intros [= <-]. simpl.
  unfold getOrNew.
  destruct (get k m) as [q0|] eqn:G; [apply Hm; reflexivity|].
  reflexivity.
Qed.

Lemma candidates_default (body : Body) (files : list File) (k : N)
  (q : Question) :
  In (k, q) (candidates body files) ->
  (forall name v, In (name, v) body -> correctMatch name <> Some k) ->
  correctIndex q = Some 0%Z.
Proof.
  intros Hin Hno.
  assert (Hc : In (k, q) (collect body files)).
  { eapply Permutation_in; [apply sortBy_perm | exact Hin]. }
  apply (In_get k q _ (collect_keys body files)) in Hc.
  clear Hin. revert q Hc. unfold collect.
  assert (Hb : forall b m,
             (forall name v, In (name, v) b -> correctMatch name <> Some k) ->
             (forall q, get k m = Some q -> correctIndex q = Some 0%Z) ->
             forall q, get k (fold_left bodyStep b m) = Some q ->
                       correctIndex q = Some 0%Z).
  { induction b as [|[name v] b IH]; intros m Hb Hm; [exact Hm|].
    cbn [fold_left]. apply IH.
    - intros n v' H. apply (Hb n v'). right. exact H.
    - apply bodyStep_default; [|exact Hm].
      apply (Hb name v). left. reflexivity. }
  assert (Hf : forall fs m,
             (forall q, get k m = Some q -> correctIndex q = Some 0%Z) ->
             forall q, get k (fold_left fileStep fs m) = Some q ->
                       correctIndex q = Some 0%Z).
  { induction fs as [|x fs IH]; intros m Hm; [exact Hm|].
    cbn [fold_left]. apply IH, fileStep_default, Hm. }
  apply Hf, Hb; [exact Hno|]. intros q. discriminate.
Qed.

Lemma messages_differ : MSG_QUESTION_FIELDS <> MSG_QUESTION_CORRECT.
Proof. discriminate. Qed.

(* ================================================================== *)
(** * Further properties of the server *)
(* ================================================================== *)

(** ** Numbers in paths *)

Lemma digit_step_pos (p k : positive) :
  (10 * N.pos p + N.pos k)%N = N.pos (Pos.add k (Pos.mul 10 p)).
Proof. lia. Qed.

Lemma digitsValue_acc_pos (d : Decimal.uint) (p : positive) :
  fold_left (fun acc c => (10 * acc + (c - 48))%N)
    (lit (NilEmpty.string_of_uint d)) (N.pos p)
  = N.pos (Pos.of_uint_acc d p).
Proof.
  revert p. induction d; intros p;
    cbn [NilEmpty.string_of_uint lit list_ascii_of_string List.map
         fold_left Pos.of_uint_acc];
    try reflexivity;
    fold (lit (NilEmpty.string_of_uint d));
    rewrite <- IHd; f_equal;
    match goal with
    | |- context [N_of_ascii ?a] =>
        let v := eval vm_compute in (N_of_ascii a) in
        change (N_of_ascii a) with v
    end; lia.
Qed.

Lemma digitsValue_uint (d : Decimal.uint) :
  digitsValue (lit (NilEmpty.string_of_uint d)) = N.of_uint d.
Proof.
  unfold digitsValue, N.of_uint.
  induction d;
    cbn [NilEmpty.string_of_uint lit list_ascii_of_string List.map
         fold_left Pos.of_uint];
    try reflexivity;
    fold (lit (NilEmpty.string_of_uint d));
    match goal with
    | |- context [N_of_ascii ?a] =>
        let v := eval vm_compute in (N_of_ascii a) in
        change (N_of_ascii a) with v
    end;
    [exact IHd | apply digitsValue_acc_pos ..].
Qed.

Lemma spanDigits_uint (d : Decimal.uint) :
  spanDigits (lit (NilEmpty.string_of_uint d))
  = (lit (NilEmpty.string_of_uint d), []).
Proof.
  induction d;
    cbn [NilEmpty.string_of_uint lit list_ascii_of_string List.map];
    try reflexivity;
    fold (lit (NilEmpty.string_of_uint d));
    cbn [spanDigits];
    match goal with
    | |- context [N_of_ascii ?a] =>
        let v := eval vm_compute in (N_of_ascii a) in
        change (N_of_ascii a) with v
    end;
    change (isDigit _) with true; cbv iota; rewrite IHd; reflexivity.
Qed.

Lemma ofN_digits (n : N) :
  exists c r, ofN n = c :: r /\ isDigit c = true
              /\ spanDigits (ofN n) = (ofN n, [])
              /\ digitsValue (ofN n) = n.
Proof.
  unfold ofN, NilZero.string_of_uint.
  pose proof (DecimalN.Unsigned.of_to n) as Hn.
  destruct (N.to_uint n) as [|d|d|d|d|d|d|d|d|d|d] eqn:E.
  - exists 48%N, []. simpl in Hn. subst n. repeat split.
  - exists 48%N, (lit (NilEmpty.string_of_uint d)).
    rewrite spanDigits_uint, digitsValue_uint, Hn. repeat split.
  - exists 49%N, (lit (NilEmpty.string_of_uint d)).
    rewrite spanDigits_uint, digitsValue_uint, Hn. repeat split.
  - exists 50%N, (lit (NilEmpty.string_of_uint d)).
    rewrite spanDigits_uint, digitsValue_uint, Hn. repeat split.
  - exists 51%N, (lit (NilEmpty.string_of_uint d)).
    rewrite spanDigits_uint, digitsValue_uint, Hn. repeat split.
  - exists 52%N, (lit (NilEmpty.string_of_uint d)).
    rewrite spanDigits_uint, digitsValue_uint, Hn. repeat split.
  - exists 53%N, (lit (NilEmpty.string_of_uint d)).
    rewrite spanDigits_uint, digitsValue_uint, Hn. repeat split.
  - exists 54%N, (lit (NilEmpty.string_of_uint d)).
    rewrite spanDigits_uint, digitsValue_uint, Hn. repeat split.
  - exists 55%N, (lit (NilEmpty.string_of_uint d)).
    rewrite spanDigits_uint, digitsValue_uint, Hn. repeat split.
  - exists 56%N, (lit (NilEmpty.string_of_uint d)).
    rewrite spanDigits_uint, digitsValue_uint, Hn. repeat split.
  - exists 57%N, (lit (NilEmpty.string_of_uint d)).
    rewrite spanDigits_uint, digitsValue_uint, Hn. repeat split.
Qed.

(** The Number value at the places where the rounding shows: up to
    2^53 every integer is a double, from there on every second one,
    then every fourth; a tie goes to the even significand; the largest
    double is 2^1024 - 2^971, and half a step above it Infinity
    begins. *)
Example toNumber_rounds_to_nearest_even :
  List.map toNumber
    [0; 7; 2 ^ 53 - 1; 2 ^ 53; 2 ^ 53 + 1; 2 ^ 53 + 2; 2 ^ 53 + 3;
     2 ^ 54 + 2; 2 ^ 54 + 3; 2 ^ 54 + 6]%N
  = [0; 7; 2 ^ 53 - 1; 2 ^ 53; 2 ^ 53; 2 ^ 53 + 2; 2 ^ 53 + 4;
     2 ^ 54; 2 ^ 54 + 4; 2 ^ 54 + 8]%N
  /\ toNumber (2 ^ 1024 - 2 ^ 971) = (2 ^ 1024 - 2 ^ 971)%N
  /\ toNumber (2 ^ 1024 - 2 ^ 970 - 1) = (2 ^ 1024 - 2 ^ 971)%N
  /\ toNumber (2 ^ 1024 - 2 ^ 970) = INFINITY
  /\ toNumber (10 ^ 400) = INFINITY
  /\ parseInt (lit "-9007199254740993") = Some (- 2 ^ 53)%Z
  /\ option_map isInteger (parseInt (lit "9007199254740993")) = Some true
  /\ option_map isInteger
       (parseInt (List.map (fun _ => 57%N) (seq 0 400))) = Some false.
Proof. vm_compute. repeat split. Qed.

(** A number of at most 53 bits is its own Number value, and so is
    every id the engine hands out. *)
Lemma toNumber_small (n : N) : (N.size n <= 53)%N -> toNumber n = n.
Proof.
  intros H. unfold toNumber. apply N.leb_le in H. rewrite H. reflexivity.
Qed.

Lemma size_uint (n : N) : (n <= UINT_MAX)%N -> (N.size n <= 53)%N.
Proof.
  intros H. destruct (N.eq_dec n 0) as [->|Hn]; [discriminate|].
  rewrite (N.size_log2 n Hn).
  pose proof (N.log2_le_mono n UINT_MAX H) as Hl.
  change (N.log2 UINT_MAX) with 31%N in Hl. lia.
Qed.

Lemma storySeq_uint (d : Database) : (storySeq d <= UINT_MAX)%N.
Proof. unfold storySeq. apply N.le_min_r. Qed.

Lemma questionSeq_uint (d : Database) : (questionSeq d <= UINT_MAX)%N.
Proof. unfold questionSeq. apply N.le_min_r. Qed.

Lemma nextId_uint (id : N) : (nextId id <= UINT_MAX)%N.
Proof. unfold nextId. apply N.le_min_r. Qed.

Lemma nextId_le (id : N) : (id <= UINT_MAX)%N -> (id <= nextId id)%N.
Proof. unfold nextId. intros H. apply N.min_glb; lia. Qed.

(** Reading back a number written into a path gives the number, when
    a double holds it. *)
Lemma parseInt_ofN (n : N) :
  (N.size n <= 53)%N -> parseInt (ofN n) = Some (Z.of_N n).
Proof.
  intros Hsmall.
  destruct (ofN_digits n) as [c [r [E [Hc [Hs Hv]]]]].
  unfold parseInt. rewrite E in *.
  change (trimStart (c :: r))
    with (if isWhiteSpace c then trimStart r else c :: r).
  assert (Hd : (c = 48 \/ c = 49 \/ c = 50 \/ c = 51 \/ c = 52 \/ c = 53
                \/ c = 54 \/ c = 55 \/ c = 56 \/ c = 57)%N).
  { unfold isDigit in Hc. apply andb_true_iff in Hc.
    destruct Hc as [H1 H2]. apply N.leb_le in H1, H2. lia. }
  repeat (destruct Hd as [Hd|Hd]);
    subst c; change (isWhiteSpace _) with false; cbv iota beta;
    rewrite Hs; cbn [fst]; rewrite Hv, (toNumber_small n Hsmall);
    reflexivity.
Qed.

(** ** Trimming *)

Lemma trimStart_head (s : jsstring) :
  match trimStart s with
  | [] => True
  | c :: _ => isWhiteSpace c = false
  end.
Proof.
  induction s as [|c t IH]; simpl; [exact I|].
  destruct (isWhiteSpace c) eqn:E; [exact IH | exact E].
Qed.

Lemma trimStart_fixed (c : N) (t : jsstring) :
  isWhiteSpace c = false -> trimStart (c :: t) = c :: t.
Proof. intros H. simpl. rewrite H. reflexivity. Qed.

Lemma trimStart_idem (s : jsstring) : trimStart (trimStart s) = trimStart s.
Proof.
  pose proof (trimStart_head s) as H.
  destruct (trimStart s) as [|c t]; [reflexivity|].
  apply trimStart_fixed, H.
Qed.

Lemma trimStart_snoc (l : jsstring) (c : N) :
  isWhiteSpace c = false -> trimStart (l ++ [c]) = trimStart l ++ [c].
Proof.
  intros H. induction l as [|x l IH]; simpl.
  - rewrite H. reflexivity.
  - destruct (isWhiteSpace x); [exact IH | reflexivity].
Qed.

Lemma trimEnd_cons (c : N) (t : jsstring) :
  isWhiteSpace c = false -> trimEnd (c :: t) = c :: trimEnd t.
Proof.
  intros H. unfold trimEnd. simpl.
  rewrite (trimStart_snoc (rev t) c H), rev_app_distr. reflexivity.
Qed.

Lemma trimEnd_idem (s : jsstring) : trimEnd (trimEnd s) = trimEnd s.
Proof.
  unfold trimEnd. rewrite rev_involutive, trimStart_idem. reflexivity.
Qed.

(** Trimming twice is trimming once. *)
Lemma trim_idem (s : jsstring) : trim (trim s) = trim s.
Proof.
  unfold trim.
  pose proof (trimStart_head s) as H.
  destruct (trimStart s) as [|c t]; [reflexivity|].
  rewrite (trimEnd_cons c t H), (trimStart_fixed c (trimEnd t) H).
  rewrite <- (trimEnd_cons c t H). apply trimEnd_idem.
Qed.

Lemma trimStart_nil (s : jsstring) :
  trimStart s = [] <-> forallb isWhiteSpace s = true.
Proof.
  induction s as [|c t IH]; simpl; [tauto|].
  destruct (isWhiteSpace c); simpl; [exact IH|].
  split; discriminate.
Qed.

(** A text trims to nothing exactly when it is white space only. *)
Lemma trim_nil (s : jsstring) :
  trim s = [] <-> forallb isWhiteSpace s = true.
Proof.
  unfold trim. rewrite <- trimStart_nil.
  pose proof (trimStart_head s) as H.
  destruct (trimStart s) as [|c t].
  - split; reflexivity.
  - rewrite (trimEnd_cons c t H). split; discriminate.
Qed.

(** A trimmed text neither starts nor ends with white space. *)
Lemma trim_edges (s : jsstring) :
  match trim s with
  | [] => True
  | c :: _ => isWhiteSpace c = false
  end
  /\ match rev (trim s) with
     | [] => True
     | c :: _ => isWhiteSpace c = false
     end.
Proof.
  split.
  - unfold trim. pose proof (trimStart_head s) as H.
    destruct (trimStart s) as [|c t]; [exact I|].
    rewrite (trimEnd_cons c t H). exact H.
  - unfold trim, trimEnd. rewrite rev_involutive. apply trimStart_head.
Qed.

(** ** The shape of the parsed questions *)

Lemma modify_Forall (Q : Question -> Prop) (i : N)
  (g : Question -> Question) (m : QuestionMap) :
  (forall q, Q q -> Q (g q)) ->
  Forall (fun e => Q (snd e)) m ->
  Forall (fun e => Q (snd e)) (modify i g m).
Proof.
  intros Hg. induction 1 as [|[k q] r Hq Hr IH]; simpl; [constructor|].
  destruct (N.eqb k i); constructor; simpl in *; auto.
Qed.

Lemma write_Forall (Q : Question -> Prop) (i : N)
  (g : Question -> Question) (m : QuestionMap) :
  Q newQuestion -> (forall q, Q q -> Q (g q)) ->
  Forall (fun e => Q (snd e)) m ->
  Forall (fun e => Q (snd e)) (modify i g (ensureQuestion i m)).
Proof.
  intros Hn Hg Hm. apply modify_Forall; [exact Hg|].
  unfold ensureQuestion. destruct (has i m); [exact Hm|].
  apply Forall_app. split; [exact Hm|]. constructor; [exact Hn | constructor].
Qed.

Lemma setNth_length {A : Type} (n : nat) (x : A) (l : list A) :
  List.length (setNth n x l) = List.length l.
Proof.
  revert n. induction l as [|a l IH]; intros [|n]; simpl; auto.
Qed.

Lemma setNth_Forall {A : Type} (Q : A -> Prop) (n : nat) (x : A)
  (l : list A) :
  Q x -> Forall Q l -> Forall Q (setNth n x l).
Proof.
  intros Hx. revert n. induction l as [|a l IH]; intros [|n] H; simpl;
    try constructor; inversion H; subst; auto.
Qed.

Lemma nth_setNth_same {A : Type} (n : nat) (x d : A) (l : list A) :
  (n < List.length l)%nat -> nth n (setNth n x l) d = x.
Proof.
  revert n. induction l as [|a l IH]; intros [|n] H; simpl in *;
    try lia; [reflexivity|]. apply IH. lia.
Qed.

Lemma nth_setNth_other {A : Type} (n n' : nat) (x d : A) (l : list A) :
  n <> n' -> nth n (setNth n' x l) d = nth n l d.
Proof.
  revert n n'. induction l as [|a l IH]; intros [|n] [|n'] H; simpl;
    try reflexivity; try congruence.
  apply IH. congruence.
Qed.

Lemma shaped_new : shaped newQuestion.
Proof. repeat split; repeat constructor. Qed.

Lemma shaped_slotWrite (s : Slot) (v : jsstring) (q : Question) :
  shaped q -> shaped (slotWrite s v q).
Proof.
  intros [Hl [Hp Ha]]. destruct s as [i|i|i j]; simpl.
  - repeat split; simpl; auto. apply trim_idem.
  - repeat split; simpl; auto.
  - destruct (j <? 4)%N; [|repeat split; auto].
    repeat split; simpl; auto.
    + rewrite setNth_length. exact Hl.
    + apply setNth_Forall; [apply trim_idem | exact Ha].
Qed.

Lemma shaped_setFile (f : File) (q : Question) :
  shaped q -> shaped (setFile f q).
Proof. intros [Hl [Hp Ha]]. repeat split; simpl; auto. Qed.

Lemma fold_body_Forall (Q : Question -> Prop) (b : Body) (m : QuestionMap) :
  Q newQuestion -> (forall s v q, Q q -> Q (slotWrite s v q)) ->
  Forall (fun e => Q (snd e)) m ->
  Forall (fun e => Q (snd e)) (fold_left bodyStep b m).
Proof.
  intros Hn Hg. revert m. induction b as [|[name v] b IH]; intros m Hm;
    [exact Hm|].
  cbn [fold_left]. apply IH. rewrite bodyStep_slot.
  destruct (bodySlot name) as [s|]; [|exact Hm].
  apply write_Forall; auto.
Qed.

Lemma fold_files_Forall (Q : Question -> Prop) (fs : list File)
  (m : QuestionMap) :
  Q newQuestion -> (forall f q, Q q -> Q (setFile f q)) ->
  Forall (fun e => Q (snd e)) m ->
  Forall (fun e => Q (snd e)) (fold_left fileStep fs m).
Proof.
  intros Hn Hg. revert m. induction fs as [|x fs IH]; intros m Hm;
    [exact Hm|].
  cbn [fold_left]. apply IH. unfold fileStep.
  destruct (audioMatch (fieldname x)) as [i|]; [|exact Hm].
  apply write_Forall; auto.
Qed.

Lemma collect_shaped (body : Body) (files : list File) :
  Forall (fun e => shaped (snd e)) (collect body files).
Proof.
  unfold collect.
  apply fold_files_Forall;
    [exact shaped_new | exact shaped_setFile |].
  apply fold_body_Forall;
    [exact shaped_new | exact shaped_slotWrite | constructor].
Qed.

(** X1.  Every question [parseStoryQuestions] returns has exactly four
    answers, and its prompt and its answers are trimmed: trimming them
    again changes nothing, so none starts or ends with white space. *)
Theorem parsed_questions_shaped (body : Body) (files : list File) :
  Forall (fun q => List.length (answers q) = 4%nat
                   /\ trim (prompt q) = prompt q
                   /\ Forall (fun a => trim a = a) (answers q))
    (parseStoryQuestions body files).
Proof.
  apply Forall_forall. intros q Hin.
  apply parse_In in Hin. destruct Hin as [i [Hin _]].
  assert (Hc : In (i, q) (collect body files)).
  { eapply Permutation_in; [apply sortBy_perm | exact Hin]. }
  pose proof (collect_shaped body files) as H.
  rewrite Forall_forall in H. exact (H (i, q) Hc).
Qed.

(** ** The last field of a slot *)

Lemma get_In (k : N) (q : Question) (m : QuestionMap) :
  get k m = Some q -> In (k, q) m.
Proof.
  induction m as [|[k' q'] r IH]; simpl; [discriminate|].
  destruct (N.eqb_spec k' k) as [->|_].
  - intros [= ->]. left. reflexivity.
  - intros H. right. apply IH, H.
Qed.

Lemma getOrNew_Forall (Q : Question -> Prop) (i : N) (m : QuestionMap) :
  Q newQuestion -> Forall (fun e => Q (snd e)) m -> Q (getOrNew i m).
Proof.
  intros Hn Hm. unfold getOrNew.
  destruct (get i m) as [q|] eqn:G; [|exact Hn].
  apply get_In in G. rewrite Forall_forall in Hm. exact (Hm _ G).
Qed.

Lemma slotShows_written (s : Slot) (v : jsstring) (q : Question) :
  shaped q -> slotShows s v (slotWrite s v q).
Proof.
  intros [Hl _]. destruct s as [i|i|i j]; simpl; try reflexivity.
  intros Hj. apply N.ltb_lt in Hj as Hj'. rewrite Hj'. simpl.
  apply nth_setNth_same. rewrite Hl. lia.
Qed.

Lemma slotShows_kept (s s' : Slot) (v v' : jsstring) (q : Question) :
  s' <> s -> slotIndex s' = slotIndex s ->
  slotShows s v q -> slotShows s v (slotWrite s' v' q).
Proof.
  intros Hne Hi H.
  destruct s as [i|i|i j]; destruct s' as [i'|i'|i' j']; simpl in *;
    subst; try congruence; try exact H;
    try (destruct (j' <? 4)%N; exact H).
  intros Hj. destruct (j' <? 4)%N; [|exact (H Hj)]. simpl.
  rewrite nth_setNth_other; [exact (H Hj)|].
  intros E. apply N2Nat.inj in E. congruence.
Qed.

Lemma slot_survives_bodyStep (s : Slot) (value : jsstring)
  (m : QuestionMap) (name v : jsstring) :
  bodySlot name <> Some s ->
  (exists q, get (slotIndex s) m = Some q /\ shaped q
             /\ slotShows s value q) ->
  exists q, get (slotIndex s) (bodyStep m (name, v)) = Some q /\ shaped q
            /\ slotShows s value q.
Proof.
  intros Hne [q [Hg [Hsh Hs]]]. rewrite bodyStep_slot.
  destruct (bodySlot name) as [s'|] eqn:E; [|exists q; auto].
  rewrite get_write.
  destruct (N.eqb_spec (slotIndex s') (slotIndex s)) as [Hi|_];
    [|exists q; auto].
  eexists. split; [reflexivity|].
  unfold getOrNew. rewrite Hi, Hg. split.
  - apply shaped_slotWrite, Hsh.
  - apply slotShows_kept; [congruence | exact Hi | exact Hs].
Qed.

Lemma slot_survives_fileStep (s : Slot) (value : jsstring)
  (m : QuestionMap) (x : File) :
  (exists q, get (slotIndex s) m = Some q /\ shaped q
             /\ slotShows s value q) ->
  exists q, get (slotIndex s) (fileStep m x) = Some q /\ shaped q
            /\ slotShows s value q.
Proof.
  intros [q [Hg [Hsh Hs]]]. unfold fileStep.
  destruct (audioMatch (fieldname x)) as [i|]; [|exists q; auto].
  rewrite get_write.
  destruct (N.eqb_spec i (slotIndex s)) as [Hi|_]; [|exists q; auto].
  eexists. split; [reflexivity|].
  unfold getOrNew. rewrite Hi, Hg. split.
  - apply shaped_setFile, Hsh.
  - destruct s; exact Hs.
Qed.

(** After a field of a slot that no later field writes to, the
    question under the index of the slot shows what the field wrote. *)
Lemma last_field_in_map (b1 b2 : Body) (name value : jsstring)
  (s : Slot) (files : list File) :
  bodySlot name = Some s ->
  (forall n v, In (n, v) b2 -> bodySlot n <> Some s) ->
  exists q,
    get (slotIndex s) (collect (b1 ++ (name, value) :: b2) files) = Some q
    /\ shaped q /\ slotShows s value q.
Proof.
  intros Hs Hlater.
  unfold collect. rewrite fold_left_app. cbn [fold_left].
  assert (Hf : forall fs m,
             (exists q, get (slotIndex s) m = Some q /\ shaped q
                        /\ slotShows s value q) ->
             exists q, get (slotIndex s) (fold_left fileStep fs m) = Some q
                       /\ shaped q /\ slotShows s value q).
  { induction fs as [|x fs IH]; intros m Hm; [exact Hm|].
    cbn [fold_left]. apply IH, slot_survives_fileStep, Hm. }
  assert (Hb : forall b m,
             (forall n v, In (n, v) b -> bodySlot n <> Some s) ->
             (exists q, get (slotIndex s) m = Some q /\ shaped q
                        /\ slotShows s value q) ->
             exists q, get (slotIndex s) (fold_left bodyStep b m) = Some q
                       /\ shaped q /\ slotShows s value q).
  { induction b as [|[n v] b IH]; intros m Hno Hm; [exact Hm|].
    cbn [fold_left]. apply IH.
    - intros n' v' Hin. apply (Hno n' v'). right. exact Hin.
    - apply slot_survives_bodyStep; [|exact Hm].
      apply (Hno n v). left. reflexivity. }
  apply Hf, Hb; [exact Hlater|].
  rewrite bodyStep_slot, Hs, get_write, N.eqb_refl.
  eexists. split; [reflexivity|].
  assert (Hsh : shaped (getOrNew (slotIndex s) (fold_left bodyStep b1 []))).
  { apply getOrNew_Forall; [exact shaped_new|].
    apply fold_body_Forall;
      [exact shaped_new | exact shaped_slotWrite | constructor]. }
  split; [apply shaped_slotWrite, Hsh | apply slotShows_written, Hsh].
Qed.

(** X2.  When several fields write to one slot of a question, the last
    of them in the order of the body decides: after a field of a slot
    that no later field writes to, the candidate of that index shows
    the trimmed text of the field as its prompt or as its answer, or
    the parsed number as its correct index.  The name of the field is
    [questions[], decimal digits, []] and the rest of its pattern, and
    the index of its slot is the Number value of the digits: names
    whose digits round to the same double write to the same
    question. *)
Theorem last_field_of_a_slot_wins (b1 b2 : Body) (name value : jsstring)
  (s : Slot) (files : list File) :
  bodySlot name = Some s ->
  (forall n v, In (n, v) b2 -> bodySlot n <> Some s) ->
  exists q,
    In (slotIndex s, q) (candidates (b1 ++ (name, value) :: b2) files)
    /\ match s with
       | PromptOf _ => prompt q = trim value
       | CorrectOf _ => correctIndex q = parseInt value
       | AnswerOf _ j =>
           (j < 4)%N -> nth (N.to_nat j) (answers q) [] = trim value
       end
    /\ exists ds rest,
         name = lit "questions[" ++ ds ++ lit "]" ++ rest
         /\ ds <> [] /\ forallb isDigit ds = true
         /\ slotIndex s = toNumber (digitsValue ds).
Proof.
  intros Hs Hlater.
  destruct (last_field_in_map b1 b2 name value s files Hs Hlater)
    as [q [Hg [_ Hshow]]].
  exists q. split; [|split; [exact Hshow|]].
  - apply (In_get _ _ _ (collect_keys _ files)) in Hg.
    unfold candidates.
    eapply Permutation_in; [apply Permutation_sym, sortBy_perm | exact Hg].
  - destruct (bodySlot_spec name s Hs) as [ds [rest [H1 [H2 [H3 H4]]]]].
    exists ds, rest. auto.
Qed.

Lemma last_field_of_a_slot_wins_witness :
  exists q, In (1%N, q) (candidates aliasBody []) /\ prompt q = lit "B".
Proof.
  destruct (last_field_of_a_slot_wins
              [(lit "questions[1][prompt]", lit "A")] []
              (lit "questions[01][prompt]") (lit "B") (PromptOf 1) [])
    as [q [Hin [Hp _]]].
  - reflexivity.
  - intros n v [].
  - exists q. split; [exact Hin | exact Hp].
Defined.

(** ** The default of the correct index *)

Lemma correctMatch_bodySlot (name : jsstring) (i : N) :
  correctMatch name = Some i <-> bodySlot name = Some (CorrectOf i).
Proof.
  split; [|apply bodySlot_correct].
  unfold bodySlot, promptMatch, correctMatch, matchIndexed.
  destruct (matchIndex name) as [[k rest]|]; [|discriminate].
  destruct (str_eqb rest (lit "][correctIndex]")) eqn:E; [|discriminate].
  apply str_eqb_eq in E. subst rest. intros [= ->]. reflexivity.
Qed.

(** The last element of a list that satisfies a test. *)
Lemma last_satisfying {A : Type} (p : A -> bool) (l : list A) :
  existsb p l = true ->
  exists l1 x l2,
    l = l1 ++ x :: l2 /\ p x = true /\ forall y, In y l2 -> p y = false.
Proof.
  induction l as [|a l IH]; simpl; [discriminate|].
  destruct (existsb p l) eqn:E.
  - intros _. destruct (IH eq_refl) as [l1 [x [l2 [-> [Hx Hl]]]]].
    exists (a :: l1), x, l2. auto.
  - rewrite orb_false_r. intros Ha. exists [], a, l.
    split; [reflexivity|]. split; [exact Ha|].
    intros y Hy. destruct (p y) eqn:Ey; [|reflexivity].
    assert (existsb p l = true)
      by (apply existsb_exists; exists y; auto).
    congruence.
Qed.

(** The test for a correct-index field of the question [i]. *)
Lemma names_correct_index (i : N) (e : jsstring * jsstring) :
  match correctMatch (fst e) with
  | Some k => N.eqb k i
  | None => false
  end = true
  <-> correctMatch (fst e) = Some i.
Proof.
  destruct (correctMatch (fst e)) as [k|]; [|split; discriminate].
  rewrite N.eqb_eq. split; congruence.
Qed.

(** The candidate of an index shows the parsed value of the last
    correct-index field for that index. *)
Lemma last_correct_index_field (b1 b2 : Body) (name value : jsstring)
  (i : N) (files : list File) (q : Question) :
  correctMatch name = Some i ->
  (forall n v, In (n, v) b2 -> correctMatch n <> Some i) ->
  In (i, q) (candidates (b1 ++ (name, value) :: b2) files) ->
  correctIndex q = parseInt value.
Proof.
  intros Hm Hlater Hin.
  destruct (last_field_in_map b1 b2 name value (CorrectOf i) files)
    as [q0 [Hg [_ Hshow]]].
  - apply correctMatch_bodySlot, Hm.
  - intros n v Hnv Hs. apply (Hlater n v Hnv).
    apply correctMatch_bodySlot, Hs.
  - assert (Hc : In (i, q) (collect (b1 ++ (name, value) :: b2) files)).
    { eapply Permutation_in; [apply sortBy_perm | exact Hin]. }
    apply (In_get i q _ (collect_keys _ files)) in Hc.
    cbn [slotIndex] in Hg. rewrite Hg in Hc. injection Hc as <-.
    exact Hshow.
Qed.

Lemma questionRows_row (storyId authorId created id : N)
  (qs : list Question) (q : Question) :
  In q qs ->
  exists id', In (questionRow storyId authorId created id' q)
                (questionRows storyId authorId created id qs).
Proof.
  revert id. induction qs as [|q' qs IH]; intros id; simpl; [tauto|].
  intros [->|H].
  - exists id. left. reflexivity.
  - destruct (IH (nextId id) H) as [id' Hin]. exists id'. right. exact Hin.
Qed.

(** C10.  A candidate question for whose index the body has no
    correct-index field keeps the correct index 0 it was created
    with; one for whose index there is such a field has the number
    parsed from the last of them.  So for a candidate that has its
    prompt and its four answers, validation reports the correct index
    exactly when there is a correct-index field for its index and the
    last one parses to NaN or outside 0..3; without such a field the
    question passes.  A submission of an administrator with valid
    story fields in which every parsed question has its prompt and its
    answers and every last correct-index field parses to 0..3 is not
    answered 400; it is saved whenever no call on the engine throws,
    and when it is saved, every question without a correct-index field
    has a row with correct index 0, whatever the other questions
    chose. *)
Theorem missing_correct_index_defaults_to_zero (body : Body)
  (files : list File) :
  let chosen i value :=
    exists b1 name b2,
      body = b1 ++ (name, value) :: b2
      /\ correctMatch name = Some i
      /\ forall n v, In (n, v) b2 -> correctMatch n <> Some i in
  let unchosen i :=
    forall name v, In (name, v) body -> correctMatch name <> Some i in
  (forall i q, In (i, q) (candidates body files) ->
     (unchosen i -> correctIndex q = Some 0%Z)
     /\ (forall value, chosen i value -> correctIndex q = parseInt value)
     /\ (unchosen i \/ exists value, chosen i value))
  /\ (forall i q, In (i, q) (candidates body files) ->
        missingText q = false ->
        (questionError q = Some MSG_QUESTION_CORRECT
         <-> exists value, chosen i value /\ outOfRange (parseInt value))
        /\ (unchosen i -> questionError q = None))
  /\ (forall P s url user d,
        session_user s = Some user -> isAdmin (Some user) = true ->
        ~ storyFieldsInvalid (storyValues P body files) ->
        Forall (fun q => missingText q = false)
          (parseStoryQuestions body files) ->
        (forall i value, chosen i value -> ~ outOfRange (parseInt value)) ->
        let out := postStories P s url (UploadDone body files) d in
        let rows := questionRows (storySeq d) (user_id user) (clock d)
                      (questionSeq d) (parseStoryQuestions body files) in
        statusOf (reply out) <> 400%N
        /\ (acceptsAll P -> statusOf (reply out) = 302%N)
        /\ (statusOf (reply out) = 302%N ->
            questions (tables (database out))
            = questions (tables d) ++ rows
            /\ forall i q,
                 In (i, q) (candidates body files) -> ~ blank q ->
                 unchosen i ->
                 exists id,
                   let r := questionRow (storySeq d) (user_id user)
                              (clock d) id q in
                   In r rows /\ correct_index r = Some 0%Z)).
Proof.
  cbv zeta.
  assert (Hfield : forall i q, In (i, q) (candidates body files) ->
            ((forall name v, In (name, v) body ->
                correctMatch name <> Some i) ->
             correctIndex q = Some 0%Z)
            /\ (forall value,
                  (exists b1 name b2,
                     body = b1 ++ (name, value) :: b2
                     /\ correctMatch name = Some i
                     /\ forall n v, In (n, v) b2 ->
                          correctMatch n <> Some i) ->
                  correctIndex q = parseInt value)
            /\ ((forall name v, In (name, v) body ->
                   correctMatch name <> Some i)
                \/ exists value b1 name b2,
                     body = b1 ++ (name, value) :: b2
                     /\ correctMatch name = Some i
                     /\ forall n v, In (n, v) b2 ->
                          correctMatch n <> Some i)).
  { intros i q Hin.
    split; [apply (candidates_default body files i q Hin)|]. split.
    - intros value [b1 [name [b2 [Hb [Hm Hlater]]]]]. subst body.
      eapply last_correct_index_field; eassumption.
    - destruct (existsb (fun e => match correctMatch (fst e) with
                                  | Some k => N.eqb k i
                                  | None => false
                                  end) body) eqn:E.
      + right. apply last_satisfying in E.
        destruct E as [b1 [[name value] [b2 [Hb [Hm Hlater]]]]].
        apply names_correct_index in Hm. cbn [fst] in Hm.
        exists value, b1, name, b2. split; [exact Hb|].
        split; [exact Hm|]. intros n v Hnv Hn.
        specialize (Hlater (n, v) Hnv).
        apply (names_correct_index i (n, v)) in Hn. congruence.
      + left. intros name v Hnv Hn.
        apply (names_correct_index i (name, v)) in Hn.
        assert (existsb (fun e => match correctMatch (fst e) with
                                  | Some k => N.eqb k i
                                  | None => false
                                  end) body = true)
          by (apply existsb_exists; exists (name, v); auto).
        congruence. }
  split; [|split].
  - intros i q Hin. destruct (Hfield i q Hin) as [H0 [H1 H2]].
    split; [exact H0|]. split; [exact H1|].
    destruct H2 as [H2|[value H2]]; [left; exact H2 | right; eauto].
  - intros i q Hin Hm. destruct (Hfield i q Hin) as [H0 [H1 H2]].
    unfold questionError. rewrite Hm.
    pose proof (badCorrectIndex_outOfRange (correctIndex q)) as Hb.
    split.
    + split.
      * intros Herr.
        assert (Hout : outOfRange (correctIndex q)).
        { apply Hb. destruct (badCorrectIndex _); [reflexivity|].
          discriminate. }
        destruct H2 as [H2|[value H2]].
        -- rewrite (H0 H2) in Hout. simpl in Hout. lia.
        -- exists value. split; [exact H2|].
           rewrite <- (H1 value H2). exact Hout.
      * intros [value [Hch Hout]]. rewrite <- (H1 value Hch) in Hout.
        apply Hb in Hout. rewrite Hout. reflexivity.
    + intros Hun. rewrite (H0 Hun). reflexivity.
  - intros P s url user d Hu Ha Hf Hq Hvalid. cbv zeta.
    assert (E : storyError (storyValues P body files) = None).
    { apply storyError_None. split; [exact Hf|].
      cbn [v_questions storyValues]. apply Forall_forall. intros q Hin.
      rewrite Forall_forall in Hq. specialize (Hq q Hin).
      apply parse_In in Hin. destruct Hin as [i [Hin _]].
      destruct (Hfield i q Hin) as [H0 [H1 H2]].
      unfold questionInvalid. intros [H|[H|H]].
      - assert (missingText q = true) by (apply missingText_spec; auto).
        congruence.
      - assert (missingText q = true) by (apply missingText_spec; auto).
        congruence.
      - destruct H2 as [H2|[value H2]].
        + rewrite (H0 H2) in H. simpl in H. lia.
        + rewrite (H1 value H2) in H.
          destruct H2 as [b1 [name [b2 H2]]].
          apply (Hvalid i value); [|exact H]. eauto. }
    rewrite (postStories_admin P s url _ d user Hu Ha).
    rewrite storiesHandler_done.
    destruct (submitStory_runs P user s body files d E) as [_ [H Hok]].
    cbv zeta in H, Hok. cbn [v_questions storyValues] in H.
    destruct H as [[Hr [_ [_ [Hqs _]]]]
                  |[_ [[Hr _]|[ops [_ [[Hr _]|[Hr _]]]]]]];
      rewrite Hr; cbn [statusOf renderForm];
      (split; [discriminate|]);
      (split; [intros Hacc; specialize (Hok Hacc); rewrite Hr in Hok;
               first [reflexivity | discriminate]|]);
      try (intros; discriminate).
    intros _. split; [exact Hqs|].
    intros i q Hin Hnb Hun.
    assert (Hp : In q (parseStoryQuestions body files))
      by (apply parse_In; eauto).
    destruct (questionRows_row (storySeq d) (user_id user) (clock d)
                (questionSeq d) _ q Hp) as [id Hrow].
    exists id. cbv zeta. split; [exact Hrow|].
    cbn [correct_index questionRow].
    apply (Hfield i q Hin), Hun.
Qed.

Lemma missing_correct_index_defaults_to_zero_witness :
  let out := postStories plainPlatform adminSession (lit "/stories")
               (UploadDone twoQuestionBody []) emptyDb in
  statusOf (reply out) = 302%N
  /\ List.map (fun r => (question_prompt r, correct_index r))
       (questions (tables (database out)))
     = [(lit "Farbe?", Some 2%Z); (lit "Form?", Some 0%Z)].
Proof.
  pose proof (missing_correct_index_defaults_to_zero twoQuestionBody [])
    as [_ [_ H]].
  specialize (H plainPlatform adminSession (lit "/stories") adminUser
                emptyDb eq_refl eq_refl).
  cbv zeta in H.
  destruct H as [_ [Hok Hrows]].
  - intros [H|[H|[H|H]]]; try discriminate H.
    apply H. vm_compute. auto.
  - repeat constructor.
  - intros i value [b1 [name [b2 [Hb [Hm _]]]]].
    assert (Hin : In (name, value) twoQuestionBody)
      by (rewrite Hb; apply in_or_app; right; left; reflexivity).
    unfold twoQuestionBody, mondBody, mondFields, mondQuestion in Hin.
    cbn [app] in Hin.
    repeat (destruct Hin as [[= <- <-]|Hin]; [try discriminate Hm|]);
      try destruct Hin.
    vm_compute. intros [H|H]; discriminate.
  - cbv zeta. split; [exact (Hok plainPlatform_acceptsAll)|].
    destruct (Hrows (Hok plainPlatform_acceptsAll)) as [Hq _].
    rewrite Hq. reflexivity.
Defined.

(** The field decides also when it names the index in another way or
    comes twice: the last one counts. *)
Example last_choice_counts :
  List.map correctIndex
    (parseStoryQuestions
       (mondBody ++ [(lit "questions[00][correctIndex]", lit " 3rd")]) [])
  = [Some 3%Z].
Proof. reflexivity. Qed.

(** ** The files of the questions *)

Lemma fileFrom_fileStep (done : list File) (m : QuestionMap) (x : File) :
  (forall k q, get k m = Some q -> fileFrom done k q) ->
  forall k q, get k (fileStep m x) = Some q -> fileFrom (done ++ [x]) k q.
Proof.
  intros Hm k q. unfold fileStep.
  assert (Hkeep : forall q0, audioMatch (fieldname x) <> Some k ->
                    fileFrom done k q0 -> fileFrom (done ++ [x]) k q0).
  { intros q0 Hx. unfold fileFrom. destruct (file q0) as [f|].
    - intros [before [after [-> [Hf Hlast]]]].
      exists before, (after ++ [x]). split; [|split; [exact Hf|]].
      + rewrite <- app_assoc. reflexivity.
      + intros g Hin. apply in_app_iff in Hin.
        destruct Hin as [Hin|[<-|[]]]; [apply Hlast, Hin | exact Hx].
    - intros Hno f Hin. apply in_app_iff in Hin.
      destruct Hin as [Hin|[<-|[]]]; [apply Hno, Hin | exact Hx]. }
  destruct (audioMatch (fieldname x)) as [i|] eqn:E.
  - rewrite get_write. destruct (N.eqb_spec i k) as [->|Hne].
    + intros [= <-]. unfold fileFrom. simpl.
      exists done, []. split; [reflexivity|]. split; [exact E|].
      intros g [].
    + intros Hg. apply Hkeep; [congruence | apply Hm, Hg].
  - intros Hg. apply Hkeep; [discriminate | apply Hm, Hg].
Qed.

(** X3.  A candidate question carries a file only if an uploaded file
    names its index in the field name, and then the file is the last
    of the uploaded files that do; it carries none exactly when no
    uploaded file names its index.  The form fields never attach a
    file.  A file names the index that is the Number value of the
    digits in its field name: a file under
    [questions[9007199254740993][audio]] belongs to the question
    9007199254740992. *)
Theorem question_files_come_from_uploads (body : Body)
  (files : list File) (i : N) (q : Question) :
  In (i, q) (candidates body files) ->
  match file q with
  | Some f =>
      exists before after,
        files = before ++ f :: after
        /\ recordingOf i (fieldname f)
        /\ forall g, In g after -> ~ recordingOf i (fieldname g)
  | None => forall f, In f files -> ~ recordingOf i (fieldname f)
  end.
Proof.
  intros Hin.
  assert (Hfrom : fileFrom files i q);
    [| unfold fileFrom in Hfrom; destruct (file q) as [f|];
       [ destruct Hfrom as [before [after [Hf [Hm Hlast]]]];
         exists before, after; split; [exact Hf|];
         split; [apply audioMatch_iff, Hm|];
         intros g Hg Hr; apply (Hlast g Hg), audioMatch_iff, Hr
       | intros f Hf Hr; apply (Hfrom f Hf), audioMatch_iff, Hr ] ].
  assert (Hc : In (i, q) (collect body files)).
  { eapply Permutation_in; [apply sortBy_perm | exact Hin]. }
  apply (In_get _ _ _ (collect_keys body files)) in Hc.
  revert Hc. unfold collect.
  assert (Hb : forall k q0, get k (fold_left bodyStep body []) = Some q0 ->
                 fileFrom [] k q0).
  { intros k q0 Hg. apply get_In in Hg.
    assert (H : Forall (fun e => file (snd e) = None)
                  (fold_left bodyStep body [])).
    { apply (fold_body_Forall (fun q => file q = None));
        [reflexivity | | constructor].
      intros s v q1 Hq. destruct s; simpl;
        try (destruct (_ <? 4)%N); exact Hq. }
    rewrite Forall_forall in H.
    specialize (H (k, q0) Hg). simpl in H.
    unfold fileFrom. rewrite H. intros f []. }
  assert (Hf : forall fs done m,
             (forall k q0, get k m = Some q0 -> fileFrom done k q0) ->
             forall k q0, get k (fold_left fileStep fs m) = Some q0 ->
                          fileFrom (done ++ fs) k q0).
  { induction fs as [|x fs IH]; intros done m Hm k q0.
    - rewrite app_nil_r. apply Hm.
    - cbn [fold_left].
      replace (done ++ x :: fs) with ((done ++ [x]) ++ fs)
        by (rewrite <- app_assoc; reflexivity).
      apply IH. apply fileFrom_fileStep, Hm. }
  intros Hg. exact (Hf files [] _ Hb i q Hg).
Qed.

Example later_file_replaces_earlier :
  List.map (fun q => option_map filename (file q))
    (parseStoryQuestions mondBody sampleFiles)
  = [Some (lit "1-13.mp3")].
Proof. reflexivity. Qed.

(** A recording named with an index that is no double goes to the
    question whose index is its Number value. *)
Example file_under_a_rounded_index :
  List.map (fun e => (fst e, prompt (snd e),
                      option_map filename (file (snd e))))
    (candidates roundedBody
       [sampleFile "questions[9007199254740993][audio]" "2-7.mp3"])
  = [(9007199254740992%N, lit "B", Some (lit "2-7.mp3"))].
Proof. reflexivity. Qed.

Lemma question_files_come_from_uploads_witness :
  exists q f before,
    In (0%N, q) (candidates mondBody sampleFiles)
    /\ file q = Some f /\ filename f = lit "1-13.mp3"
    /\ sampleFiles = before ++ [f] /\ recordingOf 0 (fieldname f).
Proof.
  assert (E : exists q,
             candidates mondBody sampleFiles = [(0%N, q)]
             /\ file q = Some (sampleFile "questions[0][audio]" "1-13.mp3"))
    by (eexists; split; reflexivity).
  destruct E as [q [Ec Ef]].
  assert (Hin : In (0%N, q) (candidates mondBody sampleFiles))
    by (rewrite Ec; left; reflexivity).
  pose proof (question_files_come_from_uploads mondBody sampleFiles 0 q Hin)
    as H.
  rewrite Ef in H. destruct H as [before [after [H1 [H2 _]]]].
  exists q, (sampleFile "questions[0][audio]" "1-13.mp3"),
    [sampleFile "questions[0][audio]" "1-11.mp3";
     sampleFile "cover" "1-12.mp3"].
  repeat split; try assumption; reflexivity.
Defined.

(** ** Who may write *)

(** X4.  A request whose session is not that of the administrator
    changes nothing through any of the four admin-only POST routes: the
    database is as before, no file is handed to [fs.unlink], and the
    answer is the redirect to the login page when the session has no
    identity and the 403 page when it has one. *)
Theorem only_the_admin_writes (P : Platform) (E : Engine) (s : Session)
  (url : jsstring) (d : Database) :
  isAdmin (session_user s) = false ->
  let refusal :=
    match session_user s with
    | None => Redirect (lit "/login")
    | Some _ => Render 403 Error403Page
    end in
  (forall up,
     let out := postStories P s url up d in
     reply out = refusal /\ database out = d /\ unlinked out = [])
  /\ (forall form up,
        let out := postQuestions P s url form up d in
        reply out = refusal /\ database out = d /\ unlinked out = [])
  /\ (forall t1 t2 t3,
        let out := postVocabulary E s url t1 t2 t3 d in
        editor_reply out = EditorRefused refusal /\ editor_database out = d)
  /\ (forall t1 t2,
        let out := postGrammar E s url t1 t2 d in
        editor_reply out = EditorRefused refusal /\ editor_database out = d).
Proof.
  intros Ha. cbv zeta.
  unfold postStories, postQuestions, postVocabulary, postGrammar,
    requireAdmin.
  destruct (session_user s) as [u|] eqn:Eu.
  - rewrite Ha. simpl. repeat split.
  - simpl. repeat split.
Qed.

Lemma only_the_admin_writes_witness :
  reply (postStories plainPlatform readerSession (lit "/stories")
           (UploadDone mondBody sampleFiles) quizDb)
  = Render 403 Error403Page
  /\ database (postStories plainPlatform readerSession (lit "/stories")
                 (UploadDone mondBody sampleFiles) quizDb)
     = quizDb.
Proof.
  pose proof (only_the_admin_writes plainPlatform
                {| userInsertId := fun _ => 1%N;
                   acceptsUser := fun _ _ => true;
                   vocabularyInsertId := fun _ => 1%N;
                   acceptsVocabulary := fun _ _ => true;
                   grammarInsertId := fun _ => 1%N;
                   acceptsGrammar := fun _ _ => true |}
                readerSession (lit "/stories") quizDb eq_refl) as H.
  cbv zeta in H. destruct H as [H _].
  destruct (H (UploadDone mondBody sampleFiles)) as [H1 [H2 _]].
  split; [exact H1 | exact H2].
Defined.

(** ** What the authoring routes write *)

(** The handler of [POST /stories] either leaves the rows as they are
    or has saved the story and all its questions. *)
Lemma storiesHandler_all_or_nothing (P : Platform) (user : User)
  (s : Session) (body : Body) (files : list File) (d : Database) :
  let values := storyValues P body files in
  let out := storiesHandler P user s (UploadDone body files) d in
  (tables (database out) = tables d
   /\ statusOf (reply out) <> 302%N)
  \/ (storyError values = None
      /\ reply out = Redirect (lit "/story/" ++ ofN (storySeq d))
      /\ unlinked out = []
      /\ stories (tables (database out))
         = stories (tables d)
           ++ [storyRow (storySeq d) (user_id user) (clock d) values]
      /\ questions (tables (database out))
         = questions (tables d)
           ++ questionRows (storySeq d) (user_id user) (clock d)
                (questionSeq d) (v_questions values)
      /\ users (tables (database out)) = users (tables d)
      /\ vocabulary_entries (tables (database out))
         = vocabulary_entries (tables d)
      /\ grammar_topics (tables (database out))
         = grammar_topics (tables d)).
Proof.
  cbv zeta. rewrite storiesHandler_done.
  destruct (storyError (storyValues P body files)) as [msg|] eqn:E.
  { left. unfold submitStory. rewrite E. simpl. split; [auto|discriminate]. }
  destruct (submitStory_runs P user s body files d E) as [_ [H _]].
  cbv zeta in H.
  destruct H as [[Hr [Hun [Hst [Hqs [Hus [Hv [Hg _]]]]]]]
                |[Ht [[Hr _]|[ops [_ [[Hr _]|[Hr _]]]]]]].
  - right. auto 10.
  - left. rewrite Hr. split; [exact Ht | discriminate].
  - left. rewrite Hr. split; [exact Ht | discriminate].
  - left. rewrite Hr. split; [exact Ht | discriminate].
Qed.

(** The rows after [POST /stories], whatever multer left: as they
    were, or with the story and the questions of a body the handler
    could read and validation passed. *)
Lemma storiesHandler_any (P : Platform) (user : User) (s : Session)
  (up : Upload) (d : Database) :
  let out := storiesHandler P user s up d in
  (tables (database out) = tables d
   /\ statusOf (reply out) <> 302%N)
  \/ (exists body files,
        out = storiesHandler P user s (UploadDone body files) d
        /\ uploadedFiles up = files
        /\ storyError (storyValues P body files) = None
        /\ statusOf (reply out) = 302%N).
Proof.
  cbv zeta.
  destruct (storiesHandler_cases P user s up d)
    as [[msg [files [_ ->]]]
       |[[fields [files [_ [_ ->]]]]
        |[fields [files [body [-> [_ E]]]]]]].
  - left. simpl. split; [auto | discriminate].
  - left. simpl. split; [auto | discriminate].
  - rewrite E.
    pose proof (storiesHandler_all_or_nothing P user s body files d) as H.
    cbv zeta in H. rewrite (storiesHandler_done P user s body files d) in H.
    destruct H as [[Ht Hs]|[Herr [Hr _]]].
    + left. auto.
    + right. exists body, files.
      split; [rewrite storiesHandler_done; reflexivity|].
      split; [reflexivity|]. split; [exact Herr|].
      rewrite Hr. reflexivity.
Qed.

(** The same for the handler of [POST /questions]: the rows are as
    they were, or one question row was added for an existing story. *)
Lemma questionsHandler_all_or_nothing (P : Platform) (user : User)
  (s : Session) (form : QuestionForm) (up : SingleUpload) (d : Database) :
  let values := singleValues form in
  let out := questionsHandler P user s form up d in
  (tables (database out) = tables d /\ statusOf (reply out) <> 302%N)
  \/ (exists z story,
        sv_storyId values = Some z /\ (0 < z)%Z
        /\ isInteger z = true
        /\ getStoryById (Z.to_N z) d = Some story
        /\ sv_prompt values <> []
        /\ ~ In [] (sv_answers values)
        /\ ~ outOfRange (sv_correctIndex values)
        /\ reply out
           = Redirect (lit "/questions/new?created=" ++ ofN (questionSeq d))
        /\ unlinked out = []
        /\ tables (database out)
           = addQuestion
               (questionRow (Z.to_N z) (user_id user) (clock d)
                  (questionSeq d)
                  {| prompt := sv_prompt values;
                     answers := sv_answers values;
                     correctIndex := sv_correctIndex values;
                     file := uploadedFile up |})
               (tables d)).
Proof.
  cbv zeta. unfold questionsHandler.
  destruct up as [msg f | f]; [left; simpl; split; [auto | discriminate]|].
  destruct (badStoryId _) eqn:Eid;
    [left; simpl; split; [auto | discriminate]|].
  destruct (truthy (sv_prompt (singleValues form))) eqn:Ep; cbn [negb];
    [|left; simpl; split; [auto | discriminate]].
  destruct (existsb _ _) eqn:Ea;
    [left; simpl; split; [auto | discriminate]|].
  destruct (badCorrectIndex _) eqn:Ec;
    [left; simpl; split; [auto | discriminate]|].
  destruct (sv_storyId (singleValues form)) as [z|] eqn:Ez;
    [|discriminate].
  cbn [badStoryId] in Eid. apply orb_false_iff in Eid.
  destruct Eid as [Eint Eid]. apply negb_false_iff in Eint.
  apply Z.leb_gt in Eid.
  destruct (getStoryById (Z.to_N z) d) as [story|] eqn:Es;
    [|left; simpl; split; [auto | discriminate]].
  unfold createQuestion.
  destruct (acceptsQuestion P _ _);
    [|left; simpl; split; [auto | discriminate]].
  right. exists z, story.
  cbn [reply database unlinked tables uploadedFile rowsSeen writeRows
         logOp withQuestionCounter withTables].
  repeat split; try assumption; try reflexivity.
  - apply truthy_true, Ep.
  - intros Hin. apply some_empty_In in Hin. congruence.
  - intros Ho. apply badCorrectIndex_outOfRange in Ho. congruence.
Qed.

Lemma singleAnswers_length (a : AnswersField) :
  (4 <= List.length (singleAnswers a))%nat.
Proof.
  unfold singleAnswers.
  destruct (List.length _ <? 4)%nat eqn:E.
  - rewrite length_firstn, length_app. cbn [List.length]. lia.
  - apply Nat.ltb_ge in E. exact E.
Qed.

(** X5.  Whatever the request, a story row that [POST /stories] writes
    has a level among A1 .. C2 and a title, a summary and a body that
    are not empty and are trimmed, and its author is the identity of
    the session, which is the administrator. *)
Theorem story_rows_written_are_valid (P : Platform) (s : Session)
  (url : jsstring) (up : Upload) (d : Database) (r : StoryRow) :
  In r (stories (tables (database (postStories P s url up d)))) ->
  In r (stories (tables d))
  \/ (In (story_level r) STORY_LEVELS
      /\ story_title r <> [] /\ story_summary r <> []
      /\ story_body r <> []
      /\ trim (story_title r) = story_title r
      /\ trim (story_summary r) = story_summary r
      /\ trim (story_body r) = story_body r
      /\ story_id r = storySeq d
      /\ exists user, session_user s = Some user
                      /\ user_email user = ADMIN_EMAIL
                      /\ story_author r = user_id user).
Proof.
  unfold postStories, requireAdmin.
  destruct (session_user s) as [user|] eqn:Eu; [|simpl; auto].
  destruct (isAdmin (Some user)) eqn:Ea; [|simpl; auto].
  cbn [negb]. rewrite Eu.
  destruct (storiesHandler_any P user s up d)
    as [[Ht _] | [body [files [-> _]]]]; [rewrite Ht; auto|].
  destruct (storiesHandler_all_or_nothing P user s body files d)
    as [[Ht _] | [Herr [_ [_ [Hst _]]]]].
  - rewrite Ht. auto.
  - rewrite Hst. intros Hin. apply in_app_iff in Hin.
    destruct Hin as [Hin|[<-|[]]]; [auto|]. right.
    apply storyError_None in Herr. destruct Herr as [Hf _].
    unfold storyFieldsInvalid in Hf. simpl in Hf |- *.
    repeat split; try (intros H; apply Hf; tauto);
      try apply trim_idem.
    + destruct (in_dec (list_eq_dec N.eq_dec)
                  (toUpperCase P (trim (orEmpty (field (lit "level") body))))
                  STORY_LEVELS) as [H|H]; [exact H|].
      exfalso. apply Hf. tauto.
    + exists user. repeat split.
      simpl in Ea. apply str_eqb_eq, Ea.
Qed.

Lemma story_rows_written_are_valid_witness :
  In (sampleStory 7 100)
    (stories
       (tables
          (database
             (postStories plainPlatform adminSession (lit "/stories")
                (UploadDone mondBody []) emptyDb))))
  /\ In (story_level (sampleStory 7 100)) STORY_LEVELS
  /\ story_title (sampleStory 7 100) <> [].
Proof.
  assert (Hin : In (sampleStory 7 100)
                  (stories
                     (tables
                        (database
                           (postStories plainPlatform adminSession
                              (lit "/stories") (UploadDone mondBody [])
                              emptyDb)))))
    by (left; reflexivity).
  split; [exact Hin|].
  destruct (story_rows_written_are_valid plainPlatform adminSession
              (lit "/stories") (UploadDone mondBody []) emptyDb
              (sampleStory 7 100) Hin) as [[]|[H1 [H2 _]]].
  split; [exact H1 | exact H2].
Defined.

Lemma parse_shaped (body : Body) (files : list File) (q : Question) :
  In q (parseStoryQuestions body files) -> shaped q.
Proof.
  intros Hin. apply parse_In in Hin. destruct Hin as [i [Hin _]].
  assert (Hc : In (i, q) (collect body files)).
  { eapply Permutation_in; [apply sortBy_perm | exact Hin]. }
  pose proof (collect_shaped body files) as H.
  rewrite Forall_forall in H. exact (H (i, q) Hc).
Qed.

Lemma nth_not_empty (l : list jsstring) (n : nat) :
  (n < List.length l)%nat -> ~ In [] l -> nth n l [] <> [].
Proof.
  intros Hn Hno E. apply Hno. rewrite <- E. apply nth_In, Hn.
Qed.

(** X6.  Whatever the request, a question row written by
    [POST /stories] or by [POST /questions] has a prompt and four
    answers none of which is empty. *)
Theorem question_rows_written_are_complete (P : Platform) (s : Session)
  (url : jsstring) (d : Database) (r : QuestionRow) :
  (forall up,
     In r (questions (tables (database (postStories P s url up d)))) ->
     In r (questions (tables d))
     \/ (question_prompt r <> [] /\ answer_a r <> [] /\ answer_b r <> []
         /\ answer_c r <> [] /\ answer_d r <> []))
  /\ (forall form up,
        In r (questions
                (tables (database (postQuestions P s url form up d)))) ->
        In r (questions (tables d))
        \/ (question_prompt r <> [] /\ answer_a r <> []
            /\ answer_b r <> [] /\ answer_c r <> []
            /\ answer_d r <> [])).
Proof.
  split.
  - intros up. unfold postStories.
    destruct (requireAdmin s url) as [s' [|rep]]; [|simpl; auto].
    destruct (session_user s') as [user|]; [|simpl; auto].
    destruct (storiesHandler_any P user s' up d)
      as [[Ht _] | [body [files [-> _]]]]; [rewrite Ht; auto|].
    destruct (storiesHandler_all_or_nothing P user s' body files d)
      as [[Ht _] | [Herr [_ [_ [_ [Hqs _]]]]]].
    + rewrite Ht. auto.
    + rewrite Hqs. intros Hin. apply in_app_iff in Hin.
      destruct Hin as [Hin|Hin]; [auto|]. right.
      apply questionRows_In in Hin. destruct Hin as [q [id [Hq ->]]].
      apply storyError_None in Herr. destruct Herr as [_ Hvalid].
      rewrite Forall_forall in Hvalid. specialize (Hvalid q Hq).
      simpl in Hq. apply parse_shaped in Hq. destruct Hq as [Hl _].
      unfold questionInvalid in Hvalid. simpl.
      split; [tauto|].
      repeat split; apply nth_not_empty; try (rewrite Hl; lia); tauto.
  - intros form up. unfold postQuestions.
    destruct (requireAdmin s url) as [s' [|rep]]; [|simpl; auto].
    destruct (session_user s') as [user|]; [|simpl; auto].
    destruct (questionsHandler_all_or_nothing P user s' form up d)
      as [[Ht _] | [z [story [_ [_ [_ [_ [Hp [Ha [_ [_ [_ Ht]]]]]]]]]]]].
    + rewrite Ht. auto.
    + rewrite Ht. simpl. intros Hin. apply in_app_iff in Hin.
      destruct Hin as [Hin|[<-|[]]]; [auto|]. right. simpl.
      pose proof (singleAnswers_length (form_answers form)) as Hl.
      split; [exact Hp|].
      repeat split; apply nth_not_empty; try exact Ha; simpl; lia.
Qed.

Lemma question_rows_written_are_complete_witness :
  In (questionRow 7 1 100 3 farbeQuestion)
    (questions
       (tables
          (database
             (postStories plainPlatform adminSession (lit "/stories")
                (UploadDone mondBody []) emptyDb))))
  /\ lit "Farbe?" <> [] /\ lit "Rot" <> [].
Proof.
  assert (Hin : In (questionRow 7 1 100 3 farbeQuestion)
                  (questions
                     (tables
                        (database
                           (postStories plainPlatform adminSession
                              (lit "/stories") (UploadDone mondBody [])
                              emptyDb)))))
    by (left; reflexivity).
  split; [exact Hin|].
  destruct (question_rows_written_are_complete plainPlatform adminSession
              (lit "/stories") emptyDb
              (questionRow 7 1 100 3 farbeQuestion)) as [H _].
  destruct (H (UploadDone mondBody []) Hin) as [[]|[H1 [H2 _]]].
  split; [exact H1 | exact H2].
Defined.

(** X7.  If every question row refers to a story of the stories
    table, this is still so after [POST /stories] and after
    [POST /questions], whatever the request: the questions of a new
    story refer to the story written with them, and a single question
    is only attached to a story that exists. *)
Theorem questions_always_have_their_story (P : Platform) (s : Session)
  (url : jsstring) (d : Database) :
  (forall r, In r (questions (tables d)) ->
     exists st, In st (stories (tables d))
                /\ story_id st = question_story r) ->
  (forall up r,
     In r (questions (tables (database (postStories P s url up d)))) ->
     exists st,
       In st (stories (tables (database (postStories P s url up d))))
       /\ story_id st = question_story r)
  /\ (forall form up r,
        In r (questions
                (tables (database (postQuestions P s url form up d)))) ->
        exists st,
          In st (stories
                   (tables (database (postQuestions P s url form up d))))
          /\ story_id st = question_story r).
Proof.
  intros Hd. split.
  - intros up r. unfold postStories.
    destruct (requireAdmin s url) as [s' [|rep]]; [|simpl; apply Hd].
    destruct (session_user s') as [user|]; [|simpl; apply Hd].
    destruct (storiesHandler_any P user s' up d)
      as [[Ht _] | [body [files [-> _]]]]; [rewrite Ht; apply Hd|].
    destruct (storiesHandler_all_or_nothing P user s' body files d)
      as [[Ht _] | [_ [_ [_ [Hst [Hqs _]]]]]].
    + rewrite Ht. apply Hd.
    + rewrite Hqs, Hst. intros Hin. apply in_app_iff in Hin.
      destruct Hin as [Hin|Hin].
      * destruct (Hd r Hin) as [st [H1 H2]]. exists st.
        split; [apply in_or_app; left; exact H1 | exact H2].
      * apply questionRows_In in Hin. destruct Hin as [q [id [_ ->]]].
        eexists. split; [apply in_or_app; right; left; reflexivity|].
        reflexivity.
  - intros form up r. unfold postQuestions.
    destruct (requireAdmin s url) as [s' [|rep]]; [|simpl; apply Hd].
    destruct (session_user s') as [user|]; [|simpl; apply Hd].
    destruct (questionsHandler_all_or_nothing P user s' form up d)
      as [[Ht _] | [z [story [_ [_ [_ [Hs [_ [_ [_ [_ [_ Ht]]]]]]]]]]]].
    + rewrite Ht. apply Hd.
    + rewrite Ht. simpl. intros Hin. apply in_app_iff in Hin.
      destruct Hin as [Hin|[<-|[]]]; [apply Hd, Hin|].
      unfold getStoryById in Hs. apply find_some in Hs.
      destruct Hs as [H1 H2]. apply N.eqb_eq in H2.
      exists story. split; [exact H1 | exact H2].
Qed.

Lemma questions_always_have_their_story_witness :
  exists st,
    In st (stories
             (tables
                (database
                   (postQuestions plainPlatform adminSession
                      (lit "/questions") (farbeForm fourAnswers)
                      (SingleDone None) quizDb))))
    /\ story_id st = 1%N.
Proof.
  assert (Hd : forall r, In r (questions (tables quizDb)) ->
                 exists st, In st (stories (tables quizDb))
                            /\ story_id st = question_story r).
  { intros r [<-|[<-|[]]]; exists (sampleStory 1 5);
      (split; [left; reflexivity | reflexivity]). }
  destruct (questions_always_have_their_story plainPlatform adminSession
              (lit "/questions") quizDb Hd) as [_ H].
  apply (H (farbeForm fourAnswers) (SingleDone None)
           (questionRow 1 1 100000 3
              {| prompt := lit "Farbe?";
                 answers := [lit "Rot"; lit "Blau"; lit "Gelb";
                             lit "Weiss"];
                 correctIndex := Some 2%Z; file := None |})).
  right. right. left. reflexivity.
Defined.

(** ** Files and connections *)

(** X8.  For a submission of an administrator, [POST /stories] hands
    every uploaded file to [fs.unlink] exactly when it answers with its
    own form: after an upload error, after a validation error, and
    with the 500 form after a rollback.  It unlinks none when it
    answers with the redirect, and none when the handler throws and
    the error middleware answers with the 500 page: then a field of
    the body could not be read, or a call on the pool or on the
    connection failed.  [POST /questions] unlinks the uploaded file on
    each of its 400 answers; when its insert throws, the answer is the
    500 page and the file is left in place. *)
Theorem uploads_are_unlinked_with_the_form (P : Platform) (s : Session)
  (url : jsstring) (user : User) (d : Database) :
  session_user s = Some user -> isAdmin (Some user) = true ->
  (forall up,
     let out := postStories P s url up d in
     match reply out with
     | Render _ (StoriesNewPage _ _) =>
         unlinked out = List.map filepath (uploadedFiles up)
     | _ => unlinked out = []
     end
     /\ (statusOf (reply out) = 400%N ->
         unlinked out = List.map filepath (uploadedFiles up))
     /\ (reply out = Render 500 Error500Page ->
         (exists fields files,
            up = UploadParsed fields files /\ readBody fields = None
            /\ database out = d)
         \/ In OpFailed (newOps d (database out))))
  /\ (forall form up,
        let out := postQuestions P s url form up d in
        (statusOf (reply out) = 400%N ->
         unlinked out = cleanupUploadedFile (uploadedFile up))
        /\ (statusOf (reply out) <> 400%N -> unlinked out = [])).
Proof.
  intros Hu Ha. split.
  - intros up. cbv zeta. rewrite (postStories_admin P s url up d user Hu Ha).
    destruct (storiesHandler_cases P user s up d)
      as [[msg [files [-> ->]]]
         |[[fields [files [-> [Hread ->]]]]
          |[fields [files [body [-> [Hread ->]]]]]]].
    + simpl. split; [reflexivity|]. split; [reflexivity|]. discriminate.
    + simpl. split; [reflexivity|]. split; [discriminate|].
      intros _. left. exists fields, files. auto.
    + cbn [uploadedFiles].
      destruct (storyError (storyValues P body files)) as [msg|] eqn:E.
      { unfold submitStory. rewrite E. simpl.
        split; [reflexivity|]. split; [reflexivity|]. discriminate. }
      destruct (submitStory_runs P user s body files d E) as [_ [H _]].
      cbv zeta in H.
      destruct H as [[Hr [Hun _]]
                    |[_ [[Hr [Hun Hops]]
                        |[ops [Hf [[Hr [Hun Hops]]|[Hr [Hun Hops]]]]]]]];
        rewrite Hr, Hun; cbn [renderForm statusOf].
      * split; [reflexivity|]. split; discriminate.
      * split; [reflexivity|]. split; [discriminate|].
        intros _. right. rewrite Hops. right. left. reflexivity.
      * split; [reflexivity|]. split; discriminate.
      * split; [reflexivity|]. split; [discriminate|].
        intros _. right. rewrite Hops. rewrite !in_app_iff.
        right. right. right. left. reflexivity.
  - intros form up. cbv zeta.
    rewrite (postQuestions_admin P s url form up d user Hu Ha).
    unfold questionsHandler.
    destruct up as [msg f | f];
      [simpl; split; [reflexivity | congruence]|].
    destruct (badStoryId _);
      [simpl; split; [reflexivity | congruence]|].
    destruct (negb _);
      [simpl; split; [reflexivity | congruence]|].
    destruct (existsb _ _);
      [simpl; split; [reflexivity | congruence]|].
    destruct (badCorrectIndex _);
      [simpl; split; [reflexivity | congruence]|].
    destruct (getStoryById _ d);
      [|simpl; split; [reflexivity | congruence]].
    unfold createQuestion.
    destruct (acceptsQuestion P _ _); simpl;
      (split; [discriminate | reflexivity]).
Qed.

Lemma uploads_are_unlinked_with_the_form_witness :
  unlinked (postStories plainPlatform adminSession (lit "/stories")
              (UploadDone mondBody5 sampleFiles) emptyDb)
  = List.map filepath sampleFiles
  /\ unlinked (postStories plainPlatform adminSession (lit "/stories")
                 (UploadDone mondBody sampleFiles) emptyDb)
     = [].
Proof.
  destruct (uploads_are_unlinked_with_the_form plainPlatform adminSession
              (lit "/stories") adminUser emptyDb eq_refl eq_refl)
    as [H _].
  split.
  - destruct (H (UploadDone mondBody5 sampleFiles)) as [_ [H2 _]].
    apply H2. reflexivity.
  - destruct (H (UploadDone mondBody sampleFiles)) as [H1 _].
    exact H1.
Defined.

(** A title that is an array, as a JSON body or a repeated field
    gives it: the handler throws, the files stay and nothing is asked
    of the database. *)
Example unreadable_title_leaves_the_files :
  let out := postStories plainPlatform adminSession (lit "/stories")
               (UploadParsed
                  [(lit "title", NotText true (Some (lit "a,b")));
                   (lit "level", Text (lit "A1"))]
                  sampleFiles) quizDb in
  reply out = Render 500 Error500Page
  /\ unlinked out = [] /\ database out = quizDb.
Proof. vm_compute. auto. Qed.

(** A pool that hands out no connection, and an engine that cannot
    roll back after a rejected insert: the 500 page, the files stay. *)
Example failed_calls_leave_the_files :
  let noPool :=
    {| toUpperCase := asciiUpper; toLowerCase := asciiLower;
       bcryptCompare := str_eqb; emailEq := str_eqb;
       acceptsStory := fun _ _ => true;
       acceptsQuestion := fun _ _ => true;
       connects := fun _ => false; begins := fun _ => true;
       commits := fun _ => true; rollsBack := fun _ => true |} in
  let noRollback :=
    {| toUpperCase := asciiUpper; toLowerCase := asciiLower;
       bcryptCompare := str_eqb; emailEq := str_eqb;
       acceptsStory := fun _ _ => true;
       acceptsQuestion := fun _ _ => false;
       connects := fun _ => true; begins := fun _ => true;
       commits := fun _ => true; rollsBack := fun _ => false |} in
  let out1 := postStories noPool adminSession (lit "/stories")
                (UploadDone mondBody sampleFiles) emptyDb in
  let out2 := postStories noRollback adminSession (lit "/stories")
                (UploadDone mondBody sampleFiles) emptyDb in
  reply out1 = Render 500 Error500Page /\ unlinked out1 = []
  /\ newOps emptyDb (database out1) = [OpGetConnection; OpFailed]
  /\ reply out2 = Render 500 Error500Page /\ unlinked out2 = []
  /\ tables (database out2) = noTables
  /\ newOps emptyDb (database out2)
     = [OpGetConnection; OpBeginTransaction; OpInsertStory 7;
        OpInsertRejected; OpRollback; OpFailed; OpRelease].
Proof. vm_compute. repeat split. Qed.

(** X9.  The handler of [POST /stories] asks of the database one of
    these.  Nothing: after an upload error, a validation error, or a
    field that could not be read.  A connection, in vain.  Or it takes
    a connection and in the end releases it, once; in between it
    either begins a transaction, inserts the story and every question
    in order and commits, and then answers with the redirect; or the
    [try] block throws (the transaction does not begin, an insert is
    rejected with nothing inserted after it, or the commit fails), and
    then it asks for the rollback and answers 500, with its form when
    the rollback succeeds and with the 500 page when it fails.  When it
    had a connection and does not answer with the 500 page, the
    transaction is closed: nothing of the submission is left
    pending. *)
Theorem connection_is_always_released (P : Platform) (user : User)
  (s : Session) (up : Upload) (d : Database) :
  let out := storiesHandler P user s up d in
  let ops := newOps d (database out) in
  ((ops = []
    /\ (statusOf (reply out) = 400%N
        \/ reply out = Render 500 Error500Page))
   \/ (ops = [OpGetConnection; OpFailed]
       /\ reply out = Render 500 Error500Page)
   \/ (exists fields files body,
         up = UploadParsed fields files /\ readBody fields = Some body
         /\ ((statusOf (reply out) = 302%N
              /\ ops = [OpGetConnection]
                       ++ committedTry (storySeq d) (questionSeq d)
                            (List.length (parseStoryQuestions body files))
                       ++ [OpRelease])
             \/ (exists tried,
                   failedTry (storySeq d) (questionSeq d)
                     (List.length (parseStoryQuestions body files)) tried
                   /\ ((statusOf (reply out) = 500%N
                        /\ formError (reply out)
                           = Some MSG_STORY_UNEXPECTED
                        /\ ops = [OpGetConnection] ++ tried
                                 ++ [OpRollback; OpRelease])
                       \/ (reply out = Render 500 Error500Page
                           /\ ops = [OpGetConnection] ++ tried
                                    ++ [OpRollback; OpFailed;
                                        OpRelease]))))))
  /\ (ops = [] \/ ops = [OpGetConnection; OpFailed]
      \/ exists between,
           ops = [OpGetConnection] ++ between ++ [OpRelease]
           /\ ~ In OpGetConnection between /\ ~ In OpRelease between)
  /\ (In OpCommit ops -> In OpRollback ops -> In OpFailed ops)
  /\ (In OpGetConnection ops -> reply out <> Render 500 Error500Page ->
      uncommitted (database out) = None).
Proof.
  cbv zeta. rewrite !and_assoc_4.
  split.
  2:{ destruct (storiesHandler_cases P user s up d)
        as [[msg [files [-> ->]]]
           |[[fields [files [-> [Hread ->]]]]
            |[fields [files [body [-> [Hread ->]]]]]]].
      - simpl. rewrite newOps_same. intros [].
      - simpl. rewrite newOps_same. intros [].
      - destruct (storyError (storyValues P body files)) as [msg|] eqn:E.
        + unfold submitStory. rewrite E. simpl. rewrite newOps_same.
          intros [].
        + intros _. apply (submitStory_closes P user s body files d E). }
  destruct (storiesHandler_cases P user s up d)
    as [[msg [files [-> ->]]]
       |[[fields [files [-> [Hread ->]]]]
        |[fields [files [body [-> [Hread ->]]]]]]].
  { simpl. rewrite newOps_same. split; [auto|]. split; [auto|].
    intros []. }
  { simpl. rewrite newOps_same. split; [auto|]. split; [auto|].
    intros []. }
  destruct (storyError (storyValues P body files)) as [msg|] eqn:E.
  { unfold submitStory. rewrite E. simpl. rewrite newOps_same.
    split; [auto|]. split; [auto|]. intros []. }
  destruct (submitStory_runs P user s body files d E) as [_ [H _]].
  cbv zeta in H. cbn [v_questions storyValues] in H.
  destruct H as [[Hr [_ [_ [_ [_ [_ [_ [_ Hops]]]]]]]]
                |[_ [[Hr [_ Hops]]
                    |[tried [Hf [[Hr [_ Hops]]|[Hr [_ Hops]]]]]]]];
    rewrite Hops, Hr.
  - split; [|split].
    + right. right. exists fields, files, body.
      split; [reflexivity|]. split; [exact Hread|]. left. auto.
    + right. right. eexists. split; [reflexivity|].
      split; intros H; apply committedTry_In in H;
        destruct H as [H|[H|[H|[id H]]]]; discriminate.
    + intros _ H. exfalso. rewrite !in_app_iff in H.
      destruct H as [[H|[]]|[H|[H|[]]]]; try discriminate.
      apply committedTry_In in H.
      destruct H as [H|[H|[H|[id H]]]]; discriminate.
  - split; [auto|]. split; [auto|].
    intros [H|[H|[]]]; discriminate.
  - destruct (failedTry_In _ _ _ _ Hf) as [Hthrown [Hnr [Hnl Hng]]].
    split; [|split].
    + right. right. exists fields, files, body.
      split; [reflexivity|]. split; [exact Hread|]. right.
      exists tried. split; [exact Hf|]. left. auto.
    + right. right. exists (tried ++ [OpRollback]).
      rewrite <- !app_assoc. split; [reflexivity|].
      split; rewrite in_app_iff; intros [H|[H|[]]]; try discriminate;
        tauto.
    + intros Hc _. rewrite !in_app_iff in Hc |- *.
      destruct Hthrown as [Hrej|Hfail]; [|tauto].
      exfalso.
      destruct Hc as [[Hc|[]]|[Hc|[Hc|[Hc|[]]]]]; try discriminate.
      destruct Hf as [-> | [-> | [[n [_ ->]] | ->]]].
      * destruct Hc as [Hc|[Hc|[]]]; discriminate.
      * destruct Hc as [Hc|[Hc|[]]]; discriminate.
      * rewrite !in_app_iff in Hc.
        destruct Hc as [[Hc|[Hc|[]]]|[Hc|[Hc|[]]]]; try discriminate.
        apply insertOps_In in Hc. destruct Hc as [id Hc]. discriminate.
      * rewrite !in_app_iff in Hrej.
        destruct Hrej as [[Hc'|[Hc'|[]]]|[Hc'|[Hc'|[Hc'|[]]]]];
          try discriminate.
        apply insertOps_In in Hc'. destruct Hc' as [id Hc'].
        discriminate.
  - destruct (failedTry_In _ _ _ _ Hf) as [Hthrown [Hnr [Hnl Hng]]].
    split; [|split].
    + right. right. exists fields, files, body.
      split; [reflexivity|]. split; [exact Hread|]. right.
      exists tried. split; [exact Hf|]. right. auto.
    + right. right. exists (tried ++ [OpRollback; OpFailed]).
      rewrite <- !app_assoc. split; [reflexivity|].
      split; rewrite in_app_iff; intros [H|[H|[H|[]]]];
        try discriminate; tauto.
    + intros _ _. rewrite !in_app_iff. right. right. right. left.
      reflexivity.
Qed.

(** ** From the form to the reader's page *)

Lemma sortBy_sorted_same {A : Type} (leb : A -> A -> bool) (l : list A) :
  StronglySorted (fun x y => leb x y = true) l -> sortBy leb l = l.
Proof.
  induction 1 as [|x r Hs IH Hall]; simpl; [reflexivity|].
  rewrite IH. destruct r as [|y r']; [reflexivity|].
  simpl. inversion Hall as [|? ? Hy _]; subst. rewrite Hy. reflexivity.
Qed.

Lemma questionRows_ids (storyId authorId created id : N)
  (qs : list Question) (r : QuestionRow) :
  (id <= UINT_MAX)%N ->
  In r (questionRows storyId authorId created id qs) ->
  (id <= question_id r)%N /\ question_story r = storyId.
Proof.
  revert id. induction qs as [|q qs IH]; intros id Hid; simpl; [tauto|].
  intros [<-|H]; [simpl; split; [lia | reflexivity]|].
  destruct (IH _ (nextId_uint id) H).
  pose proof (nextId_le id Hid).
  split; [lia | assumption].
Qed.

Lemma questionRows_sorted (storyId authorId created id : N)
  (qs : list Question) :
  (id <= UINT_MAX)%N ->
  StronglySorted (fun x y => ascending question_id x y = true)
    (questionRows storyId authorId created id qs).
Proof.
  revert id. induction qs as [|q qs IH]; intros id Hid; simpl;
    constructor.
  - apply IH, nextId_uint.
  - apply Forall_forall. intros r Hr.
    apply questionRows_ids in Hr; [|apply nextId_uint].
    pose proof (nextId_le id Hid).
    unfold ascending. simpl. apply N.leb_le. lia.
Qed.

Lemma filter_all {A : Type} (f : A -> bool) (l : list A) :
  (forall x, In x l -> f x = true) -> filter f l = l.
Proof.
  induction l as [|a l IH]; simpl; intros H; [reflexivity|].
  rewrite (H a (or_introl eq_refl)), IH; [reflexivity|].
  intros x Hx. apply H. right. exact Hx.
Qed.

Lemma filter_none {A : Type} (f : A -> bool) (l : list A) :
  (forall x, In x l -> f x = false) -> filter f l = [].
Proof.
  induction l as [|a l IH]; simpl; intros H; [reflexivity|].
  rewrite (H a (or_introl eq_refl)). apply IH.
  intros x Hx. apply H. right. exact Hx.
Qed.

Lemma four_answers (l : list jsstring) :
  List.length l = 4%nat -> [nth 0 l []; nth 1 l []; nth 2 l []; nth 3 l []] = l.
Proof.
  destruct l as [|a [|b [|c [|e [|? ?]]]]]; simpl; try discriminate.
  reflexivity.
Qed.

Lemma questionRows_views (storyId authorId created id : N)
  (qs : list Question) :
  Forall shaped qs ->
  List.map viewContent
    (List.map
       (fun r => {| view_id := question_id r;
                    view_prompt := question_prompt r;
                    view_answers :=
                      [answer_a r; answer_b r; answer_c r; answer_d r];
                    view_correctIndex := correct_index r;
                    view_audioPath := audio_path r |})
       (questionRows storyId authorId created id qs))
  = List.map storedContent qs.
Proof.
  revert id. induction qs as [|q qs IH]; intros id H; simpl;
    [reflexivity|].
  inversion H as [|? ? [Hl _] Hr]; subst.
  rewrite (IH _ Hr). unfold viewContent at 1, storedContent at 1. simpl.
  rewrite (four_answers _ Hl). reflexivity.
Qed.

Lemma find_new_story (l : list StoryRow) (st : StoryRow) :
  (forall x, In x l -> story_id x <> story_id st) ->
  forall id, id = story_id st ->
  find (fun r => N.eqb (story_id r) id) (l ++ [st]) = Some st.
Proof.
  intros Hfresh id ->. induction l as [|x l IH]; simpl.
  - rewrite N.eqb_refl. reflexivity.
  - destruct (N.eqb_spec (story_id x) (story_id st)) as [Heq|_].
    + exfalso. apply (Hfresh x); [left; reflexivity | exact Heq].
    + apply IH. intros y Hin. apply Hfresh. right. exact Hin.
Qed.

(** X10.  After a valid submission of an administrator on an engine
    that takes every row and every call, following the redirect shows
    the story just saved with its questions: if no earlier row has the id of the new
    story, [GET /story/:id] for the id written into the redirect
    answers with the page of the new story, and the questions on it
    are the parsed questions in the order of their indices, each with
    its prompt, its four answers, its correct index and its audio
    path. *)
Theorem saved_story_is_shown (P : Platform) (s : Session)
  (url url' : jsstring) (user : User) (body : Body) (files : list File)
  (d : Database) :
  session_user s = Some user -> isAdmin (Some user) = true ->
  acceptsAll P ->
  storyError (storyValues P body files) = None ->
  (forall st, In st (stories (tables d)) -> story_id st <> storySeq d) ->
  (forall r, In r (questions (tables d)) ->
             question_story r <> storySeq d) ->
  let out := postStories P s url (UploadDone body files) d in
  reply out = Redirect (lit "/story/" ++ ofN (storySeq d))
  /\ exists prevStory nextStory views,
       getStory (session out) url' (ofN (storySeq d)) (database out)
       = (session out,
          StoryShown
            (storyRow (storySeq d) (user_id user) (clock d)
               (storyValues P body files))
            prevStory nextStory views)
       /\ List.map viewContent views
          = List.map storedContent (parseStoryQuestions body files).
Proof.
  intros Hu Ha Hacc E Hfresh Hfreshq. cbv zeta.
  rewrite (postStories_admin P s url _ d user Hu Ha).
  destruct (storiesHandler_saved P user s body files d Hacc E)
    as [Hr [Hst [Hqs _]]].
  split; [exact Hr|].
  assert (Hsess : session (storiesHandler P user s (UploadDone body files) d)
                  = s).
  { rewrite storiesHandler_done.
    apply (submitStory_runs P user s body files d E). }
  rewrite Hsess.
  unfold getStory, requireAuth.
  rewrite Hu, (parseInt_ofN _ (size_uint _ (storySeq_uint d))).
  unfold getStoryByNumber.
  destruct (Z.ltb_spec (Z.of_N (storySeq d)) 0) as [Hneg|_]; [lia|].
  rewrite N2Z.id. unfold getStoryById. rewrite Hst.
  rewrite (find_new_story (stories (tables d))
             (storyRow (storySeq d) (user_id user) (clock d)
                (storyValues P body files)) Hfresh (storySeq d) eq_refl).
  destruct (getAdjacentStories _ _) as [prevStory nextStory].
  eexists prevStory, nextStory, _. split; [reflexivity|].
  unfold getQuestionsForStory, orderedQuestions. rewrite Hqs.
  rewrite filter_app.
  rewrite (filter_none _ (questions (tables d))).
  2:{ intros r Hin. apply N.eqb_neq, Hfreshq, Hin. }
  rewrite filter_all.
  2:{ intros r Hin.
      apply questionRows_ids in Hin; [|apply questionSeq_uint].
      apply N.eqb_eq. tauto. }
  simpl app.
  rewrite sortBy_sorted_same
    by apply questionRows_sorted, questionSeq_uint.
  apply questionRows_views.
  apply Forall_forall. intros q Hq. simpl in Hq.
  eapply parse_shaped, Hq.
Qed.

Lemma saved_story_is_shown_witness :
  let out := postStories plainPlatform adminSession (lit "/stories")
               (UploadDone mondBody sampleFiles) emptyDb in
  reply out = Redirect (lit "/story/7")
  /\ exists prevStory nextStory views,
       snd (getStory (session out) (lit "/story/7") (lit "7")
              (database out))
       = StoryShown (sampleStory 7 100) prevStory nextStory views
       /\ List.map viewContent views
          = [(lit "Farbe?",
              [lit "Rot"; lit "Blau"; lit "Gr" ++ [252%N] ++ lit "n";
               lit "Gelb"],
              Some 2%Z, Some (lit "uploads/questions/1-13.mp3"))].
Proof.
  cbv zeta.
  destruct (saved_story_is_shown plainPlatform adminSession
              (lit "/stories") (lit "/story/7") adminUser mondBody
              sampleFiles emptyDb eq_refl eq_refl plainPlatform_acceptsAll
              eq_refl) as [H1 [p [n [v [H2 H3]]]]].
  - intros st [].
  - intros r [].
  - split; [exact H1|]. exists p, n, v. split.
    + change (lit "7") with (ofN (storySeq emptyDb)).
      rewrite H2. reflexivity.
    + rewrite H3. reflexivity.
Defined.

(** ** The neighbours of a story *)

Lemma firstRow_least {A : Type} (leb : A -> A -> bool) (l : list A) :
  (forall x y, leb x y = false -> leb y x = true) ->
  (forall x y z, leb x y = true -> leb y z = true -> leb x z = true) ->
  match firstRow (sortBy leb l) with
  | Some r => In r l /\ forall x, In x l -> leb r x = true
  | None => l = []
  end.
Proof.
  intros Htot Htrans.
  pose proof (sortBy_sorted leb Htot Htrans l) as Hs.
  pose proof (sortBy_perm leb l) as Hp.
  destruct (sortBy leb l) as [|r rest]; simpl.
  - apply Permutation_nil. exact Hp.
  - split.
    + eapply Permutation_in; [exact Hp | left; reflexivity].
    + intros x Hx.
      assert (Hx' : In x (r :: rest))
        by (eapply Permutation_in; [apply Permutation_sym, Hp | exact Hx]).
      destruct Hx' as [<-|Hx'].
      * destruct (leb r r) eqn:E; [reflexivity|].
        pose proof (Htot _ _ E). congruence.
      * inversion Hs as [|? ? _ Hall]; subst.
        rewrite Forall_forall in Hall. apply Hall, Hx'.
Qed.

(** X11.  [getAdjacentStories] names the nearest neighbours by id: the
    previous story is the story with the largest id below the given
    number and the next story the one with the smallest id above it;
    either is missing exactly when no story has a smaller, or a
    larger, id. *)
Theorem adjacent_stories_are_nearest (z : Z) (d : Database) :
  match fst (getAdjacentStories z d) with
  | Some (id, title) =>
      (Z.of_N id < z)%Z
      /\ (exists st, In st (stories (tables d))
                     /\ story_id st = id /\ story_title st = title)
      /\ forall st, In st (stories (tables d)) ->
           (Z.of_N (story_id st) < z)%Z -> (story_id st <= id)%N
  | None =>
      forall st, In st (stories (tables d)) -> (z <= Z.of_N (story_id st))%Z
  end
  /\ match snd (getAdjacentStories z d) with
     | Some (id, title) =>
         (z < Z.of_N id)%Z
         /\ (exists st, In st (stories (tables d))
                        /\ story_id st = id /\ story_title st = title)
         /\ forall st, In st (stories (tables d)) ->
              (z < Z.of_N (story_id st))%Z -> (id <= story_id st)%N
     | None =>
         forall st, In st (stories (tables d)) ->
                    (Z.of_N (story_id st) <= z)%Z
     end.
Proof.
  unfold getAdjacentStories, prevRows, nextRows. cbn [fst snd]. split.
  - match goal with
    | |- context [firstRow (sortBy ?leb ?l)] =>
        pose proof (firstRow_least leb l) as H;
        destruct (firstRow (sortBy leb l)) as [r|]
    end; simpl.
    + destruct H as [Hin Hmin].
      * unfold descending. intros x y E. apply N.leb_gt in E.
        apply N.leb_le. lia.
      * unfold descending. intros x y w E1 E2.
        apply N.leb_le in E1, E2. apply N.leb_le. lia.
      * apply filter_In in Hin. destruct Hin as [Hin Hlt].
        apply Z.ltb_lt in Hlt. split; [exact Hlt|].
        split; [exists r; auto|].
        intros st Hst Hz.
        assert (Hf : In st (filter (fun r0 => (Z.of_N (story_id r0) <? z)%Z)
                              (stories (tables d)))).
        { apply filter_In. split; [exact Hst | apply Z.ltb_lt, Hz]. }
        specialize (Hmin st Hf). unfold descending in Hmin.
        apply N.leb_le in Hmin. exact Hmin.
    + intros st Hst.
      destruct (Z.ltb_spec (Z.of_N (story_id st)) z) as [Hlt|Hge];
        [|exact Hge].
      exfalso.
      assert (Hf : In st (filter (fun r0 => (Z.of_N (story_id r0) <? z)%Z)
                            (stories (tables d)))).
      { apply filter_In. split; [exact Hst | apply Z.ltb_lt, Hlt]. }
      rewrite H in Hf.
      * destruct Hf.
      * unfold descending. intros x y E. apply N.leb_gt in E.
        apply N.leb_le. lia.
      * unfold descending. intros x y w E1 E2.
        apply N.leb_le in E1, E2. apply N.leb_le. lia.
  - match goal with
    | |- context [firstRow (sortBy ?leb ?l)] =>
        pose proof (firstRow_least leb l) as H;
        destruct (firstRow (sortBy leb l)) as [r|]
    end; simpl.
    + destruct H as [Hin Hmin].
      * unfold ascending. intros x y E. apply N.leb_gt in E.
        apply N.leb_le. lia.
      * unfold ascending. intros x y w E1 E2.
        apply N.leb_le in E1, E2. apply N.leb_le. lia.
      * apply filter_In in Hin. destruct Hin as [Hin Hlt].
        apply Z.ltb_lt in Hlt. split; [exact Hlt|].
        split; [exists r; auto|].
        intros st Hst Hz.
        assert (Hf : In st (filter (fun r0 => (z <? Z.of_N (story_id r0))%Z)
                              (stories (tables d)))).
        { apply filter_In. split; [exact Hst | apply Z.ltb_lt, Hz]. }
        specialize (Hmin st Hf). unfold ascending in Hmin.
        apply N.leb_le in Hmin. exact Hmin.
    + intros st Hst.
      destruct (Z.ltb_spec z (Z.of_N (story_id st))) as [Hlt|Hge];
        [|exact Hge].
      exfalso.
      assert (Hf : In st (filter (fun r0 => (z <? Z.of_N (story_id r0))%Z)
                            (stories (tables d)))).
      { apply filter_In. split; [exact Hst | apply Z.ltb_lt, Hlt]. }
      rewrite H in Hf.
      * destruct Hf.
      * unfold ascending. intros x y E. apply N.leb_gt in E.
        apply N.leb_le. lia.
      * unfold ascending. intros x y w E1 E2.
        apply N.leb_le in E1, E2. apply N.leb_le. lia.
Qed.

Example neighbours_of_the_second_story :
  getAdjacentStories 2 quizDb = (Some (1%N, lit "Der Mond"), None)
  /\ getAdjacentStories 0 quizDb = (None, Some (1%N, lit "Der Mond")).
Proof. split; reflexivity. Qed.

(** ** The reader's page *)

(** X12.  [GET /story/:id] sends a visitor without identity to the
    login page and remembers the path, whatever the id.  For a visitor
    with an identity the session stays as it is; the answer is the 404
    page exactly when the id parameter does not start with a number or
    no story has that number as its id; otherwise the page shows a
    story of the table with that id, its neighbours as
    [getAdjacentStories] gives them, and only questions that belong to
    this story. *)
Theorem story_page_answers (s : Session) (url idParam : jsstring)
  (d : Database) :
  (session_user s = None ->
   getStory s url idParam d
   = (rememberUrl s url, StoryRefused (Redirect (lit "/login"))))
  /\ (session_user s <> None ->
      fst (getStory s url idParam d) = s
      /\ (snd (getStory s url idParam d) = StoryNotFound
          <-> parseInt idParam = None
              \/ exists z, parseInt idParam = Some z
                           /\ forall st, In st (stories (tables d)) ->
                                         Z.of_N (story_id st) <> z)
      /\ forall story p n views,
           snd (getStory s url idParam d) = StoryShown story p n views ->
           In story (stories (tables d))
           /\ parseInt idParam = Some (Z.of_N (story_id story))
           /\ (p, n) = getAdjacentStories (Z.of_N (story_id story)) d
           /\ forall v, In v views ->
                exists r, In r (questions (tables d))
                          /\ question_story r = story_id story
                          /\ view_id v = question_id r
                          /\ view_prompt v = question_prompt r).
Proof.
  unfold getStory, requireAuth. split.
  - intros ->. reflexivity.
  - destruct (session_user s) as [u|]; [intros _ | congruence].
    destruct (parseInt idParam) as [z|]; cbn [fst snd].
    2:{ split; [reflexivity|]. split; [tauto | discriminate]. }
    unfold getStoryByNumber, getStoryById.
    destruct (Z.ltb_spec z 0) as [Hneg|Hpos].
    { split; [reflexivity|]. split.
      - split; [|reflexivity]. intros _. right. exists z.
        split; [reflexivity|]. intros st _. lia.
      - discriminate. }
    destruct (find _ _) as [story|] eqn:Ef.
    + apply find_some in Ef. destruct Ef as [Hin Hid].
      apply N.eqb_eq in Hid.
      assert (Hz : Z.of_N (story_id story) = z) by (rewrite Hid; lia).
      destruct (getAdjacentStories z d) as [p0 n0] eqn:Eadj.
      cbn [fst snd]. split; [reflexivity|]. split.
      * split; [discriminate|].
        intros [H|[z' [[= <-] H]]]; [discriminate|].
        exfalso. exact (H story Hin Hz).
      * intros story' p n views [= <- <- <- <-].
        split; [exact Hin|]. split; [congruence|].
        split; [rewrite Hz, Eadj; reflexivity|].
        intros v Hv. unfold getQuestionsForStory in Hv.
        apply in_map_iff in Hv. destruct Hv as [r [<- Hr]].
        unfold orderedQuestions in Hr.
        apply (Permutation_in _ (sortBy_perm _ _)) in Hr.
        apply filter_In in Hr. destruct Hr as [Hr Hs].
        apply N.eqb_eq in Hs. exists r. simpl.
        repeat split; try assumption. congruence.
    + cbn [fst snd]. split; [reflexivity|]. split; [|discriminate].
      split; [|reflexivity]. intros _. right. exists z.
      split; [reflexivity|]. intros st Hst Hz.
      apply (find_none _ _ Ef) in Hst.
      apply N.eqb_neq in Hst. apply Hst. lia.
Qed.

Lemma story_page_answers_witness :
  fst (getStory readerSession (lit "/story/9") (lit "9") quizDb)
  = readerSession
  /\ snd (getStory readerSession (lit "/story/9") (lit "9") quizDb)
     = StoryNotFound
  /\ getStory anonymous (lit "/story/1") (lit "1") quizDb
     = (rememberUrl anonymous (lit "/story/1"),
        StoryRefused (Redirect (lit "/login"))).
Proof.
  destruct (story_page_answers readerSession (lit "/story/9") (lit "9")
              quizDb) as [_ H].
  destruct H as [H1 [H2 _]]; [discriminate|].
  destruct (story_page_answers anonymous (lit "/story/1") (lit "1") quizDb)
    as [H3 _].
  split; [exact H1|]. split; [|exact (H3 eq_refl)].
  apply H2. right. exists 9%Z. split; [reflexivity|].
  intros st [<-|[<-|[]]]; discriminate.
Defined.

(** ** One question for an existing story *)

Lemma short_answers_have_a_blank (a : AnswersField) :
  match a with
  | AnswersArray l => (List.length l < 4)%nat
  | _ => True
  end ->
  In [] (singleAnswers a).
Proof.
  unfold singleAnswers. destruct a as [l|t|]; intros H.
  - rewrite length_map.
    destruct (Nat.ltb_spec (List.length l) 4) as [_|Hge]; [|lia].
    destruct l as [|a [|b [|c [|e ?]]]]; simpl in *; try lia; auto 6.
  - simpl. auto.
  - simpl. auto.
Qed.



(** X14.  [POST /questions] of an administrator, once the upload is
    done.  When the story id parses to a positive integer that is the
    id of an existing story, the prompt is not blank, the answers come
    as an array of at least four texts none of which is blank, and the
    correct-index field is there and parses to 0..3, the handler
    inserts one row: if the engine takes it, exactly that row is added
    to the questions table, with the next id, that story, the trimmed
    prompt and the first four trimmed answers, no file is unlinked and
    the answer redirects to the form with the id of the new question;
    if the engine rejects it, the answer is the 500 page and the rows
    are as before.  The answer is the redirect only for such a form. *)
Theorem single_question_is_saved (P : Platform) (s : Session)
  (url : jsstring) (user : User) (form : QuestionForm) (f : option File)
  (d : Database) :
  session_user s = Some user -> isAdmin (Some user) = true ->
  let out := postQuestions P s url form (SingleDone f) d in
  (forall z story l, saveable form d z story l ->
     let row := singleRow form f user d z l in
     (acceptsQuestion P (tables d) row = true ->
      reply out
      = Redirect (lit "/questions/new?created=" ++ ofN (questionSeq d))
      /\ questions (tables (database out)) = questions (tables d) ++ [row]
      /\ stories (tables (database out)) = stories (tables d)
      /\ unlinked out = [])
     /\ (acceptsQuestion P (tables d) row = false ->
         reply out = Render 500 Error500Page
         /\ tables (database out) = tables d
         /\ unlinked out = []))
  /\ (statusOf (reply out) = 302%N ->
      exists z story l, saveable form d z story l).
Proof.
  intros Hu Ha. cbv zeta.
  rewrite (postQuestions_admin P s url form _ d user Hu Ha).
  split.
  - intros z story l
      [Hid [Hpos [Hint [Hstory [Hprompt [Hans [Hlen [Hall Hci]]]]]]]].
    assert (Hsa : singleAnswers (form_answers form) = List.map trim l).
    { rewrite Hans. unfold singleAnswers. rewrite length_map.
      destruct (Nat.ltb_spec (List.length l) 4); [lia | reflexivity]. }
    unfold questionsHandler.
    cbn [singleValues sv_storyId sv_prompt sv_answers sv_correctIndex].
    rewrite Hid, Hsa.
    assert (E1 : badStoryId (Some z) = false).
    { cbn [badStoryId]. rewrite Hint. apply Z.leb_gt. exact Hpos. }
    rewrite E1.
    apply truthy_true in Hprompt. rewrite Hprompt. cbn [negb].
    assert (E2 : existsb (fun answer => negb (truthy answer))
                   (List.map trim l) = false).
    { destruct (existsb _ _) eqn:E; [|reflexivity].
      apply some_empty_In, in_map_iff in E.
      destruct E as [a [Ha' Hin]].
      rewrite Forall_forall in Hall. exfalso. exact (Hall a Hin Ha'). }
    rewrite E2.
    assert (E3 : badCorrectIndex (parseIntOpt (form_correctIndex form))
                 = false).
    { destruct (badCorrectIndex _) eqn:E; [|reflexivity].
      apply badCorrectIndex_outOfRange in E. contradiction. }
    rewrite E3, Hstory.
    unfold createQuestion. cbn [rowsSeen writeRows].
    assert (Hrow : {| question_id := questionSeq d;
                      question_story := Z.to_N z;
                      question_prompt := trim (orEmpty (form_prompt form));
                      answer_a := nth 0 (List.map trim l) [];
                      answer_b := nth 1 (List.map trim l) [];
                      answer_c := nth 2 (List.map trim l) [];
                      answer_d := nth 3 (List.map trim l) [];
                      correct_index := parseIntOpt (form_correctIndex form);
                      audio_path := audioPathOf f;
                      question_author := user_id user;
                      question_created := clock d |}
                   = singleRow form f user d z l).
    { unfold singleRow. f_equal;
        change (@nil N) with (trim []) at 1; apply map_nth. }
    rewrite Hrow.
    split; intros Hacc; rewrite Hacc;
      cbn [reply database unlinked tables addQuestion questions stories
             logOp withQuestionCounter withTables serverError];
      repeat split.
  - intros Hst.
    destruct (questionsHandler_all_or_nothing P user s form
                (SingleDone f) d)
      as [[_ Hno]
         |[z [story [Hid [Hpos [Hint [Hstory [Hp [Ha' [Hci _]]]]]]]]]];
      [contradiction|].
    cbn [singleValues sv_storyId sv_prompt sv_answers sv_correctIndex]
      in Hid, Hp, Ha', Hci.
    destruct (form_answers form) as [l|t|] eqn:Hans.
    + exists z, story, l. unfold saveable. rewrite Hans.
      assert (Hlen : (4 <= List.length l)%nat).
      { destruct (Nat.ltb_spec (List.length l) 4) as [Hlt|]; [|lia].
        exfalso. apply Ha'.
        apply (short_answers_have_a_blank (AnswersArray l)). exact Hlt. }
      do 6 (split; [first [assumption | reflexivity]|]).
      split; [exact Hlen|]. split; [|exact Hci].
      apply Forall_forall. intros a Hin Hblank. apply Ha'.
      unfold singleAnswers. rewrite length_map.
      destruct (Nat.ltb_spec (List.length l) 4); [lia|].
      rewrite <- Hblank. apply in_map. exact Hin.
    + exfalso. apply Ha'.
      apply (short_answers_have_a_blank (AnswersString t)). exact I.
    + exfalso. apply Ha'.
      apply (short_answers_have_a_blank AnswersMissing). exact I.
Qed.

Lemma single_question_is_saved_witness :
  let out := postQuestions plainPlatform adminSession (lit "/questions")
               (farbeForm fourAnswers) (SingleDone None) quizDb in
  reply out = Redirect (lit "/questions/new?created=3")
  /\ List.map (fun r => (question_id r, question_prompt r, answer_b r))
       (questions (tables (database out)))
     = [ (1%N, lit "Farbe?", lit "Blau"); (2%N, lit "Farbe?", lit "Blau");
         (3%N, lit "Farbe?", lit "Blau") ].
Proof.
  cbv zeta.
  destruct (single_question_is_saved plainPlatform adminSession
              (lit "/questions") adminUser (farbeForm fourAnswers) None
              quizDb eq_refl eq_refl) as [H _].
  cbv zeta in H.
  destruct (H 1%Z (sampleStory 1 5)
              [lit "Rot"; lit " Blau"; lit "Gelb "; lit "Weiss"])
    as [[H1 [H2 _]] _].
  - unfold saveable. repeat split; try reflexivity; try discriminate.
    + repeat constructor; discriminate.
    + simpl. lia.
  - reflexivity.
  - split; [exact H1|]. rewrite H2. reflexivity.
Defined.

(** ** Logging in and signing up *)

Lemma returnPath_not_empty (s : Session) : returnPath s <> [].
Proof.
  unfold returnPath. destruct (session_returnTo s) as [[|c r]|];
    discriminate.
Qed.


Example reader_logs_in :
  postLogin plainPlatform (Some (lit " Reader@Example.org"))
    (Some (lit "geheim123")) readerSession quizDb
  = (Redirect (lit "/story/4"),
     {| session_user :=
          Some {| user_id := 2; user_email := lit "reader@example.org" |};
        session_returnTo := None |}).
Proof. reflexivity. Qed.

(** X16.  A visitor without identity who asks for a page behind
    [requireAuth] is sent to the login page; when the login that
    follows succeeds, its redirect goes back to the page first asked
    for, the remembered path is cleared, and [requireAuth] then lets
    the request for that page pass. *)
Theorem login_returns_to_the_requested_page (P : Platform) (s : Session)
  (url email password : jsstring) (d : Database) (user : UserRow) :
  session_user s = None -> url <> [] ->
  normalizeEmail P email <> [] -> password <> [] ->
  findUserByEmail P (normalizeEmail P email) d = Some user ->
  bcryptCompare P password (u_password_hash user) = true ->
  let asked := requireAuth s url in
  let logged := postLogin P (Some email) (Some password) (fst asked) d in
  snd asked = Respond (Redirect (lit "/login"))
  /\ fst logged = Redirect url
  /\ session_returnTo (snd logged) = None
  /\ requireAuth (snd logged) url = (snd logged, Next).
Proof.
  intros Hs Hurl He Hp Hf Hc. cbv zeta.
  unfold requireAuth at 1 2. rewrite Hs. cbn [fst snd].
  unfold postLogin. cbn [orEmpty].
  apply truthy_true in He, Hp. rewrite He, Hp, Hf, Hc. cbn [negb orb fst snd].
  split; [reflexivity|]. split.
  - unfold returnPath. simpl. destruct url; [congruence | reflexivity].
  - split; reflexivity.
Qed.

Lemma login_returns_to_the_requested_page_witness :
  fst (postLogin plainPlatform (Some (lit "reader@example.org"))
         (Some (lit "geheim123"))
         (fst (requireAuth anonymous (lit "/story/2"))) quizDb)
  = Redirect (lit "/story/2").
Proof.
  destruct (login_returns_to_the_requested_page plainPlatform anonymous
              (lit "/story/2") (lit "reader@example.org")
              (lit "geheim123") quizDb
              {| u_id := 2; u_email := lit "reader@example.org";
                 u_password_hash := lit "geheim123" |}
              eq_refl) as [_ [H _]];
    try discriminate; try reflexivity.
Defined.

(** X17.  [POST /signup] creates an account only for a form whose
    normalised email is not empty, whose two passwords are equal and at
    least eight code units long, and whose normalised email the engine
    finds in no row.  Then exactly one row is added to the users table,
    with the normalised email and the hash bcrypt returned; the session
    carries the new id; and the redirect goes to the remembered path or
    the home page.  In every other case the database and the session
    are as before. *)
Theorem signup_creates_one_account_or_none (P : Platform) (E : Engine)
  (emailField passwordField confirmField : option jsstring)
  (passwordHash : jsstring) (s : Session) (d : Database) :
  let out :=
    postSignup P E emailField passwordField confirmField passwordHash s d in
  let normalizedEmail := normalizeEmail P (orEmpty emailField) in
  (signup_database out = d /\ signup_session out = s
   /\ forall location, signup_reply out <> SignupDone location)
  \/ (normalizedEmail <> []
      /\ orEmpty passwordField = orEmpty confirmField
      /\ (8 <= List.length (orEmpty passwordField))%nat
      /\ findUserByEmail P normalizedEmail d = None
      /\ tables (signup_database out)
         = addUser {| u_id := userInsertId E (tables d);
                      u_email := normalizedEmail;
                      u_password_hash := passwordHash |} (tables d)
      /\ signup_session out
         = {| session_user :=
                Some {| user_id := userInsertId E (tables d);
                        user_email := normalizeEmail P normalizedEmail |};
              session_returnTo := None |}
      /\ signup_reply out = SignupDone (returnPath s)).
Proof.
  cbv zeta. unfold postSignup.
  destruct (truthy (normalizeEmail P (orEmpty emailField))) eqn:Ee;
    cbn [negb orb];
    [|left; repeat split; discriminate].
  destruct (truthy (orEmpty passwordField)) eqn:Ep; cbn [negb orb];
    [|left; repeat split; discriminate].
  destruct (truthy (orEmpty confirmField)) eqn:Ec; cbn [negb];
    [|left; repeat split; discriminate].
  destruct (str_eqb (orEmpty passwordField) (orEmpty confirmField)) eqn:Em;
    cbn [negb]; [|left; repeat split; discriminate].
  destruct (Nat.ltb_spec (List.length (orEmpty passwordField)) 8)
    as [Hshort|Hlong]; [left; repeat split; discriminate|].
  destruct (findUserByEmail P _ d) as [u|] eqn:Ef;
    [left; repeat split; discriminate|].
  destruct (acceptsUser E _ _); [|left; repeat split; discriminate].
  right. cbn [signup_reply signup_session signup_database].
  repeat split; try assumption.
  - apply truthy_true, Ee.
  - apply str_eqb_eq, Em.
Qed.

Lemma find_after_append (P : Platform) (email : jsstring)
  (l : list UserRow) (row : UserRow) :
  find (fun u => emailEq P (u_email u) email) l = None ->
  emailEq P (u_email row) email = true ->
  find (fun u => emailEq P (u_email u) email) (l ++ [row]) = Some row.
Proof.
  intros Hnone Hrow. induction l as [|x l IH]; simpl in *.
  - rewrite Hrow. reflexivity.
  - destruct (emailEq P (u_email x) email); [discriminate|].
    apply IH, Hnone.
Qed.

Lemma postSignup_done (P : Platform) (E : Engine)
  (emailField passwordField confirmField : option jsstring)
  (passwordHash : jsstring) (s : Session) (d : Database)
  (location : jsstring) :
  let out :=
    postSignup P E emailField passwordField confirmField passwordHash s d in
  signup_reply out = SignupDone location ->
  normalizeEmail P (orEmpty emailField) <> []
  /\ orEmpty passwordField <> []
  /\ findUserByEmail P (normalizeEmail P (orEmpty emailField)) d = None
  /\ tables (signup_database out)
     = addUser {| u_id := userInsertId E (tables d);
                  u_email := normalizeEmail P (orEmpty emailField);
                  u_password_hash := passwordHash |} (tables d)
  /\ option_map user_id (session_user (signup_session out))
     = Some (userInsertId E (tables d)).
Proof.
  cbv zeta. unfold postSignup.
  destruct (truthy (normalizeEmail P (orEmpty emailField))) eqn:Ee;
    cbn [negb orb]; [|discriminate].
  destruct (truthy (orEmpty passwordField)) eqn:Ep; cbn [negb orb];
    [|discriminate].
  destruct (truthy (orEmpty confirmField)); cbn [negb]; [|discriminate].
  destruct (str_eqb _ _); cbn [negb]; [|discriminate].
  destruct (Nat.ltb_spec (List.length (orEmpty passwordField)) 8);
    [discriminate|].
  destruct (findUserByEmail P _ d) as [u|] eqn:Ef; [discriminate|].
  destruct (acceptsUser E _ _); [|discriminate].
  intros _. cbn [signup_session signup_database].
  repeat split; try reflexivity.
  - apply truthy_true, Ee.
  - apply truthy_true, Ep.
Qed.

(** X18.  An account just created can log in: after a signup that
    succeeded, [POST /login] with the same email and password on the
    new database answers with a redirect and a session that carries the
    id of the new account, provided bcrypt accepts the password for the
    hash it returned and the engine finds the normalised email equal to
    itself. *)
Theorem new_account_can_log_in (P : Platform) (E : Engine)
  (email password confirm hash : jsstring) (s s' : Session)
  (d : Database) (location : jsstring) :
  let out :=
    postSignup P E (Some email) (Some password) (Some confirm) hash s d in
  signup_reply out = SignupDone location ->
  bcryptCompare P password hash = true ->
  emailEq P (normalizeEmail P email) (normalizeEmail P email) = true ->
  let logged :=
    postLogin P (Some email) (Some password) s' (signup_database out) in
  fst logged = Redirect (returnPath s')
  /\ option_map user_id (session_user (snd logged))
     = Some (userInsertId E (tables d))
  /\ option_map user_id (session_user (signup_session out))
     = Some (userInsertId E (tables d)).
Proof.
  cbv zeta. intros Hdone Hhash Heq.
  destruct (postSignup_done P E (Some email) (Some password) (Some confirm)
              hash s d location Hdone) as [He [Hp [Hnone [Ht Hs]]]].
  cbn [orEmpty] in *.
  unfold postLogin. cbn [orEmpty].
  apply truthy_true in He, Hp. rewrite He, Hp. cbn [negb orb].
  unfold findUserByEmail in *. rewrite Ht. cbn [addUser users].
  rewrite (find_after_append P (normalizeEmail P email) (users (tables d))
             {| u_id := userInsertId E (tables d);
                u_email := normalizeEmail P email;
                u_password_hash := hash |} Hnone Heq).
  cbn [u_password_hash]. rewrite Hhash. cbn [negb fst snd].
  split; [reflexivity|].
  split; [reflexivity | exact Hs].
Qed.

Lemma new_account_can_log_in_witness :
  fst (postLogin plainPlatform (Some (lit "Neu@Example.org "))
         (Some (lit "geheim123")) anonymous
         (signup_database
            (postSignup plainPlatform plainEngine
               (Some (lit "Neu@Example.org ")) (Some (lit "geheim123"))
               (Some (lit "geheim123")) (lit "geheim123") anonymous
               quizDb)))
  = Redirect (lit "/").
Proof.
  destruct (new_account_can_log_in plainPlatform plainEngine
              (lit "Neu@Example.org ") (lit "geheim123") (lit "geheim123")
              (lit "geheim123") anonymous anonymous quizDb (lit "/")
              eq_refl eq_refl eq_refl) as [H _].
  exact H.
Defined.

(** ** The learning editors *)





(** ** The order of the validations of a story *)

(** X21.  [POST /stories] validates in a fixed order and shows the
    first failure only.  A title, summary or body that is missing or
    consists of white space alone counts as missing and gives the
    message of the required fields, whatever the level and the
    questions are.  With the three present, a level outside A1 .. C2
    gives the message of the level, whatever the questions are.  The
    questions are examined only after that.  Each of these answers is a
    400 page that shows the trimmed values and leaves the database as
    it was. *)
Theorem story_validations_run_in_order (P : Platform) (s : Session)
  (url : jsstring) (user : User) (body : Body) (files : list File)
  (d : Database) :
  session_user s = Some user -> isAdmin (Some user) = true ->
  let values := storyValues P body files in
  let out := postStories P s url (UploadDone body files) d in
  let blankField name :=
    forallb isWhiteSpace (orEmpty (field name body)) = true in
  let someBlank :=
    blankField (lit "title") \/ blankField (lit "summary")
    \/ blankField (lit "body") in
  (someBlank ->
   reply out = renderForm 400 MSG_REQUIRED values /\ database out = d)
  /\ (~ someBlank -> ~ In (v_level values) STORY_LEVELS ->
      reply out = renderForm 400 MSG_LEVEL values /\ database out = d)
  /\ (~ someBlank -> In (v_level values) STORY_LEVELS ->
      forall msg, firstQuestionError (v_questions values) = Some msg ->
      reply out = renderForm 400 msg values /\ database out = d).
Proof.
  intros Hu Ha. cbv zeta.
  rewrite (postStories_admin P s url _ d user Hu Ha).
  rewrite storiesHandler_done. unfold submitStory, storyError.
  rewrite <- !trim_nil.
  change (trim (orEmpty (field (lit "title") body)))
    with (v_title (storyValues P body files)).
  change (trim (orEmpty (field (lit "summary") body)))
    with (v_summary (storyValues P body files)).
  change (trim (orEmpty (field (lit "body") body)))
    with (v_body (storyValues P body files)).
  pose proof (truthy_false (v_title (storyValues P body files))) as Ht.
  pose proof (truthy_false (v_summary (storyValues P body files))) as Hs.
  pose proof (truthy_false (v_body (storyValues P body files))) as Hb.
  pose proof (includes_In STORY_LEVELS (v_level (storyValues P body files)))
    as Hl.
  destruct (truthy (v_title (storyValues P body files)));
    cbn [negb orb];
    [| assert (E : v_title (storyValues P body files) = [])
         by (apply Ht; reflexivity);
       split; [intros _; split; reflexivity|];
       split; intros H; exfalso; apply H; left; exact E].
  destruct (truthy (v_summary (storyValues P body files)));
    cbn [negb orb];
    [| assert (E : v_summary (storyValues P body files) = [])
         by (apply Hs; reflexivity);
       split; [intros _; split; reflexivity|];
       split; intros H; exfalso; apply H; right; left; exact E].
  destruct (truthy (v_body (storyValues P body files)));
    cbn [negb orb];
    [| assert (E : v_body (storyValues P body files) = [])
         by (apply Hb; reflexivity);
       split; [intros _; split; reflexivity|];
       split; intros H; exfalso; apply H; right; right; exact E].
  assert (Hno : ~ (v_title (storyValues P body files) = []
                   \/ v_summary (storyValues P body files) = []
                   \/ v_body (storyValues P body files) = [])).
  { intros [E|[E|E]]; [apply Ht in E | apply Hs in E | apply Hb in E];
      discriminate. }
  split; [intros H; contradiction|].
  destruct (includes STORY_LEVELS (v_level (storyValues P body files)))
    eqn:El; cbn [negb].
  - split.
    + intros _ Hn. exfalso. apply Hn, Hl. reflexivity.
    + intros _ _ msg Hm. rewrite Hm. split; reflexivity.
  - split.
    + intros _ _. split; reflexivity.
    + intros _ Hin. apply Hl in Hin. discriminate.
Qed.

Lemma story_validations_run_in_order_witness :
  let out := postStories plainPlatform adminSession (lit "/stories")
               (UploadDone
                  [ (lit "title", lit "Der Mond");
                    (lit "level", lit "Z9");
                    (lit "summary", [9%N; 32%N; 160%N]);
                    (lit "body", lit "Text") ] []) quizDb in
  formError (reply out) = Some MSG_REQUIRED /\ database out = quizDb.
Proof.
  cbv zeta.
  destruct (story_validations_run_in_order plainPlatform adminSession
              (lit "/stories") adminUser
              [ (lit "title", lit "Der Mond");
                (lit "level", lit "Z9");
                (lit "summary", [9%N; 32%N; 160%N]);
                (lit "body", lit "Text") ] [] quizDb eq_refl eq_refl)
    as [H _].
  destruct H as [H1 H2]; [right; left; reflexivity|].
  rewrite H1. split; [reflexivity | exact H2].
Defined.

(** ** A new story in the listings *)

Lemma sortBy_newest_last {A : Type} (leb : A -> A -> bool) (l : list A)
  (x : A) :
  (forall y, In y l -> leb y x = false) ->
  sortBy leb (l ++ [x]) = x :: sortBy leb l.
Proof.
  induction l as [|a l IH]; intros H; [reflexivity|].
  cbn [app sortBy fold_right].
  fold (sortBy leb (l ++ [x])). fold (sortBy leb l).
  rewrite IH by (intros y Hy; apply H; right; exact Hy).
  cbn [insertSorted]. rewrite (H a) by (left; reflexivity).
  reflexivity.
Qed.

Lemma DATE_FORMAT_mono (a b : N) :
  (a <= b)%N -> (DATE_FORMAT a <= DATE_FORMAT b)%N.
Proof.
  intros H. unfold DATE_FORMAT. apply N.Div0.div_le_mono. exact H.
Qed.

(** X22.  A story just saved heads both listings.  If every story of
    the table has a smaller id than the next id of the counter and was
    not created after the present time, then after a valid submission
    of an administrator on an engine that takes every row and every
    call [getAllStories] and [getStorySummaries] return the new story
    first,
    with the trimmed title, the level in upper case and the trimmed
    summary, followed by what they returned before. *)
Theorem saved_story_heads_the_listings (P : Platform) (s : Session)
  (url : jsstring) (user : User) (body : Body) (files : list File)
  (d : Database) :
  session_user s = Some user -> isAdmin (Some user) = true ->
  acceptsAll P ->
  storyError (storyValues P body files) = None ->
  (forall st, In st (stories (tables d)) ->
     (story_id st < storySeq d)%N /\ (story_created st <= clock d)%N) ->
  let values := storyValues P body files in
  let out := postStories P s url (UploadDone body files) d in
  getAllStories (database out)
  = {| l_id := storySeq d; l_title := v_title values;
       l_level := v_level values; l_summary := v_summary values;
       l_created_at := DATE_FORMAT (clock d) |} :: getAllStories d
  /\ getStorySummaries (database out)
     = (storySeq d, v_title values) :: getStorySummaries d.
Proof.
  intros Hu Ha Hacc Herr Hold. cbv zeta.
  rewrite (postStories_admin P s url _ d user Hu Ha).
  destruct (storiesHandler_saved P user s body files d Hacc Herr)
    as [_ [Hst _]].
  cbv zeta in Hst.
  unfold getAllStories, getStorySummaries, orderedStories, orderedSummaries.
  rewrite Hst. split.
  - rewrite sortBy_newest_last; [reflexivity|].
    intros y Hy. destruct (Hold y Hy) as [Hid Hcr].
    apply DATE_FORMAT_mono in Hcr.
    unfold descDesc, storyRow. cbn [story_created story_id].
    apply orb_false_iff. split; [apply N.ltb_ge; exact Hcr|].
    apply andb_false_iff. right. apply N.leb_gt. exact Hid.
  - rewrite sortBy_newest_last; [reflexivity|].
    intros y Hy. destruct (Hold y Hy) as [Hid Hcr].
    unfold descDesc, storyRow. cbn [story_created story_id].
    apply orb_false_iff. split; [apply N.ltb_ge; exact Hcr|].
    apply andb_false_iff. right. apply N.leb_gt. exact Hid.
Qed.

Lemma saved_story_heads_the_listings_witness :
  let out := postStories plainPlatform adminSession (lit "/stories")
               (UploadDone mondBody sampleFiles) quizDb in
  List.map l_id (getAllStories (database out)) = [3; 2; 1]%N
  /\ List.map fst (getStorySummaries (database out)) = [3; 2; 1]%N.
Proof.
  cbv zeta.
  destruct (saved_story_heads_the_listings plainPlatform adminSession
              (lit "/stories") adminUser mondBody sampleFiles quizDb
              eq_refl eq_refl plainPlatform_acceptsAll eq_refl)
    as [H1 H2].
  - intros st [<-|[<-|[]]]; split; vm_compute; congruence.
  - rewrite H1, H2. split; reflexivity.
Defined.
